(** * MT5 webhook server: lenient JSON parser and durable snapshot store

    Shallow embedding of [server.py] and of the parts of the Python
    runtime and of the web framework it calls ([bytes.decode], [json.loads],
    [json.dumps], [re.sub], [pathlib.Path], [print], the constructor of
    [JSONResponse]), followed by the properties of the specification.

    Conventions.  A Python [str] is a list of Unicode code points ([Z]); a
    Python [bytes] is a list of 8-bit values ([Z] in [0, 255]).  A Python
    object produced by [json.loads] is a [pyval]; Python's [None] is the
    constructor [PNone].  Effects (the file system, raised exceptions, the
    order of file operations) are threaded through a small state-and-error
    monad over a [World]. *)

From Stdlib Require Import ZArith List Ascii String Bool Lia.
From Stdlib Require Import Decimal DecimalZ DecimalPos DecimalN DecimalFacts.
From stdpp Require Import base gmap strings list.

Open Scope Z_scope.

(** ** Text: sequences of code points *)

Module Text.

Abbreviation text := (list Z) (only parsing).
Abbreviation bytes := (list Z) (only parsing).

(** [ord c] for an ASCII character literal. *)
Definition ch (a : ascii) : Z := Z.of_N (N_of_ascii a).

(** A Python string literal with ASCII content. *)
Fixpoint lit (s : string) : text :=
  match s with
  | EmptyString => []
  | String a s' => ch a :: lit s'
  end.

(** A string literal in which every apostrophe stands for a double
    quote: [qlit "{'a':1}"] is the Python string [{"a":1}]. *)
Definition qlit (s : string) : text :=
  map (fun c => if c =? 39 then 34 else c) (lit s).

Definition is_surrogate (c : Z) : bool := (0xD800 <=? c) && (c <=? 0xDFFF).

(** Unicode scalar values: the code points UTF-8 can encode. *)
Definition is_scalar (c : Z) : bool :=
  (0 <=? c) && (c <=? 0x10FFFF) && negb (is_surrogate c).

Fixpoint text_eqb (a b : text) : bool :=
  match a, b with
  | [], [] => true
  | x :: a', y :: b' => (x =? y) && text_eqb a' b'
  | _, _ => false
  end.

End Text.
Import Text.

(** ** UTF-8 *)

Module Utf8.

Definition is_cont (b : Z) : bool := (0x80 <=? b) && (b <=? 0xBF).

(** Range of the second byte of a three-byte sequence (Unicode table 3-7):
    [E0] excludes over-long forms, [ED] excludes surrogates. *)
Definition second3 (b0 b1 : Z) : bool :=
  if b0 =? 0xE0 then (0xA0 <=? b1) && (b1 <=? 0xBF)
  else if b0 =? 0xED then (0x80 <=? b1) && (b1 <=? 0x9F)
  else is_cont b1.

(** Range of the second byte of a four-byte sequence: [F0] excludes
    over-long forms, [F4] excludes code points above [10FFFF]. *)
Definition second4 (b0 b1 : Z) : bool :=
  if b0 =? 0xF0 then (0x90 <=? b1) && (b1 <=? 0xBF)
  else if b0 =? 0xF4 then (0x80 <=? b1) && (b1 <=? 0x8F)
  else is_cont b1.

(** One step of the decoder: the well-formed sequence at the head of the
    input, if there is one, with its code point and the remaining bytes. *)
Definition decode_one (bs : bytes) : option (Z * bytes) :=
  match bs with
  | [] => None
  | b0 :: r0 =>
    if (0 <=? b0) && (b0 <? 0x80) then Some (b0, r0)
    else if (0xC2 <=? b0) && (b0 <? 0xE0) then
      match r0 with
      | b1 :: r1 =>
        if is_cont b1 then Some ((b0 - 0xC0) * 64 + (b1 - 0x80), r1) else None
      | _ => None
      end
    else if (0xE0 <=? b0) && (b0 <? 0xF0) then
      match r0 with
      | b1 :: b2 :: r2 =>
        if second3 b0 b1 && is_cont b2
        then Some ((b0 - 0xE0) * 4096 + (b1 - 0x80) * 64 + (b2 - 0x80), r2)
        else None
      | _ => None
      end
    else if (0xF0 <=? b0) && (b0 <? 0xF5) then
      match r0 with
      | b1 :: b2 :: b3 :: r3 =>
        if second4 b0 b1 && is_cont b2 && is_cont b3
        then Some ((b0 - 0xF0) * 262144 + (b1 - 0x80) * 4096
                   + (b2 - 0x80) * 64 + (b3 - 0x80), r3)
        else None
      | _ => None
      end
    else None
  end.

(** [bytes.decode("utf-8", "ignore")]: a byte at which no well-formed
    sequence starts is skipped and decoding resumes at the next byte. *)
Fixpoint decode_ignore_loop (fuel : nat) (bs : bytes) : text :=
  match fuel with
  | O => []
  | S fuel' =>
    match bs with
    | [] => []
    | _ :: r0 =>
      match decode_one bs with
      | Some (c, rest) => c :: decode_ignore_loop fuel' rest
      | None => decode_ignore_loop fuel' r0
      end
    end
  end.

Definition decode_ignore (bs : bytes) : text :=
  decode_ignore_loop (length bs) bs.

(** [bytes.decode("utf-8")] (strict): fails with [UnicodeDecodeError] at
    the first byte at which no well-formed sequence starts. *)
Fixpoint decode_strict_loop (fuel : nat) (bs : bytes) : option text :=
  match fuel with
  | O => match bs with [] => Some [] | _ => None end
  | S fuel' =>
    match bs with
    | [] => Some []
    | _ :: _ =>
      match decode_one bs with
      | Some (c, rest) =>
        match decode_strict_loop fuel' rest with
        | Some t => Some (c :: t)
        | None => None
        end
      | None => None
      end
    end
  end.

Definition decode_strict (bs : bytes) : option text :=
  decode_strict_loop (length bs) bs.

(** U+FFFD, the marker that the ["replace"] error handler would leave
    for ill-formed input; the ["ignore"] handler of the code leaves none. *)
Definition replacement_marker : Z := 0xFFFD.

(** [str.encode("utf-8")] (strict) of one code point; [None] stands for
    [UnicodeEncodeError] (surrogates) or a value that is no code point. *)
Definition encode_cp (c : Z) : option bytes :=
  if negb (is_scalar c) then None
  else if c <? 0x80 then Some [c]
  else if c <? 0x800 then Some [0xC0 + c / 64; 0x80 + c mod 64]
  else if c <? 0x10000 then
    Some [0xE0 + c / 4096; 0x80 + (c / 64) mod 64; 0x80 + c mod 64]
  else
    Some [0xF0 + c / 262144; 0x80 + (c / 4096) mod 64;
          0x80 + (c / 64) mod 64; 0x80 + c mod 64].

Fixpoint encode (t : text) : option bytes :=
  match t with
  | [] => Some []
  | c :: t' =>
    match encode_cp c, encode t' with
    | Some b, Some bs => Some (b ++ bs)
    | _, _ => None
    end
  end.

End Utf8.

(** ** The parts of the Python runtime that are tables or primitives

    The binary64 floats and the Unicode character database are not part
    of the repository.  They enter as parameters: every definition below is
    generic in them, and on ASCII text none of the Unicode tables is ever
    consulted. *)

Inductive float_class := FNaN | FPosInf | FNegInf | FFinite.

Class Runtime := {
  (** the type [float] *)
  pyfloat : Type;
  (** [float(s)] for a string [s] *)
  float_of_lit : text -> pyfloat;
  (** [float.__repr__] *)
  float_repr : pyfloat -> text;
  (** [x != x], [x == inf], [x == -inf] *)
  float_classify : pyfloat -> float_class;
  (** [str.isdecimal], [str.isspace] and [str.isalnum] on code points above
      the ASCII range *)
  unicode_isdecimal : Z -> bool;
  unicode_isspace : Z -> bool;
  unicode_isalnum : Z -> bool;
  (** [str(e)] for the [UnicodeDecodeError] raised on the given bytes and
      for the [UnicodeEncodeError] raised on the given string *)
  unicode_decode_error_str : bytes -> text;
  unicode_encode_error_str : text -> text
}.

(** ** Python objects *)

Section Values.
Context {rt : Runtime}.

(** What [json.loads] can return.  A [dict] keeps insertion order, so it
    is an association list; its keys are pairwise distinct. *)
Local Unset Elimination Schemes.
Inductive pyval :=
| PNone
| PBool (b : bool)
| PInt (n : Z)
| PFloat (f : pyfloat)
| PStr (s : text)
| PList (l : list pyval)
| PDict (d : list (text * pyval)).
Local Set Elimination Schemes.

(** [x is None] *)
Definition is_None (v : pyval) : bool :=
  match v with PNone => true | _ => false end.

(** [d[k] = v] on a [dict]: an existing key keeps its position. *)
Fixpoint dict_set (d : list (text * pyval)) (k : text) (v : pyval)
  : list (text * pyval) :=
  match d with
  | [] => [(k, v)]
  | (k', v') :: d' =>
    if text_eqb k' k then (k, v) :: d' else (k', v') :: dict_set d' k v
  end.

End Values.

(** ** Decimal integers: [int.__repr__] and [int(s)] *)

Module PyInt.

Fixpoint uint_text (d : Decimal.uint) : text :=
  match d with
  | Nil => []
  | D0 d' => ch "0" :: uint_text d'
  | D1 d' => ch "1" :: uint_text d'
  | D2 d' => ch "2" :: uint_text d'
  | D3 d' => ch "3" :: uint_text d'
  | D4 d' => ch "4" :: uint_text d'
  | D5 d' => ch "5" :: uint_text d'
  | D6 d' => ch "6" :: uint_text d'
  | D7 d' => ch "7" :: uint_text d'
  | D8 d' => ch "8" :: uint_text d'
  | D9 d' => ch "9" :: uint_text d'
  end.

(** [int.__repr__(n)] *)
Definition repr (n : Z) : text :=
  match Z.to_int n with
  | Pos d => uint_text d
  | Neg d => ch "-" :: uint_text d
  end.

(** The digits of a run of ASCII digit characters. *)
Fixpoint text_uint (t : text) : Decimal.uint :=
  match t with
  | [] => Nil
  | c :: t' =>
    let r := text_uint t' in
    if c =? ch "0" then D0 r else if c =? ch "1" then D1 r
    else if c =? ch "2" then D2 r else if c =? ch "3" then D3 r
    else if c =? ch "4" then D4 r else if c =? ch "5" then D5 r
    else if c =? ch "6" then D6 r else if c =? ch "7" then D7 r
    else if c =? ch "8" then D8 r else D9 r
  end.

(** [int(s)] for [s] an optional minus sign and digits.  The limit of the
    interpreter on the number of digits of such a string is not modelled. *)
Definition of_lit (t : text) : Z :=
  match t with
  | c :: t' =>
    if c =? ch "-" then Z.of_int (Neg (text_uint t'))
    else Z.of_int (Pos (text_uint t))
  | [] => 0
  end.

End PyInt.

(** ** [json.loads]: the decoder of the standard library

    The scanner works on the remaining input instead of an index.  An error
    carries the message of the [JSONDecodeError] and the number of
    characters that remain at the reported position, from which
    [json_loads] recovers the [pos] attribute. *)

Inductive res (A : Type) :=
| Ok (a : A)
| Err (msg : string) (remaining : nat).
Arguments Ok {A} a.
Arguments Err {A} msg remaining.

Record JSONDecodeError := {
  err_msg : string;
  err_doc : text;
  err_pos : nat
}.

Module JsonDecoder.
Section Decoder.
Context {rt : Runtime}.

(** [IS_WHITESPACE]: space, tab, line feed, carriage return. *)
Definition is_ws (c : Z) : bool :=
  (c =? 32) || (c =? 9) || (c =? 10) || (c =? 13).

Fixpoint skip_ws (s : text) : text :=
  match s with
  | c :: r => if is_ws c then skip_ws r else s
  | [] => []
  end.

(** The double quote character. *)
Definition dquote : Z := 34.

Definition hexval (c : Z) : option Z :=
  if (ch "0" <=? c) && (c <=? ch "9") then Some (c - ch "0")
  else if (ch "a" <=? c) && (c <=? ch "f") then Some (c - ch "a" + 10)
  else if (ch "A" <=? c) && (c <=? ch "F") then Some (c - ch "A" + 10)
  else None.

Definition hex4 (h1 h2 h3 h4 : Z) : option Z :=
  match hexval h1, hexval h2, hexval h3, hexval h4 with
  | Some a, Some b, Some c, Some d => Some (((a * 16 + b) * 16 + c) * 16 + d)
  | _, _, _, _ => None
  end.

Definition is_high_surrogate (c : Z) : bool := (0xD800 <=? c) && (c <=? 0xDBFF).
Definition is_low_surrogate (c : Z) : bool := (0xDC00 <=? c) && (c <=? 0xDFFF).
Definition join_surrogates (hi lo : Z) : Z :=
  0x10000 + (Z.lor (Z.shiftl (Z.land hi 0x3FF) 10) (Z.land lo 0x3FF)).

(** The character a one-letter escape stands for. *)
Definition simple_escape (e : Z) : option Z :=
  if e =? dquote then Some (dquote)
  else if e =? ch "\" then Some (ch "\")
  else if e =? ch "/" then Some (ch "/")
  else if e =? ch "b" then Some 8
  else if e =? ch "f" then Some 12
  else if e =? ch "n" then Some 10
  else if e =? ch "r" then Some 13
  else if e =? ch "t" then Some 9
  else None.

(** [scanstring] with [strict=True], entered after the opening quote.
    [begin] locates the opening quote; [acc] holds the characters read so
    far, last first. *)
Fixpoint scanstring (begin : nat) (acc : text) (s : text) : res (text * text) :=
  match s with
  | [] => Err "Unterminated string starting at" begin
  | c :: r =>
    if c =? dquote then Ok (rev acc, r)
    else if c =? ch "\" then
      match r with
      | [] => Err "Unterminated string starting at" begin
      | e :: r1 =>
        if e =? ch "u" then
          match r1 with
          | h1 :: h2 :: h3 :: h4 :: ((_ :: _) as r2) =>
            match hex4 h1 h2 h3 h4 with
            | None => Err "Invalid \uXXXX escape" (length r)
            | Some u =>
              if is_high_surrogate u then
                match r2 with
                | b :: u' :: g1 :: g2 :: g3 :: g4 :: ((_ :: _) as r3) =>
                  if (b =? ch "\") && (u' =? ch "u") then
                    match hex4 g1 g2 g3 g4 with
                    | None => Err "Invalid \uXXXX escape" (S (length r3 + 4))
                    | Some u2 =>
                      if is_low_surrogate u2
                      then scanstring begin (join_surrogates u u2 :: acc) r3
                      else scanstring begin (u :: acc) r2
                    end
                  else scanstring begin (u :: acc) r2
                | _ => scanstring begin (u :: acc) r2
                end
              else scanstring begin (u :: acc) r2
            end
          | _ => Err "Invalid \uXXXX escape" (length r)
          end
        else
          match simple_escape e with
          | Some x => scanstring begin (x :: acc) r1
          | None => Err "Invalid \escape" (length s)
          end
      end
    else if c <=? 0x1F then Err "Invalid control character at" (length s)
    else scanstring begin (c :: acc) r
  end.

Definition is_digit (c : Z) : bool := (ch "0" <=? c) && (c <=? ch "9").

(** The longest prefix of digits, and what follows it. *)
Fixpoint span_digits (s : text) : text * text :=
  match s with
  | c :: r =>
    if is_digit c then let (ds, r') := span_digits r in (c :: ds, r')
    else ([], s)
  | [] => ([], [])
  end.

(** The integer part: [0], or a non-zero digit followed by digits. *)
Definition scan_int (s : text) : option (text * text) :=
  match s with
  | c :: r =>
    if (ch "1" <=? c) && (c <=? ch "9") then
      let (ds, r') := span_digits r in Some (c :: ds, r')
    else if c =? ch "0" then Some ([c], r)
    else None
  | [] => None
  end.

(** The fraction: a dot followed by at least one digit. *)
Definition scan_frac (s : text) : option (text * text) :=
  match s with
  | c :: ((d :: _) as r) =>
    if (c =? ch ".") && is_digit d then
      let (ds, r') := span_digits r in Some (c :: ds, r')
    else None
  | _ => None
  end.

(** The exponent: [e] or [E], an optional sign, at least one digit;
    otherwise the scanner backtracks to before the [e]. *)
Definition scan_exp (s : text) : option (text * text) :=
  match s with
  | c :: r =>
    if (c =? ch "e") || (c =? ch "E") then
      match r with
      | sg :: r1 =>
        if (sg =? ch "-") || (sg =? ch "+") then
          match span_digits r1 with
          | ([], _) => None
          | (ds, r') => Some (c :: sg :: ds, r')
          end
        else
          match span_digits r with
          | ([], _) => None
          | (ds, r') => Some (c :: ds, r')
          end
      | [] => None
      end
    else None
  | [] => None
  end.

(** The optional minus sign. *)
Definition scan_sign (s : text) : text * text :=
  match s with
  | c :: r => if c =? ch "-" then ([c], r) else ([], s)
  | [] => ([], s)
  end.

(** [_match_number]: a number at the head of [s]; [StopIteration] is
    reported as the ["Expecting value"] error it becomes. *)
Definition match_number (s : text) : res (pyval * text) :=
  let stop := Err "Expecting value" (length s) in
  let '(sign, s1) := scan_sign s in
  match scan_int s1 with
  | None => stop
  | Some (ip, s2) =>
    let '(fp, s3) :=
      match scan_frac s2 with Some (f, r) => (f, r) | None => ([], s2) end in
    let '(ep, s4) :=
      match scan_exp s3 with Some (e, r) => (e, r) | None => ([], s3) end in
    match fp, ep with
    | [], [] => Ok (PInt (PyInt.of_lit (sign ++ ip)), s4)
    | _, _ => Ok (PFloat (float_of_lit (sign ++ ip ++ fp ++ ep)), s4)
    end
  end.

(** [s.startswith(p)], returning the rest of [s]. *)
Fixpoint strip_prefix (p s : text) : option text :=
  match p, s with
  | [], _ => Some s
  | a :: p', b :: s' => if a =? b then strip_prefix p' s' else None
  | _ :: _, [] => None
  end.

(** [scan_once], the loop of [_parse_array] and the loop of
    [_parse_object].  The fuel bounds the number of nested calls.
    [json_loads] gives a fuel that always suffices, so the error for the end
    of the fuel never shows; the recursion limit of the interpreter, which
    stops very deep nesting with a [RecursionError], is not modelled. *)
Fixpoint scan_once (fuel : nat) (s : text) {struct fuel} : res (pyval * text) :=
  match fuel with
  | O => Err "maximum recursion depth exceeded" (length s)
  | S fuel' =>
    match s with
    | [] => Err "Expecting value" 0
    | c :: r =>
      if c =? dquote then
        match scanstring (length s) [] r with
        | Ok (str, r') => Ok (PStr str, r')
        | Err m p => Err m p
        end
      else if c =? ch "{" then
        match skip_ws r with
        | ((c' :: r') as r0) =>
          if c' =? ch "}" then Ok (PDict [], r')
          else parse_object fuel' [] r0
        | [] => parse_object fuel' [] []
        end
      else if c =? ch "[" then
        match skip_ws r with
        | ((c' :: r') as r0) =>
          if c' =? ch "]" then Ok (PList [], r')
          else parse_array fuel' [] r0
        | [] => parse_array fuel' [] []
        end
      else
        match strip_prefix (lit "null") s with
        | Some r' => Ok (PNone, r')
        | None =>
        match strip_prefix (lit "true") s with
        | Some r' => Ok (PBool true, r')
        | None =>
        match strip_prefix (lit "false") s with
        | Some r' => Ok (PBool false, r')
        | None =>
        match strip_prefix (lit "NaN") s with
        | Some r' => Ok (PFloat (float_of_lit (lit "nan")), r')
        | None =>
        match strip_prefix (lit "Infinity") s with
        | Some r' => Ok (PFloat (float_of_lit (lit "inf")), r')
        | None =>
        match strip_prefix (lit "-Infinity") s with
        | Some r' => Ok (PFloat (float_of_lit (lit "-inf")), r')
        | None => match_number s
        end end end end end end
    end
  end

(** [acc] holds the elements read so far, last first; [s] is at an
    element. *)
with parse_array (fuel : nat) (acc : list pyval) (s : text) {struct fuel}
  : res (pyval * text) :=
  match fuel with
  | O => Err "maximum recursion depth exceeded" (length s)
  | S fuel' =>
    match scan_once fuel' s with
    | Err m p => Err m p
    | Ok (v, r) =>
      match skip_ws r with
      | ((c :: r') as r0) =>
        if c =? ch "]" then Ok (PList (rev (v :: acc)), r')
        else if c =? ch "," then parse_array fuel' (v :: acc) (skip_ws r')
        else Err "Expecting ',' delimiter" (length r0)
      | [] => Err "Expecting ',' delimiter" 0
      end
    end
  end

(** [acc] is the [dict] built so far; [s] is at a key. *)
with parse_object (fuel : nat) (acc : list (text * pyval)) (s : text)
  {struct fuel} : res (pyval * text) :=
  match fuel with
  | O => Err "maximum recursion depth exceeded" (length s)
  | S fuel' =>
    match s with
    | q :: r =>
      if q =? dquote then
        match scanstring (length s) [] r with
        | Err m p => Err m p
        | Ok (key, r1) =>
          match skip_ws r1 with
          | ((c :: r2) as r1') =>
            if c =? ch ":" then
              match scan_once fuel' (skip_ws r2) with
              | Err m p => Err m p
              | Ok (v, r3) =>
                match skip_ws r3 with
                | ((c' :: r4) as r3') =>
                  if c' =? ch "}" then Ok (PDict (dict_set acc key v), r4)
                  else if c' =? ch ","
                  then parse_object fuel' (dict_set acc key v) (skip_ws r4)
                  else Err "Expecting ',' delimiter" (length r3')
                | [] => Err "Expecting ',' delimiter" 0
                end
              end
            else Err "Expecting ':' delimiter" (length r1')
          | [] => Err "Expecting ':' delimiter" 0
          end
        end
      else Err "Expecting property name enclosed in double quotes" (length s)
    | [] => Err "Expecting property name enclosed in double quotes" 0
    end
  end.

(** [s.startswith('\ufeff')] *)
Definition starts_with_bom (s : text) : bool :=
  match s with
  | c :: _ => c =? 0xFEFF
  | [] => false
  end.

(** [json.loads(s)] for a [str]: the byte-order-mark check of [loads],
    then [JSONDecoder.decode]: leading white space, one value, trailing
    white space, end of input. *)
Definition json_loads (s : text) : pyval + JSONDecodeError :=
  let fail m (remaining : nat) :=
    inr {| err_msg := m; err_doc := s;
           err_pos := (length s - remaining)%nat |} in
  if starts_with_bom s
  then fail "Unexpected UTF-8 BOM (decode using utf-8-sig)"%string (length s)
  else
    match scan_once (2 * length s + 1) (skip_ws s) with
    | Err m p => fail m p
    | Ok (v, r) =>
      match skip_ws r with
      | [] => inl v
      | ((_ :: _) as r') => fail "Extra data"%string (length r')
      end
    end.

End Decoder.
End JsonDecoder.
Export JsonDecoder.

(** ** [re.sub]: a backtracking matcher for the constructs the patterns use *)

Module Re.
Section Regex.
Context {rt : Runtime}.

Definition ascii_isalnum (c : Z) : bool :=
  ((ch "0" <=? c) && (c <=? ch "9"))
  || ((ch "A" <=? c) && (c <=? ch "Z"))
  || ((ch "a" <=? c) && (c <=? ch "z")).

(** [\d] on a [str] pattern: a Unicode decimal digit. *)
Definition cat_digit (c : Z) : bool :=
  if c <? 128 then (ch "0" <=? c) && (c <=? ch "9") else unicode_isdecimal c.

(** [\s] on a [str] pattern: Unicode white space; in the ASCII range the
    characters 9 to 13, 28 to 31 and the space. *)
Definition cat_space (c : Z) : bool :=
  if c <? 128
  then ((9 <=? c) && (c <=? 13)) || ((28 <=? c) && (c <=? 31)) || (c =? 32)
  else unicode_isspace c.

(** [\w] on a [str] pattern: alphanumeric or the underscore. *)
Definition cat_word (c : Z) : bool :=
  if c <? 128 then ascii_isalnum c || (c =? ch "_") else unicode_isalnum c.

Inductive regex :=
| Chr (c : Z)                 (* a literal character *)
| Cls (p : Z -> bool)         (* a class: [\d], [\s], a set *)
| Cat (r1 r2 : regex)         (* concatenation *)
| Star (r : regex)            (* greedy [*] *)
| Opt (r : regex)             (* greedy [?] *)
| Rep (n : nat) (r : regex)   (* [{n}] *)
| Grp (i : nat) (r : regex)   (* capturing group number [i] *)
| WordB.                      (* [\b] *)

(** Greedy [+]. *)
Definition Plus (r : regex) : regex := Cat r (Star r).

(** A sequence of patterns. *)
Fixpoint Seq (rs : list regex) : regex :=
  match rs with
  | [] => Rep 0 (Chr 0)
  | [r] => r
  | r :: rs' => Cat r (Seq rs')
  end.

(** A literal string. *)
Definition Lit (t : text) : regex := Seq (map Chr t).

Definition captures := list (nat * text).

Definition is_word_before (prev : option Z) : bool :=
  match prev with Some c => cat_word c | None => false end.

Definition is_word_at (s : text) : bool :=
  match s with c :: _ => cat_word c | [] => false end.

(** [rmatch r prev s caps k]: match [r] at the head of [s], where [prev]
    is the character before it, then continue with [k]; alternatives are
    tried in the order of a backtracking matcher (greedy first) and the
    first overall success is the answer. *)
Fixpoint rmatch {A : Type} (r : regex) (prev : option Z) (s : text)
    (caps : captures) (k : option Z -> text -> captures -> option A)
    {struct r} : option A :=
  match r with
  | Chr c =>
    match s with
    | x :: s' => if x =? c then k (Some x) s' caps else None
    | [] => None
    end
  | Cls p =>
    match s with
    | x :: s' => if p x then k (Some x) s' caps else None
    | [] => None
    end
  | Cat r1 r2 =>
    rmatch r1 prev s caps (fun prev' s' caps' => rmatch r2 prev' s' caps' k)
  | Star r1 =>
    (fix loop (n : nat) (prev : option Z) (s : text) (caps : captures)
       : option A :=
       match n with
       | O => k prev s caps
       | S n' =>
         match rmatch r1 prev s caps
                 (fun prev' s' caps' =>
                    if (length s' <? length s)%nat
                    then loop n' prev' s' caps' else None) with
         | Some a => Some a
         | None => k prev s caps
         end
       end) (length s) prev s caps
  | Opt r1 =>
    match rmatch r1 prev s caps k with
    | Some a => Some a
    | None => k prev s caps
    end
  | Rep n r1 =>
    (fix rep (n : nat) (prev : option Z) (s : text) (caps : captures)
       : option A :=
       match n with
       | O => k prev s caps
       | S n' => rmatch r1 prev s caps (fun prev' s' caps' => rep n' prev' s' caps')
       end) n prev s caps
  | Grp i r1 =>
    rmatch r1 prev s caps
      (fun prev' s' caps' =>
         k prev' s' ((i, firstn (length s - length s') s) :: caps'))
  | WordB =>
    if xorb (is_word_before prev) (is_word_at s) then k prev s caps else None
  end.

(** A replacement template: literal text and group references. *)
Inductive tmpl_item :=
| TLit (t : text)
| TGroup (i : nat).

Fixpoint group (caps : captures) (i : nat) : text :=
  match caps with
  | [] => []
  | (j, t) :: caps' => if (i =? j)%nat then t else group caps' i
  end.

Fixpoint expand (tm : list tmpl_item) (caps : captures) : text :=
  match tm with
  | [] => []
  | TLit t :: tm' => t ++ expand tm' caps
  | TGroup i :: tm' => group caps i ++ expand tm' caps
  end.

(** The leftmost match at the head of [s], if any: the character before
    the rest, the rest, the groups. *)
Definition match_here (r : regex) (prev : option Z) (s : text)
  : option (option Z * text * captures) :=
  rmatch r prev s [] (fun prev' s' caps' => Some (prev', s', caps')).

(** [re.sub]: scan from the left; replace each match and resume after it;
    copy a character where nothing matches.  None of the patterns of the
    program matches the empty string; for such a match the model emits the
    replacement and copies one character. *)
Fixpoint sub_loop (fuel : nat) (r : regex) (tm : list tmpl_item)
    (prev : option Z) (s : text) : text :=
  match fuel with
  | O => s
  | S fuel' =>
    let copy :=
      match s with
      | [] => []
      | c :: s' => c :: sub_loop fuel' r tm (Some c) s'
      end in
    match match_here r prev s with
    | Some (prev', s', caps) =>
      if (length s' <? length s)%nat
      then expand tm caps ++ sub_loop fuel' r tm prev' s'
      else expand tm caps ++ copy
    | None => copy
    end
  end.

Definition re_sub (r : regex) (tm : list tmpl_item) (s : text) : text :=
  sub_loop (S (length s)) r tm None s.

End Regex.
End Re.
Export Re.

(** ** [server.py]: the lenient parser *)

Section Parser.
Context {rt : Runtime}.

(** The pattern of the first repair.  Group 1 is a colon followed by
    [\s*]; group 2 is [\d{4}\.\d{2}\.\d{2}], optionally (greedy [?] on a
    non-capturing group) followed by [\s+\d{2}:\d{2}:\d{2}]; a [\b]
    closes the pattern. *)
Definition datetime_re : regex :=
  Seq [Grp 1 (Seq [Chr (ch ":"); Star (Cls cat_space)]);
       Grp 2 (Seq [Rep 4 (Cls cat_digit); Chr (ch ".");
                   Rep 2 (Cls cat_digit); Chr (ch ".");
                   Rep 2 (Cls cat_digit);
                   Opt (Seq [Plus (Cls cat_space);
                             Rep 2 (Cls cat_digit); Chr (ch ":");
                             Rep 2 (Cls cat_digit); Chr (ch ":");
                             Rep 2 (Cls cat_digit)])]);
       WordB].

(** The replacement: group 1, a double quote, group 2, a double quote. *)
Definition datetime_repl : list tmpl_item :=
  [TGroup 1; TLit [dquote]; TGroup 2; TLit [dquote]].

(** The pattern of the second repair: a comma, [\s*], and as group 1 a
    closing brace or bracket.  Its replacement is group 1. *)
Definition trailing_comma_re : regex :=
  Seq [Chr (ch ","); Star (Cls cat_space);
       Grp 1 (Cls (fun c => (c =? ch "}") || (c =? ch "]")))].

(** The patterns [\bNaN\b], [\bInfinity\b] and [\b-Infinity\b]. *)
Definition nan_re : regex := Seq [WordB; Lit (lit "NaN"); WordB].
Definition infinity_re : regex := Seq [WordB; Lit (lit "Infinity"); WordB].
Definition neg_infinity_re : regex := Seq [WordB; Lit (lit "-Infinity"); WordB].

(** The three repairs, in the order of the source. *)
Definition repair (raw_text : text) : text :=
  let repaired := raw_text in
  let repaired := re_sub datetime_re datetime_repl repaired in
  let repaired := re_sub trailing_comma_re [TGroup 1] repaired in
  let repaired := re_sub nan_re [TLit (lit "null")] repaired in
  let repaired := re_sub infinity_re [TLit (lit "null")] repaired in
  let repaired := re_sub neg_infinity_re [TLit (lit "null")] repaired in
  repaired.

(** [str(e)] for a [JSONDecodeError]:
    ['%s: line %d column %d (char %d)'], with [lineno] one more than the
    number of line feeds before [pos] and [colno] the distance of [pos]
    from the last of them. *)
Definition lineno (doc : text) (pos : nat) : nat :=
  S (length (filter (fun c => c =? 10) (firstn pos doc))).

Fixpoint after_last_newline (t : text) (acc : nat) : nat :=
  match t with
  | [] => acc
  | c :: t' => after_last_newline t' (if c =? 10 then O else S acc)
  end.

Definition colno (doc : text) (pos : nat) : nat :=
  S (after_last_newline (firstn pos doc) O).

Definition nat_repr (n : nat) : text := PyInt.repr (Z.of_nat n).

Definition str_JSONDecodeError (e : JSONDecodeError) : text :=
  lit (err_msg e) ++ lit ": line " ++ nat_repr (lineno (err_doc e) (err_pos e))
  ++ lit " column " ++ nat_repr (colno (err_doc e) (err_pos e))
  ++ lit " (char " ++ nat_repr (err_pos e) ++ lit ")".

(** [_try_parse_mt5_json]: the tuple [(payload, repaired_text,
    error_message)]; a missing component is Python's [None], which for the
    payload is the value [PNone]. *)
Definition _try_parse_mt5_json (raw_text : text)
  : pyval * option text * option text :=
  match json_loads raw_text with
  | inl payload => (payload, None, None)
  | inr first_error =>
    let repaired := repair raw_text in
    match json_loads repaired with
    | inl payload => (payload, Some repaired, None)
    | inr second_error =>
      (PNone, Some repaired,
       Some (str_JSONDecodeError first_error ++ lit " | after_repair: "
             ++ str_JSONDecodeError second_error))
    end
  end.

End Parser.

(** ** [json.dumps(data, ensure_ascii=False, indent=2)] *)

Module JsonEncoder.
Section Encoder.
Context {rt : Runtime}.

Definition hex_digit (d : Z) : Z :=
  if d <? 10 then ch "0" + d else ch "a" + (d - 10).

(** [ESCAPE_DCT]: the quote, the backslash and the control characters;
    with [ensure_ascii=False] every other character is copied. *)
Definition escape_char (c : Z) : text :=
  if c =? dquote then [ch "\"; dquote]
  else if c =? ch "\" then [ch "\"; ch "\"]
  else if c =? 10 then [ch "\"; ch "n"]
  else if c =? 13 then [ch "\"; ch "r"]
  else if c =? 9 then [ch "\"; ch "t"]
  else if c =? 8 then [ch "\"; ch "b"]
  else if c =? 12 then [ch "\"; ch "f"]
  else if (0 <=? c) && (c <? 0x20)
  then [ch "\"; ch "u"; ch "0"; ch "0"; hex_digit (c / 16); hex_digit (c mod 16)]
  else [c].

(** [encode_basestring] *)
Definition encode_basestring (s : text) : text :=
  dquote :: flat_map escape_char s ++ [dquote].

(** [floatstr] with [allow_nan=True] *)
Definition floatstr (f : pyfloat) : text :=
  match float_classify f with
  | FNaN => lit "NaN"
  | FPosInf => lit "Infinity"
  | FNegInf => lit "-Infinity"
  | FFinite => float_repr f
  end.

(** ['\n' + ' ' * (2 * level)] *)
Definition newline_indent (level : nat) : text :=
  10 :: repeat 32 (2 * level).

(** [sep.join(chunks)] *)
Fixpoint join (sep : text) (chunks : list text) : text :=
  match chunks with
  | [] => []
  | [x] => x
  | x :: chunks' => x ++ sep ++ join sep chunks'
  end.

(** [_iterencode] at nesting depth [level], its chunks concatenated: the
    item separator is [','] followed by the new line and its
    indentation, the key separator is [': ']. *)
Fixpoint iterencode (level : nat) (o : pyval) {struct o} : text :=
  match o with
  | PNone => lit "null"
  | PBool true => lit "true"
  | PBool false => lit "false"
  | PInt n => PyInt.repr n
  | PFloat f => floatstr f
  | PStr s => encode_basestring s
  | PList [] => lit "[]"
  | PList lst =>
    let sep := newline_indent (S level) in
    lit "[" ++ sep
    ++ join (ch "," :: sep) (map (iterencode (S level)) lst)
    ++ newline_indent level ++ lit "]"
  | PDict [] => lit "{}"
  | PDict dct =>
    let sep := newline_indent (S level) in
    lit "{" ++ sep
    ++ join (ch "," :: sep)
         (map (fun kv : text * pyval => let (key, value) := kv in
                         encode_basestring key ++ lit ": "
                         ++ iterencode (S level) value) dct)
    ++ newline_indent level ++ lit "}"
  end.

Definition json_dumps (data : pyval) : text := iterencode 0 data.

(** A float that is [nan] or an infinity, anywhere in the value. *)
Fixpoint has_nonfinite (o : pyval) : bool :=
  match o with
  | PFloat f =>
    match float_classify f with FFinite => false | _ => true end
  | PList lst => existsb has_nonfinite lst
  | PDict dct => existsb (fun kv : text * pyval => has_nonfinite (snd kv)) dct
  | _ => false
  end.

(** The encoder without indentation, with the separators [","] and
    [":"]. *)
Fixpoint iterencode_compact (o : pyval) {struct o} : text :=
  match o with
  | PNone => lit "null"
  | PBool true => lit "true"
  | PBool false => lit "false"
  | PInt n => PyInt.repr n
  | PFloat f => floatstr f
  | PStr s => encode_basestring s
  | PList lst =>
    lit "[" ++ join (lit ",") (map iterencode_compact lst) ++ lit "]"
  | PDict dct =>
    lit "{"
    ++ join (lit ",")
         (map (fun kv : text * pyval => let (key, value) := kv in
                         encode_basestring key ++ lit ":"
                         ++ iterencode_compact value) dct)
    ++ lit "}"
  end.

(** The message of the [ValueError] of [floatstr] with
    [allow_nan=False]. *)
Definition out_of_range_msg : text :=
  lit "Out of range float values are not JSON compliant".

(** [json.dumps(content, ensure_ascii=False, allow_nan=False, indent=None,
    separators=(",", ":"))]: the text, or the message of the [ValueError]
    raised for a float that is not finite. *)
Definition json_dumps_compact (content : pyval) : text + text :=
  if has_nonfinite content then inr out_of_range_msg
  else inl (iterencode_compact content).

End Encoder.
End JsonEncoder.
Export JsonEncoder.

(** ** [pathlib.Path] *)

Record Path := { parent : string; name : string }.

#[global] Instance Path_eq_dec : EqDecision Path.
Proof. solve_decision. Defined.

#[global] Instance Path_countable : Countable Path :=
  inj_countable' (fun p => (parent p, name p))
                 (fun q => {| parent := fst q; name := snd q |})
                 (fun p => match p with Build_Path _ _ => eq_refl end).

Module Pathlib.

(** [name.rfind('.')] *)
Fixpoint rfind_dot (s : string) : option nat :=
  match s with
  | EmptyString => None
  | String c r =>
    match rfind_dot r with
    | Some i => Some (S i)
    | None => if Ascii.eqb c "." then Some O else None
    end
  end.

(** [PurePath.suffix]: the last dot and what follows it, unless the dot
    is the first or the last character of the name. *)
Definition suffix (p : Path) : string :=
  let n := name p in
  match rfind_dot n with
  | Some i =>
    if ((0 <? i) && (i <? String.length n - 1))%nat
    then substring i (String.length n - i) n
    else EmptyString
  | None => EmptyString
  end.

(** [PurePath.with_name] *)
Definition with_name (p : Path) (n : string) : Path :=
  {| parent := parent p; name := n |}.

(** [PurePath.with_suffix], for a valid suffix and a non-empty name. *)
Definition with_suffix (p : Path) (sfx : string) : Path :=
  let old := suffix p in
  let n := name p in
  {| parent := parent p;
     name := (substring 0 (String.length n - String.length old) n ++ sfx)%string |}.

End Pathlib.

(** ** The world: a file system, its faults, the order of its calls *)

Inductive exn :=
| ExJSONDecodeError (e : JSONDecodeError)
| ExUnicodeError (msg : text)
| ExOSError (msg : text)
| ExValueError (msg : text).

(** What the environment does to the next file operation.  A failed write
    may leave the file as it was ([None]) or with some other content. *)
Inductive io_fault :=
| IoOk
| IoError (msg : text) (residue : option bytes).

Inductive fs_call :=
| CallWriteText (p : Path) (data : text)
| CallReplace (src dst : Path)
| CallReadText (p : Path).

Record World := {
  module_file : Path;                (* [__file__] *)
  files : gmap Path bytes;           (* the regular files and their content *)
  faults : list io_fault;            (* the faults to come, one per call *)
  calls : list fs_call               (* the calls made so far, last first *)
}.

Inductive outcome (A : Type) :=
| Return (a : A)
| Raise (e : exn).
Arguments Return {A} a.
Arguments Raise {A} e.

Definition M (A : Type) : Type := World -> outcome A * World.

Definition ret {A} (a : A) : M A := fun w => (Return a, w).

Definition raise {A} (e : exn) : M A := fun w => (Raise e, w).

Definition bind {A B} (m : M A) (k : A -> M B) : M B :=
  fun w =>
    match m w with
    | (Return a, w') => k a w'
    | (Raise e, w') => (Raise e, w')
    end.

(** [try: x = m  except Exception as exc: ...] *)
Definition try_ {A} (m : M A) : M (A + exn) :=
  fun w =>
    match m w with
    | (Return a, w') => (Return (inl a), w')
    | (Raise e, w') => (Return (inr e), w')
    end.

Notation "'let*' x ':=' m 'in' k" := (bind m (fun x => k))
  (at level 10, x name, m at level 200, k at level 200).
Notation "m '>>' k" := (bind m (fun _ => k))
  (at level 90, right associativity).

Module Fs.
Section Fs.
Context {rt : Runtime}.

Definition set_files (w : World) (fs : gmap Path bytes) : World :=
  {| module_file := module_file w; files := fs;
     faults := faults w; calls := calls w |}.

(** Record the call and take the next fault of the environment. *)
Definition enter (c : fs_call) : M io_fault :=
  fun w =>
    let entered rest :=
      {| module_file := module_file w; files := files w;
         faults := rest; calls := c :: calls w |} in
    match faults w with
    | [] => (Return IoOk, entered [])
    | f :: rest => (Return f, entered rest)
    end.

Definition get_module_file : M Path := fun w => (Return (module_file w), w).

(** [Path.exists()] *)
Definition path_exists (p : Path) : M bool :=
  fun w => (Return (bool_decide (is_Some (files w !! p))), w).

(** Universal newlines of text-mode reading: [\r\n] and [\r] become
    [\n]. *)
Fixpoint universal_newlines (t : text) : text :=
  match t with
  | [] => []
  | c :: r =>
    if c =? 13 then
      match r with
      | d :: r' => if d =? 10 then 10 :: universal_newlines r'
                   else 10 :: universal_newlines r
      | [] => [10]
      end
    else c :: universal_newlines r
  end.

(** [Path.write_text(data, encoding="utf-8")] on a POSIX system: the
    file is opened for writing, which empties it, and receives the
    encoded text; a string that UTF-8 cannot encode raises after the
    file was emptied. *)
Definition write_text (p : Path) (data : text) : M unit :=
  let* f := enter (CallWriteText p data) in
  match f with
  | IoError msg residue =>
    fun w =>
      (Raise (ExOSError msg),
       match residue with
       | Some b => set_files w (<[p := b]> (files w))
       | None => w
       end)
  | IoOk =>
    match Utf8.encode data with
    | Some b => fun w => (Return tt, set_files w (<[p := b]> (files w)))
    | None =>
      fun w => (Raise (ExUnicodeError (unicode_encode_error_str data)),
                set_files w (<[p := []]> (files w)))
    end
  end.

(** [Path.replace(target)]: [os.replace], atomic; the source must
    exist. *)
Definition replace (src dst : Path) : M unit :=
  let* f := enter (CallReplace src dst) in
  match f with
  | IoError msg _ => raise (ExOSError msg)
  | IoOk =>
    fun w =>
      match files w !! src with
      | Some b => (Return tt, set_files w (<[dst := b]> (delete src (files w))))
      | None => (Raise (ExOSError (lit "No such file or directory")), w)
      end
  end.

(** [Path.read_text(encoding="utf-8")] *)
Definition read_text (p : Path) : M text :=
  let* f := enter (CallReadText p) in
  match f with
  | IoError msg _ => raise (ExOSError msg)
  | IoOk =>
    fun w =>
      match files w !! p with
      | Some b =>
        match Utf8.decode_strict b with
        | Some t => (Return (universal_newlines t), w)
        | None => (Raise (ExUnicodeError (unicode_decode_error_str b)), w)
        end
      | None => (Raise (ExOSError (lit "No such file or directory")), w)
      end
  end.

End Fs.
End Fs.

(** ** [server.py]: the snapshot store and the request handlers

    [anyio.to_thread] runs [_write_sync] to its end before
    [_write_result_file] returns; the model runs it in place.

    [sys.stdout] is a UTF-8 text stream with the strict error handler, as
    it is where the locale is UTF-8: [print] of a [str] raises
    [UnicodeEncodeError] when the string holds a lone surrogate.  The model
    keeps the [print] calls that are given a [str] or the payload.  The
    others write literal ASCII text, the ISO time, and the [repr] of the
    headers and of the bytes of the body; a [repr] holds printable
    characters and ASCII escapes only, so these calls cannot fail and are
    left out, with the headers.  What is written to the console is not part
    of the state. *)

Section Server.
Context {rt : Runtime}.

(** A [JSONResponse] that was built. *)
Record Response := JSONResponse { status_code : Z; content : pyval }.

(** [JSONResponse(status_code=..., content=...)]: the constructor renders
    the body at once, as
    [json.dumps(content, ensure_ascii=False, allow_nan=False, indent=None,
    separators=(",", ":")).encode("utf-8")].  [json.dumps] raises
    [ValueError] for a float that is not finite, and [str.encode] raises
    [UnicodeEncodeError] for a lone surrogate. *)
Definition JSONResponse_outcome (status_code : Z) (content : pyval)
  : outcome Response :=
  match json_dumps_compact content with
  | inr msg => Raise (ExValueError msg)
  | inl body =>
    match Utf8.encode body with
    | Some _ => Return (JSONResponse status_code content)
    | None => Raise (ExUnicodeError (unicode_encode_error_str body))
    end
  end.

Definition JSONResponse_init (status_code : Z) (content : pyval) : M Response :=
  fun w => (JSONResponse_outcome status_code content, w).

(** [print(label, t)] for a [str] [t]: the label is ASCII, the string is
    encoded as it is written. *)
Definition print_str (t : text) : M unit :=
  fun w =>
    match Utf8.encode t with
    | Some _ => (Return tt, w)
    | None => (Raise (ExUnicodeError (unicode_encode_error_str t)), w)
    end.

(** [print("Body:   ", payload)]: a [str] is written as it is; any other
    value is written as its [repr], which cannot fail. *)
Definition print_payload (payload : pyval) : M unit :=
  match payload with
  | PStr s => print_str s
  | _ => ret tt
  end.

(** [str(exc)] *)
Definition str_exn (e : exn) : text :=
  match e with
  | ExJSONDecodeError e => str_JSONDecodeError e
  | ExUnicodeError msg => msg
  | ExOSError msg => msg
  | ExValueError msg => msg
  end.

(** [Path(__file__).with_name("result.json")] *)
Definition result_path_of (file : Path) : Path :=
  Pathlib.with_name file "result.json".

(** [result_path.with_suffix(".json.tmp")] *)
Definition tmp_path_of (file : Path) : Path :=
  Pathlib.with_suffix (result_path_of file) ".json.tmp".

Definition _write_sync (tmp_path result_path : Path) (payload : text) : M unit :=
  Fs.write_text tmp_path payload >>
  Fs.replace tmp_path result_path.

Definition _write_result_file (data : pyval) : M unit :=
  let* file := Fs.get_module_file in
  let result_path := result_path_of file in
  let tmp_path := tmp_path_of file in
  let payload := json_dumps data in
  _write_sync tmp_path result_path payload.

(** [str(parse_error)] for a [str | None] *)
Definition str_optional (o : option text) : text :=
  match o with
  | Some t => t
  | None => lit "None"
  end.

(** [repaired_text if repaired_text != raw_text else None] *)
Definition repaired_field (repaired_text : option text) (raw_text : text) : pyval :=
  match repaired_text with
  | None => PNone
  | Some r => if text_eqb r raw_text then PNone else PStr r
  end.

Definition webhook_from_mt5 (raw_body : bytes) : M Response :=
  let raw_text := Utf8.decode_ignore raw_body in
  let '(payload, repaired_text, parse_error) := _try_parse_mt5_json raw_text in
  if is_None payload then
    print_str (str_optional parse_error) >>
    match repaired_text with
    | Some r => if text_eqb r raw_text then ret tt else print_str r
    | None => ret tt
    end >>
    _write_result_file (PDict []) >>
    JSONResponse_init 400
      (PDict [(lit "status", PStr (lit "invalid_json"));
              (lit "error", PStr (str_optional parse_error));
              (lit "raw", PStr raw_text);
              (lit "repaired", repaired_field repaired_text raw_text)])
  else
    print_payload payload >>
    (let response_content :=
       PDict [(lit "status", PStr (lit "ok")); (lit "received", payload)] in
     _write_result_file payload >>
     JSONResponse_init 200 response_content).

Definition get_last_result : M Response :=
  let* file := Fs.get_module_file in
  let result_path := result_path_of file in
  let* found := Fs.path_exists result_path in
  if negb found then
    JSONResponse_init 404
      (PDict [(lit "status", PStr (lit "not_found"));
              (lit "detail", PStr (lit "result.json does not exist yet"))])
  else
    let* r := try_ (let* raw := Fs.read_text result_path in
                    match json_loads raw with
                    | inl data => ret data
                    | inr e => raise (ExJSONDecodeError e)
                    end) in
    match r with
    | inr exc =>
      JSONResponse_init 500
        (PDict [(lit "status", PStr (lit "invalid_result_json"));
                (lit "detail", PStr (str_exn exc))])
    | inl data => JSONResponse_init 200 data
    end.

End Server.

(** ** The store's read contract, in the words of the specification

    [read() -> StructuredValue | NotFoundFailure | CorruptFailure]: no
    snapshot file, [NotFoundFailure]; a file whose content cannot be read
    as JSON, [CorruptFailure] with the underlying error; otherwise the
    parsed value.  [GET /result] answers 404, 500 and 200 for the three. *)

Section ReadContract.
Context {rt : Runtime}.

Inductive read_outcome :=
| NotFoundFailure
| CorruptFailure (e : exn)
| Snapshot (v : pyval).

(** The text of a file that holds well-formed UTF-8. *)
Definition file_text (b : bytes) : text + exn :=
  match Utf8.decode_strict b with
  | Some t => inl (Fs.universal_newlines t)
  | None => inr (ExUnicodeError (unicode_decode_error_str b))
  end.

Definition store_read (w : World) : read_outcome :=
  match files w !! result_path_of (module_file w) with
  | None => NotFoundFailure
  | Some b =>
    match faults w with
    | IoError msg _ :: _ => CorruptFailure (ExOSError msg)
    | _ =>
      match file_text b with
      | inr e => CorruptFailure e
      | inl t =>
        match json_loads t with
        | inr e => CorruptFailure (ExJSONDecodeError e)
        | inl v => Snapshot v
        end
      end
    end
  end.

Definition response_of_read (o : read_outcome) : Response :=
  match o with
  | NotFoundFailure =>
    JSONResponse 404
      (PDict [(lit "status", PStr (lit "not_found"));
              (lit "detail", PStr (lit "result.json does not exist yet"))])
  | CorruptFailure e =>
    JSONResponse 500
      (PDict [(lit "status", PStr (lit "invalid_result_json"));
              (lit "detail", PStr (str_exn e))])
  | Snapshot v => JSONResponse 200 v
  end.

(** What the webhook hands to the store: the payload, or the empty
    mapping when there is none. *)
Definition stored_value (raw_body : bytes) : pyval :=
  let payload := fst (fst (_try_parse_mt5_json (Utf8.decode_ignore raw_body))) in
  if is_None payload then PDict [] else payload.

End ReadContract.

(** ** Values that are valid JSON, and what is assumed of the floats *)

Section Validity.
Context {rt : Runtime}.

Fixpoint keys_distinct (ks : list text) : bool :=
  match ks with
  | [] => true
  | k :: ks' => negb (existsb (text_eqb k) ks') && keys_distinct ks'
  end.

(** A value is valid JSON when its floats are finite and its strings
    are Unicode text (no lone surrogate); the keys of a [dict] are
    distinct, as they are in every Python [dict]. *)
Fixpoint valid_json (v : pyval) : bool :=
  match v with
  | PNone | PBool _ | PInt _ => true
  | PFloat f =>
    match float_classify f with FFinite => true | _ => false end
  | PStr s => forallb is_scalar s
  | PList l => forallb valid_json l
  | PDict d =>
    keys_distinct (map fst d)
    && forallb (fun kv : text * pyval =>
                  let (key, value) := kv in
                  forallb is_scalar key && valid_json value) d
  end.

(** The grammar of a JSON number that is not an integer: an optional
    minus sign; a zero, or a non-zero digit followed by digits; optionally
    a dot and digits; optionally [e] or [E], an optional sign and digits;
    a fraction or an exponent is present. *)
Definition digits (ds : text) : Prop :=
  Forall (fun c => JsonDecoder.is_digit c = true) ds.

Definition int_part (ip : text) : Prop :=
  ip = [ch "0"]
  \/ exists d ds, ip = d :: ds /\ ch "1" <= d <= ch "9" /\ digits ds.

Definition frac_part (fp : text) : Prop :=
  fp = [] \/ exists ds, fp = ch "." :: ds /\ ds <> [] /\ digits ds.

Definition exp_part (ep : text) : Prop :=
  ep = []
  \/ exists e sg ds,
       ep = e :: sg ++ ds
       /\ (e = ch "e" \/ e = ch "E")
       /\ (sg = [] \/ sg = [ch "+"] \/ sg = [ch "-"])
       /\ ds <> [] /\ digits ds.

Definition float_literal (t : text) : Prop :=
  exists sg ip fp ep,
    t = sg ++ ip ++ fp ++ ep
    /\ (sg = [] \/ sg = [ch "-"])
    /\ int_part ip /\ frac_part fp /\ exp_part ep
    /\ (fp <> [] \/ ep <> []).

(** What the round trip needs of [float.__repr__] and [float()]: the
    [repr] of a finite float is such a literal, and reading it back gives
    the same float. *)
Class FloatLaws : Prop := {
  float_repr_literal :
    forall f, float_classify f = FFinite -> float_literal (float_repr f);
  float_repr_round_trip :
    forall f, float_classify f = FFinite -> float_of_lit (float_repr f) = f
}.

End Validity.
Arguments FloatLaws rt : clear implicits.

(** ** A small runtime to run the definitions on

    Floats are the integral ones, written with one fractional digit; the
    Unicode tables are empty above the ASCII range. *)

Definition integral_part (t : text) : text :=
  (fix go (t : text) : text :=
     match t with
     | [] => []
     | c :: t' => if c =? ch "." then [] else c :: go t'
     end) t.

Definition integral_runtime : Runtime := {|
  pyfloat := Z;
  float_of_lit := fun t => PyInt.of_lit (integral_part t);
  float_repr := fun z => PyInt.repr z ++ lit ".0";
  float_classify := fun _ => FFinite;
  unicode_isdecimal := fun _ => false;
  unicode_isspace := fun _ => false;
  unicode_isalnum := fun _ => false;
  unicode_decode_error_str := fun _ => lit "invalid utf-8";
  unicode_encode_error_str := fun _ => lit "surrogates not allowed"
|}.

(** A world with the module installed and no file written yet. *)
Definition fresh_world : World := {|
  module_file := {| parent := "/srv/app"; name := "server.py" |};
  files := ∅;
  faults := [];
  calls := []
|}.

(** ** Vocabulary of the proofs *)

Section Vocabulary.
Context {rt : Runtime}.

(** The text does not go on with a digit. *)
Definition head_not_digit (r : text) : Prop :=
  match r with [] => True | c :: _ => JsonDecoder.is_digit c = false end.

(** What follows a value in the encoder's output: the end of the text, a
    comma or a new line. *)
Definition ends_value (r : text) : bool :=
  match r with
  | [] => true
  | c :: _ => (c =? ch ",") || (c =? 10)
  end.

(** The first character of an encoded value: no white space, no
    closing bracket or brace, no byte-order mark. *)
Definition value_head (t : text) : Prop :=
  match t with
  | c :: _ => is_ws c = false /\ c <> ch "]" /\ c <> ch "}" /\ c <> 0xFEFF
  | [] => False
  end.

(** [scan_once] reads the value back from its encoding at any depth,
    followed by any text that ends a value, with fuel for the length of
    the encoding. *)
Definition reads_back (v : pyval) : Prop :=
  forall lvl fuel rest,
    valid_json v = true -> ends_value rest = true ->
    (length (iterencode lvl v) <= fuel)%nat ->
    scan_once fuel (iterencode lvl v ++ rest) = Ok (v, rest).

(** An item of a dictionary as [_iterencode_dict] writes it. *)
Definition encode_item (lvl : nat) (kv : text * pyval) : text :=
  let (key, value) := kv in
  encode_basestring key ++ lit ": " ++ iterencode lvl value.

(** An item of a valid dictionary. *)
Definition valid_item (kv : text * pyval) : bool :=
  let (key, value) := kv in forallb is_scalar key && valid_json value.

(** A Unicode scalar value other than the carriage return. *)
Definition plain (c : Z) : bool := is_scalar c && negb (c =? 13).

(** The message of the error that stands for the end of the fuel. *)
Definition fuel_msg : string := "maximum recursion depth exceeded".

(** A result consumed input; an error is not the end of the fuel. *)
Definition consumes {A : Type} (r : res (A * list Z)) (n : nat) : Prop :=
  match r with
  | Ok (_, rest) => (length rest < n)%nat
  | Err m _ => m <> fuel_msg
  end.

(** Every string of the value, keys included, is Unicode text: no lone
    surrogate (and no code point out of range). *)
Fixpoint strings_scalar (v : pyval) : bool :=
  match v with
  | PStr s => forallb is_scalar s
  | PList l => forallb strings_scalar l
  | PDict d =>
    forallb (fun kv : text * pyval =>
               forallb is_scalar (fst kv) && strings_scalar (snd kv)) d
  | _ => true
  end.

(** The text the encoder gives for every float of the value is
    Unicode text. *)
Fixpoint floats_scalar (v : pyval) : bool :=
  match v with
  | PFloat f => forallb is_scalar (floatstr f)
  | PList l => forallb floats_scalar l
  | PDict d => forallb (fun kv : text * pyval => floats_scalar (snd kv)) d
  | _ => true
  end.

End Vocabulary.

(** A world whose next file operation fails. *)
Definition full_disk_world : World := {|
  module_file := module_file fresh_world;
  files := ∅;
  faults := [IoError (lit "No space left on device") None];
  calls := []
|}.

(** A nested value with a float, escapes and characters outside ASCII. *)
Definition sample_value : @pyval integral_runtime :=
  PDict [(lit "symbol", PStr (lit "EURUSD"));
         (lit "bars", PList [PInt 1; PFloat (rt := integral_runtime) (-2);
                             PNone; PBool true; PList []; PDict []]);
         (lit "note", PStr [34; 92; 10; 13; 1; 0xE9; 0x1F600])].

(** ** A runtime with floats that are not finite

    The integral floats, [nan] and the two infinities; [float(s)] reads
    ["nan"], ["inf"] and ["-inf"], as the decoder asks for them. *)

Inductive xfloat := XFinite (z : Z) | XNaN | XPosInf | XNegInf.

Definition extended_runtime : Runtime := {|
  pyfloat := xfloat;
  float_of_lit := fun t =>
    if text_eqb t (lit "nan") then XNaN
    else if text_eqb t (lit "inf") then XPosInf
    else if text_eqb t (lit "-inf") then XNegInf
    else XFinite (PyInt.of_lit (integral_part t));
  float_repr := fun x =>
    match x with
    | XFinite z => PyInt.repr z ++ lit ".0"
    | XNaN => lit "nan"
    | XPosInf => lit "inf"
    | XNegInf => lit "-inf"
    end;
  float_classify := fun x =>
    match x with
    | XFinite _ => FFinite
    | XNaN => FNaN
    | XPosInf => FPosInf
    | XNegInf => FNegInf
    end;
  unicode_isdecimal := fun _ => false;
  unicode_isspace := fun _ => false;
  unicode_isalnum := fun _ => false;
  unicode_decode_error_str := fun _ => lit "invalid utf-8";
  unicode_encode_error_str := fun _ => lit "surrogates not allowed"
|}.

(** ** Vocabulary of the further properties *)

(** The characters one of which every repair pattern needs to match: the
    colon of the datetime rule, the comma of the trailing-comma rule, the
    first letters of [NaN] and [Infinity], the minus sign of [-Infinity]. *)
Definition trigger (c : Z) : bool :=
  (c =? ch ":") || (c =? ch ",") || (c =? ch "N") || (c =? ch "I")
  || (c =? ch "-").

Definition no_trigger (s : text) : bool :=
  forallb (fun c => negb (trigger c)) s.

(** A body without the byte of the backslash. *)
Definition no_backslash (bs : bytes) : bool :=
  forallb (fun b => negb (b =? ch "\")) bs.

(** Unicode text without a backslash. *)
Definition tame (c : Z) : bool := is_scalar c && negb (c =? ch "\").

(** Every captured group satisfies [P]. *)
Definition caps_ok (P : Z -> bool) (caps : captures) : bool :=
  forallb (fun it : nat * text => forallb P (snd it)) caps.

(** Every literal of the template satisfies [P]. *)
Definition tmpl_ok (P : Z -> bool) (tm : list tmpl_item) : bool :=
  forallb (fun it => match it with
                     | TLit t => forallb P t
                     | TGroup _ => true
                     end) tm.

(** A character of a plain key: not a control character, not the quote,
    not the backslash, and none of the characters a repair starts at. *)
Definition key_char (c : Z) : bool :=
  (0x20 <=? c) && negb (c =? dquote) && negb (c =? ch "\")
  && negb (trigger c).

(** [n] ASCII digits. *)
Definition is_digits (n : nat) (t : text) : bool :=
  (length t =? n)%nat && forallb JsonDecoder.is_digit t.

(** The date and time as MT5 writes them: [YYYY.MM.DD hh:mm:ss]. *)
Definition mt5_datetime (Y M D h m s : text) : text :=
  Y ++ lit "." ++ M ++ lit "." ++ D ++ lit " "
  ++ h ++ lit ":" ++ m ++ lit ":" ++ s.

Section ExtraVocabulary.
Context {rt : Runtime}.

(** The keys of every dictionary inside the value are pairwise
    distinct. *)
Fixpoint keys_unique (v : pyval) : bool :=
  match v with
  | PList l => forallb keys_unique l
  | PDict d =>
    keys_distinct (map fst d)
    && forallb (fun kv : text * pyval => keys_unique (snd kv)) d
  | _ => true
  end.

End ExtraVocabulary.
(** * Properties *)

(** Replace every character constant by its code point. *)
Ltac chars :=
  repeat match goal with
  | |- context [ch ?a] =>
    let v := eval vm_compute in (ch a) in change (ch a) with v
  | H : context [ch ?a] |- _ =>
    let v := eval vm_compute in (ch a) in change (ch a) with v in H
  end.

(** ** Text equality *)

Lemma text_eqb_spec a b : text_eqb a b = true <-> a = b.
Proof.
  revert b; induction a as [|x a IH]; intros [|y b]; simpl; try easy.
  rewrite andb_true_iff, Z.eqb_eq, IH. split.
  - intros [-> ->]; reflexivity.
  - intros [= -> ->]; auto.
Qed.

Lemma text_eqb_refl a : text_eqb a a = true.
Proof. apply text_eqb_spec; reflexivity. Qed.

(** ** UTF-8: decoding what was encoded *)

Section Utf8Facts.
Import Utf8.

Local Ltac bool_cases :=
  repeat match goal with
  | |- context [?a <=? ?b] => destruct (Z.leb_spec a b)
  | |- context [?a <? ?b] => destruct (Z.ltb_spec a b)
  | |- context [?a =? ?b] => destruct (Z.eqb_spec a b)
  end.

Local Ltac arith := Z.div_mod_to_equations; lia.

Lemma decode_one_shorter bs c rest :
  decode_one bs = Some (c, rest) -> (length rest < length bs)%nat.
Proof.
  unfold decode_one.
  destruct bs as [|b0 [|b1 [|b2 [|b3 r]]]]; simpl;
    repeat match goal with
    | |- context [if ?b then _ else _] => destruct b
    end; intros [= <- <-]; simpl; lia.
Qed.

Lemma is_cont_low6 x : is_cont (0x80 + x mod 64) = true.
Proof.
  unfold is_cont. apply andb_true_iff; split; apply Z.leb_le; arith.
Qed.

Lemma second3_encoded c :
  0x800 <= c < 0x10000 -> is_surrogate c = false ->
  second3 (0xE0 + c / 4096) (0x80 + (c / 64) mod 64) = true.
Proof.
  unfold second3, is_surrogate, is_cont. intros Hc Hs.
  apply andb_false_iff in Hs. rewrite !Z.leb_gt in Hs.
  destruct (Z.eqb_spec (224 + c / 4096) 224);
    [|destruct (Z.eqb_spec (224 + c / 4096) 237)];
    apply andb_true_iff; split; apply Z.leb_le; arith.
Qed.

Lemma second4_encoded c :
  0x10000 <= c <= 0x10FFFF ->
  second4 (0xF0 + c / 262144) (0x80 + (c / 4096) mod 64) = true.
Proof.
  unfold second4, is_cont. intros Hc.
  destruct (Z.eqb_spec (240 + c / 262144) 240);
    [|destruct (Z.eqb_spec (240 + c / 262144) 244)];
    apply andb_true_iff; split; apply Z.leb_le; arith.
Qed.

Local Ltac decide_range v :=
  symmetry;
  match v with
  | true => apply andb_true_iff; split; [apply Z.leb_le|apply Z.ltb_lt]; arith
  | false => apply andb_false_iff; right; apply Z.ltb_ge; arith
  end.

Lemma decode_one_encode_cp c bs rest :
  encode_cp c = Some bs -> decode_one (bs ++ rest) = Some (c, rest).
Proof.
  unfold encode_cp.
  destruct (negb (is_scalar c)) eqn:Hs; [discriminate|].
  apply negb_false_iff in Hs. unfold is_scalar in Hs.
  rewrite !andb_true_iff, negb_true_iff, !Z.leb_le in Hs.
  destruct Hs as [[H0 Hmax] Hsur].
  destruct (Z.ltb_spec c 0x80); [|destruct (Z.ltb_spec c 0x800);
    [|destruct (Z.ltb_spec c 0x10000)]]; intros [= <-]; simpl app;
    unfold decode_one.
  - replace ((0 <=? c) && (c <? 128)) with true by decide_range true.
    reflexivity.
  - replace ((0 <=? 192 + c / 64) && (192 + c / 64 <? 128)) with false
      by decide_range false.
    replace ((194 <=? 192 + c / 64) && (192 + c / 64 <? 224)) with true
      by decide_range true.
    rewrite is_cont_low6. do 2 f_equal. arith.
  - replace ((0 <=? 224 + c / 4096) && (224 + c / 4096 <? 128)) with false
      by decide_range false.
    replace ((194 <=? 224 + c / 4096) && (224 + c / 4096 <? 224)) with false
      by decide_range false.
    replace ((224 <=? 224 + c / 4096) && (224 + c / 4096 <? 240)) with true
      by decide_range true.
    rewrite second3_encoded, is_cont_low6 by (auto; lia).
    simpl. do 2 f_equal. arith.
  - replace ((0 <=? 240 + c / 262144) && (240 + c / 262144 <? 128)) with false
      by decide_range false.
    replace ((194 <=? 240 + c / 262144) && (240 + c / 262144 <? 224)) with false
      by decide_range false.
    replace ((224 <=? 240 + c / 262144) && (240 + c / 262144 <? 240)) with false
      by decide_range false.
    replace ((240 <=? 240 + c / 262144) && (240 + c / 262144 <? 245)) with true
      by decide_range true.
    rewrite second4_encoded, !is_cont_low6 by lia.
    simpl. do 2 f_equal. arith.
Qed.

(** Enough fuel is as good as more. *)
Lemma decode_ignore_loop_fuel fuel bs :
  (length bs <= fuel)%nat ->
  decode_ignore_loop fuel bs = decode_ignore bs.
Proof.
  unfold decode_ignore.
  remember (length bs) as n eqn:Hn.
  assert (Hle : (length bs <= n)%nat) by lia. clear Hn.
  revert bs fuel Hle.
  induction n as [|n IH]; intros bs fuel Hle Hfuel.
  - destruct bs; [|simpl in Hle; lia]. destruct fuel; reflexivity.
  - destruct fuel as [|fuel]; [destruct bs; [reflexivity|simpl in Hfuel; lia]|].
    destruct bs as [|b r]; [reflexivity|].
    cbn [decode_ignore_loop].
    destruct (decode_one (b :: r)) as [[c rest]|] eqn:Hd.
    + apply decode_one_shorter in Hd. simpl in Hd, Hle, Hfuel.
      f_equal. rewrite !IH by lia. reflexivity.
    + simpl in Hle, Hfuel. rewrite !IH by lia. reflexivity.
Qed.

Lemma decode_ignore_cons b r :
  decode_ignore (b :: r) =
  match decode_one (b :: r) with
  | Some (c, rest) => c :: decode_ignore rest
  | None => decode_ignore r
  end.
Proof.
  unfold decode_ignore at 1. cbn [length decode_ignore_loop].
  destruct (decode_one (b :: r)) as [[c rest]|] eqn:Hd.
  - apply decode_one_shorter in Hd. simpl in Hd.
    rewrite decode_ignore_loop_fuel by lia. reflexivity.
  - apply decode_ignore_loop_fuel. lia.
Qed.

Lemma decode_strict_loop_fuel fuel bs :
  (length bs <= fuel)%nat ->
  decode_strict_loop fuel bs = decode_strict bs.
Proof.
  unfold decode_strict.
  remember (length bs) as n eqn:Hn.
  assert (Hle : (length bs <= n)%nat) by lia. clear Hn.
  revert bs fuel Hle.
  induction n as [|n IH]; intros bs fuel Hle Hfuel.
  - destruct bs; [|simpl in Hle; lia]. destruct fuel; reflexivity.
  - destruct fuel as [|fuel]; [destruct bs; [reflexivity|simpl in Hfuel; lia]|].
    destruct bs as [|b r]; [reflexivity|].
    cbn [decode_strict_loop].
    destruct (decode_one (b :: r)) as [[c rest]|] eqn:Hd; [|reflexivity].
    apply decode_one_shorter in Hd. simpl in Hd, Hle, Hfuel.
    rewrite !IH by lia. reflexivity.
Qed.

Lemma decode_strict_cons b r :
  decode_strict (b :: r) =
  match decode_one (b :: r) with
  | Some (c, rest) =>
    match decode_strict rest with Some t => Some (c :: t) | None => None end
  | None => None
  end.
Proof.
  unfold decode_strict at 1. cbn [length decode_strict_loop].
  destruct (decode_one (b :: r)) as [[c rest]|] eqn:Hd; [|reflexivity].
  apply decode_one_shorter in Hd. simpl in Hd.
  rewrite decode_strict_loop_fuel by lia. reflexivity.
Qed.

Lemma encode_cp_nonempty c bs : encode_cp c = Some bs -> bs <> [].
Proof.
  unfold encode_cp.
  repeat match goal with
  | |- context [if ?b then _ else _] => destruct b
  end; intros [= <-]; discriminate.
Qed.

(** The ignoring decoder reads an encoded text back and goes on. *)
Lemma decode_ignore_encode_app t enc rest :
  encode t = Some enc ->
  decode_ignore (enc ++ rest) = t ++ decode_ignore rest.
Proof.
  revert enc; induction t as [|c t IH]; intros enc; simpl.
  - intros [= <-]. reflexivity.
  - destruct (encode_cp c) as [b|] eqn:Hc; [|discriminate].
    destruct (encode t) as [bs|]; [|discriminate].
    intros [= <-]. rewrite <- app_assoc.
    pose proof (decode_one_encode_cp c b (bs ++ rest) Hc) as Hd.
    destruct (b ++ bs ++ rest) as [|x r] eqn:Hb.
    + apply encode_cp_nonempty in Hc. destruct b; [congruence|discriminate].
    + rewrite decode_ignore_cons, Hd. f_equal. apply IH. reflexivity.
Qed.

(** The strict decoder reads an encoded text back. *)
Lemma decode_strict_encode t enc :
  encode t = Some enc -> decode_strict enc = Some t.
Proof.
  revert enc; induction t as [|c t IH]; intros enc; simpl.
  - intros [= <-]. reflexivity.
  - destruct (encode_cp c) as [b|] eqn:Hc; [|discriminate].
    destruct (encode t) as [bs|]; [|discriminate].
    intros [= <-].
    pose proof (decode_one_encode_cp c b bs Hc) as Hd.
    destruct (b ++ bs) as [|x r] eqn:Hb.
    + apply encode_cp_nonempty in Hc. destruct b; [congruence|discriminate].
    + rewrite decode_strict_cons, Hd, (IH bs) by reflexivity. reflexivity.
Qed.

Lemma encode_scalar t :
  forallb is_scalar t = true -> exists enc, encode t = Some enc.
Proof.
  induction t as [|c t IH]; simpl; [eauto|].
  rewrite andb_true_iff. intros [Hc Ht].
  destruct (IH Ht) as [bs ->].
  unfold encode_cp. rewrite Hc. simpl.
  repeat match goal with
  | |- context [if ?b then _ else _] => destruct b
  end; eauto.
Qed.

End Utf8Facts.

(** ** The decoder, read backwards *)

Section DecodeInverse.
Import Utf8.

Local Ltac to_arith :=
  repeat match goal with
  | H : _ && _ = true |- _ => apply andb_true_iff in H; destruct H
  | H : (_ <=? _) = true |- _ => apply Z.leb_le in H
  | H : (_ <? _) = true |- _ => apply Z.ltb_lt in H
  | H : (_ =? _) = true |- _ => apply Z.eqb_eq in H
  | H : (_ =? _) = false |- _ => apply Z.eqb_neq in H
  end.

(** A sequence the decoder accepts is the encoding of the code point it
    gives, and that code point is a Unicode scalar value. *)
Lemma decode_one_inv bs c rest :
  decode_one bs = Some (c, rest) ->
  is_scalar c = true /\ exists enc, encode_cp c = Some enc /\ bs = enc ++ rest.
Proof.
  unfold decode_one.
  destruct bs as [|b0 r0]; [discriminate|].
  destruct ((0 <=? b0) && (b0 <? 128)) eqn:H1.
  { intros [= <- <-]. to_arith.
    assert (Hs : is_scalar b0 = true).
    { unfold is_scalar, is_surrogate. lia. }
    split; [exact Hs|]. exists [b0]. split; [|reflexivity].
    unfold encode_cp. rewrite Hs. cbn [negb].
    rewrite (proj2 (Z.ltb_lt b0 128)) by lia. reflexivity. }
  destruct ((194 <=? b0) && (b0 <? 224)) eqn:H2.
  { destruct r0 as [|b1 r1]; [discriminate|].
    unfold is_cont. destruct ((128 <=? b1) && (b1 <=? 191)) eqn:Hc1;
      [|discriminate].
    intros [= <- <-]. to_arith.
    assert (Hs : is_scalar ((b0 - 192) * 64 + (b1 - 128)) = true).
    { unfold is_scalar, is_surrogate. lia. }
    split; [exact Hs|]. eexists. split.
    - unfold encode_cp. rewrite Hs. cbn [negb].
      rewrite (proj2 (Z.ltb_ge _ 128)) by lia.
      rewrite (proj2 (Z.ltb_lt _ 2048)) by lia.
        reflexivity.
    - cbn [app]. repeat f_equal; Z.div_mod_to_equations; lia. }
  destruct ((224 <=? b0) && (b0 <? 240)) eqn:H3.
  { destruct r0 as [|b1 [|b2 r2]]; try discriminate.
    destruct (second3 b0 b1 && is_cont b2) eqn:Hc; [|discriminate].
    intros [= <- <-]. apply andb_true_iff in Hc. destruct Hc as [Hc1 Hc2].
    unfold is_cont in Hc2. to_arith.
    assert (Hr : 2048 <= (b0 - 224) * 4096 + (b1 - 128) * 64 + (b2 - 128) < 65536
                 /\ 128 <= b1 <= 191
                 /\ is_surrogate ((b0 - 224) * 4096 + (b1 - 128) * 64 + (b2 - 128))
                    = false).
    { unfold second3, is_cont in Hc1. unfold is_surrogate.
      destruct (Z.eqb_spec b0 224); [|destruct (Z.eqb_spec b0 237)]; to_arith;
        repeat split; lia. }
    destruct Hr as (Hrange & Hb1 & Hsur).
    assert (Hs : is_scalar ((b0 - 224) * 4096 + (b1 - 128) * 64 + (b2 - 128))
                 = true).
    { unfold is_scalar. rewrite Hsur. lia. }
    split; [exact Hs|]. eexists. split.
    - unfold encode_cp. rewrite Hs. cbn [negb].
      rewrite (proj2 (Z.ltb_ge _ 128)) by lia.
      rewrite (proj2 (Z.ltb_ge _ 2048)) by lia.
      rewrite (proj2 (Z.ltb_lt _ 65536)) by lia.
        reflexivity.
    - cbn [app]. repeat f_equal; Z.div_mod_to_equations; lia. }
  destruct ((240 <=? b0) && (b0 <? 245)) eqn:H4; [|discriminate].
  destruct r0 as [|b1 [|b2 [|b3 r3]]]; try discriminate.
  destruct (second4 b0 b1 && is_cont b2 && is_cont b3) eqn:Hc; [|discriminate].
  intros [= <- <-]. apply andb_true_iff in Hc. destruct Hc as [Hc Hc3].
  apply andb_true_iff in Hc. destruct Hc as [Hc1 Hc2].
  unfold is_cont in Hc2, Hc3. to_arith.
  assert (Hr : 65536 <= (b0 - 240) * 262144 + (b1 - 128) * 4096
                        + (b2 - 128) * 64 + (b3 - 128) <= 1114111
               /\ 128 <= b1 <= 191).
  { unfold second4, is_cont in Hc1.
    destruct (Z.eqb_spec b0 240); [|destruct (Z.eqb_spec b0 244)]; to_arith;
      split; lia. }
  destruct Hr as (Hrange & Hb1).
  assert (Hs : is_scalar ((b0 - 240) * 262144 + (b1 - 128) * 4096
                          + (b2 - 128) * 64 + (b3 - 128)) = true).
  { unfold is_scalar, is_surrogate. lia. }
  split; [exact Hs|]. eexists. split.
  - unfold encode_cp. rewrite Hs. cbn [negb].
    rewrite (proj2 (Z.ltb_ge _ 128)) by lia.
    rewrite (proj2 (Z.ltb_ge _ 2048)) by lia.
    rewrite (proj2 (Z.ltb_ge _ 65536)) by lia.
      reflexivity.
  - cbn [app]. repeat f_equal; Z.div_mod_to_equations; lia.
Qed.

Lemma decode_ignore_scalar_bounded n :
  forall bs, (length bs <= n)%nat -> forallb is_scalar (decode_ignore bs) = true.
Proof.
  induction n as [|n IH]; intros bs Hn.
  - destruct bs; [reflexivity|simpl in Hn; lia].
  - destruct bs as [|b r]; [reflexivity|]. rewrite decode_ignore_cons.
    destruct (decode_one (b :: r)) as [[c rest]|] eqn:Hd.
    + pose proof (decode_one_shorter _ _ _ Hd) as Hlen.
      destruct (decode_one_inv _ _ _ Hd) as (Hs & _).
      cbn [forallb]. rewrite Hs. apply IH. simpl in *. lia.
    + apply IH. simpl in Hn. lia.
Qed.

Lemma decode_strict_inv_bounded n :
  forall bs t, (length bs <= n)%nat ->
  decode_strict bs = Some t ->
  decode_ignore bs = t /\ encode t = Some bs.
Proof.
  induction n as [|n IH]; intros bs t Hn.
  - destruct bs; [|simpl in Hn; lia]. intros [= <-]. auto.
  - destruct bs as [|b r]; [intros [= <-]; auto|].
    rewrite decode_strict_cons, decode_ignore_cons.
    destruct (decode_one (b :: r)) as [[c rest]|] eqn:Hd; [|discriminate].
    pose proof (decode_one_shorter _ _ _ Hd) as Hlen.
    destruct (decode_one_inv _ _ _ Hd) as (_ & enc & Henc & Hbs).
    destruct (decode_strict rest) as [t'|] eqn:Hrest; [|discriminate].
    intros [= <-].
    destruct (IH rest t' ltac:(simpl in *; lia) Hrest) as (Hi & He).
    rewrite Hi. split; [reflexivity|].
    cbn [encode]. rewrite Henc, He, Hbs. reflexivity.
Qed.

End DecodeInverse.

(** ** The store: running the file operations *)

Section StoreFacts.
Context {rt : Runtime}.

Lemma tmp_path_name file :
  tmp_path_of file = {| parent := parent file; name := "result.json.tmp" |}.
Proof. reflexivity. Qed.

Lemma tmp_ne_result file : tmp_path_of file <> result_path_of file.
Proof. rewrite tmp_path_name. unfold result_path_of, Pathlib.with_name. intros [=]. Qed.


(** Without faults, and for a payload that UTF-8 can encode, the write
    succeeds and leaves the encoded payload in the canonical file. *)
Lemma write_result_file_ok data w b :
  faults w = [] ->
  Utf8.encode (json_dumps data) = Some b ->
  exists w',
    _write_result_file data w = (Return tt, w')
    /\ files w' !! result_path_of (module_file w) = Some b
    /\ faults w' = []
    /\ module_file w' = module_file w
    /\ calls w' = CallReplace (tmp_path_of (module_file w))
                              (result_path_of (module_file w))
                  :: CallWriteText (tmp_path_of (module_file w)) (json_dumps data)
                  :: calls w.
Proof.
  intros Hf Hb.
  unfold _write_result_file, _write_sync, Fs.get_module_file, bind,
    Fs.write_text, Fs.replace, bind, Fs.enter, Fs.set_files.
  rewrite Hf, Hb. simpl. rewrite lookup_insert_eq. simpl.
  eexists; split; [reflexivity|]. simpl.
  rewrite lookup_insert_eq. auto.
Qed.

(** The handler of [GET /result] builds the response of the read
    contract, and leaves the files as they are; only the fault of the read
    is used up. *)
Lemma get_last_result_run w :
  exists w',
    get_last_result w
    = (JSONResponse_outcome
         (status_code (response_of_read (store_read w)))
         (content (response_of_read (store_read w))), w')
    /\ files w' = files w
    /\ module_file w' = module_file w
    /\ (faults w = [] -> faults w' = []).
Proof.
  unfold get_last_result, store_read, file_text, Fs.get_module_file,
    Fs.path_exists, bind, try_, Fs.read_text, bind, Fs.enter, raise, ret,
    JSONResponse_init.
  simpl.
  destruct (files w !! result_path_of (module_file w)) as [b|] eqn:Hb; simpl.
  - destruct (faults w) as [|[|msg res] fs]; simpl; rewrite ?Hb;
      try (eexists; repeat split; (reflexivity || discriminate));
      destruct (Utf8.decode_strict b) as [t|]; simpl;
      try destruct (json_loads _); simpl;
      eexists; repeat split; (reflexivity || discriminate).
  - eexists; repeat split; auto.
Qed.

End StoreFacts.

(** ** Numbers: the scanner reads what [repr] writes *)

Section NumberFacts.
Context {rt : Runtime}.

Lemma ends_value_not_digit r : ends_value r = true -> head_not_digit r.
Proof.
  destruct r as [|c r]; simpl; [trivial|].
  intros H. apply orb_true_iff in H. rewrite !Z.eqb_eq in H.
  destruct H as [-> | ->]; reflexivity.
Qed.

Lemma span_digits_app ds r :
  digits ds -> head_not_digit r -> span_digits (ds ++ r) = (ds, r).
Proof.
  intros Hd Hr. induction Hd as [|c ds Hc Hd IH]; cbn [app span_digits].
  - destruct r as [|c r]; [reflexivity|]. cbn [head_not_digit] in Hr.
    cbn [span_digits]. rewrite Hr. reflexivity.
  - rewrite Hc, IH. reflexivity.
Qed.

Lemma scan_int_app ip r :
  int_part ip -> head_not_digit r -> scan_int (ip ++ r) = Some (ip, r).
Proof.
  intros [-> | (d & ds & -> & Hd & Hds)] Hr; [reflexivity|].
  cbn [app scan_int]. replace ((ch "1" <=? d) && (d <=? ch "9")) with true
    by (symmetry; apply andb_true_iff; split; apply Z.leb_le; lia).
  rewrite span_digits_app by assumption. reflexivity.
Qed.

Lemma scan_frac_app ds r :
  ds <> [] -> digits ds -> head_not_digit r ->
  scan_frac (ch "." :: ds ++ r) = Some (ch "." :: ds, r).
Proof.
  intros Hne Hd Hr. destruct ds as [|d ds]; [congruence|].
  unfold scan_frac. cbn [app].
  inversion Hd as [|? ? Hdd Hds]; subst.
  rewrite Hdd. cbn [andb Z.eqb ch]. simpl (_ =? _).
  change (d :: ds ++ r) with ((d :: ds) ++ r).
  rewrite span_digits_app by assumption. reflexivity.
Qed.

Lemma scan_frac_none r :
  match r with [] => True | c :: _ => c <> ch "." end -> scan_frac r = None.
Proof.
  destruct r as [|c [|d r]]; simpl; try reflexivity.
  intros Hc. destruct (Z.eqb_spec c (ch ".")); [contradiction|reflexivity].
Qed.

Lemma span_digits_nonempty ds r :
  ds <> [] -> digits ds -> head_not_digit r ->
  exists d ds', span_digits (ds ++ r) = (d :: ds', r) /\ ds = d :: ds'.
Proof.
  intros Hne Hd Hr. rewrite span_digits_app by assumption.
  destruct ds as [|d ds']; [congruence|]. eauto.
Qed.

Lemma scan_exp_app e sg ds r :
  (e = ch "e" \/ e = ch "E") ->
  (sg = [] \/ sg = [ch "+"] \/ sg = [ch "-"]) ->
  ds <> [] -> digits ds -> head_not_digit r ->
  scan_exp (e :: sg ++ ds ++ r) = Some (e :: sg ++ ds, r).
Proof.
  intros He Hsg Hne Hd Hr.
  destruct (span_digits_nonempty ds r Hne Hd Hr) as (d & ds' & Hspan & ->).
  inversion Hd as [|? ? Hdd Hds]; subst.
  unfold scan_exp.
  replace ((e =? ch "e") || (e =? ch "E")) with true
    by (destruct He as [-> | ->]; reflexivity).
  destruct Hsg as [-> | [-> | ->]]; cbn [app].
  - replace ((d =? ch "-") || (d =? ch "+")) with false.
    + change (d :: ds' ++ r) with ((d :: ds') ++ r). rewrite Hspan. reflexivity.
    + unfold JsonDecoder.is_digit in Hdd. apply andb_true_iff in Hdd.
      rewrite !Z.leb_le in Hdd. symmetry. apply orb_false_iff.
      split; apply Z.eqb_neq; chars; lia.
  - change ((ch "+" =? ch "-") || (ch "+" =? ch "+")) with true. cbn iota.
    change (d :: ds' ++ r) with ((d :: ds') ++ r). rewrite Hspan. reflexivity.
  - change ((ch "-" =? ch "-") || (ch "-" =? ch "+")) with true. cbn iota.
    change (d :: ds' ++ r) with ((d :: ds') ++ r). rewrite Hspan. reflexivity.
Qed.

Lemma scan_exp_none r : ends_value r = true -> scan_exp r = None.
Proof.
  destruct r as [|c r]; [reflexivity|]. simpl.
  intros H. apply orb_true_iff in H. rewrite !Z.eqb_eq in H.
  destruct H as [-> | ->]; reflexivity.
Qed.

Lemma int_part_head ip :
  int_part ip ->
  exists d ds, ip = d :: ds /\ JsonDecoder.is_digit d = true.
Proof.
  intros [-> | (d & ds & -> & Hd & _)]; [exists (ch "0"), []; auto|].
  exists d, ds. split; [reflexivity|].
  unfold JsonDecoder.is_digit. apply andb_true_iff.
  rewrite !Z.leb_le. chars. lia.
Qed.

Lemma digit_not_minus d : JsonDecoder.is_digit d = true -> (d =? ch "-") = false.
Proof.
  unfold JsonDecoder.is_digit. rewrite andb_true_iff, !Z.leb_le.
  chars. intros. apply Z.eqb_neq. lia.
Qed.

Lemma head_not_digit_frac_exp fp ep rest :
  frac_part fp -> exp_part ep -> ends_value rest = true ->
  head_not_digit (fp ++ ep ++ rest).
Proof.
  intros [-> | (ds & -> & _)] Hep Hr; [|reflexivity].
  destruct Hep as [-> | (e & sg & ds & -> & [-> | ->] & _)];
    [apply ends_value_not_digit; exact Hr|reflexivity|reflexivity].
Qed.

Lemma head_not_dot_exp ep rest :
  exp_part ep -> ends_value rest = true ->
  match ep ++ rest with [] => True | c :: _ => c <> ch "." end.
Proof.
  intros [-> | (e & sg & ds & -> & [-> | ->] & _)] Hr; cbn [app];
    [|discriminate|discriminate].
  destruct rest as [|c r]; [trivial|]. simpl in Hr.
  apply orb_true_iff in Hr. rewrite !Z.eqb_eq in Hr.
  destruct Hr as [-> | ->]; discriminate.
Qed.

(** The number scanner on a sign, an integer part, a fraction and an
    exponent, followed by the end of a value. *)
Lemma match_number_parts sg ip fp ep rest :
  (sg = [] \/ sg = [ch "-"]) ->
  int_part ip -> frac_part fp -> exp_part ep -> ends_value rest = true ->
  match_number (sg ++ ip ++ fp ++ ep ++ rest) =
  Ok (match fp, ep with
      | [], [] => PInt (PyInt.of_lit (sg ++ ip))
      | _, _ => PFloat (float_of_lit (sg ++ ip ++ fp ++ ep))
      end, rest).
Proof.
  intros Hsg Hip Hfp Hep Hr.
  assert (Hint : scan_int (ip ++ fp ++ ep ++ rest) = Some (ip, fp ++ ep ++ rest)).
  { apply scan_int_app; [exact Hip|].
    apply head_not_digit_frac_exp; assumption. }
  assert (Hfrac : scan_frac (fp ++ ep ++ rest)
                  = match fp with [] => None | _ => Some (fp, ep ++ rest) end).
  { destruct Hfp as [-> | (ds & -> & Hne & Hd)].
    - cbn [app]. apply scan_frac_none, head_not_dot_exp; assumption.
    - cbn [app]. apply scan_frac_app; [assumption..|].
      apply (head_not_digit_frac_exp [] ep rest); [left; reflexivity|assumption..]. }
  assert (Hexp : scan_exp (ep ++ rest)
                 = match ep with [] => None | _ => Some (ep, rest) end).
  { destruct Hep as [-> | (e & sg' & ds & -> & He & Hsg' & Hne & Hd)].
    - cbn [app]. apply scan_exp_none; assumption.
    - cbn [app]. rewrite <- app_assoc.
      apply scan_exp_app; [assumption..|].
      apply ends_value_not_digit; assumption. }
  assert (Hsplit : scan_sign (sg ++ ip ++ fp ++ ep ++ rest)
                   = (sg, ip ++ fp ++ ep ++ rest)).
  { destruct Hsg as [-> | ->]; [|reflexivity].
    destruct (int_part_head ip Hip) as (d & ds & -> & Hd).
    cbn [app scan_sign]. rewrite (digit_not_minus d Hd). reflexivity. }
  unfold match_number. rewrite Hsplit, Hint, Hfrac.
  destruct fp as [|c fp]; [destruct ep as [|c ep]|];
    cbn [app] in *; rewrite Hexp; try reflexivity.
  destruct ep; cbn [app]; rewrite ?app_nil_r; reflexivity.
Qed.

Lemma text_uint_uint_text d : PyInt.text_uint (PyInt.uint_text d) = d.
Proof. induction d; simpl; rewrite IHd || idtac; reflexivity. Qed.

Lemma uint_text_digits d : digits (PyInt.uint_text d).
Proof. induction d; simpl; constructor; auto. Qed.

Lemma to_uint_normal p : Decimal.unorm (Pos.to_uint p) = Pos.to_uint p.
Proof.
  rewrite <- DecimalPos.Unsigned.to_of, DecimalPos.Unsigned.of_to. reflexivity.
Qed.

Lemma to_uint_int_part p : int_part (PyInt.uint_text (Pos.to_uint p)).
Proof.
  pose proof (to_uint_normal p) as Hn.
  pose proof (DecimalPos.Unsigned.to_uint_nonnil p) as Hnil.
  assert (Hhead : Decimal.nzhead (Pos.to_uint p) = Pos.to_uint p).
  { destruct (Decimal.nzhead (Pos.to_uint p)) eqn:Hz;
      [apply DecimalFacts.unorm_0 in Hz; rewrite Hn in Hz;
       exfalso; exact (DecimalPos.Unsigned.to_uint_nonzero p Hz)
      |exfalso; exact (DecimalFacts.nzhead_nonzero _ _ Hz)
      |unfold Decimal.unorm in Hn; rewrite Hz in Hn; exact Hn ..]. }
  right. destruct (Pos.to_uint p) as [|u|u|u|u|u|u|u|u|u|u] eqn:Hu;
    [congruence
    |exfalso; exact (DecimalFacts.nzhead_nonzero _ _ Hhead)
    |..];
    cbn [PyInt.uint_text]; eexists _, _; (split; [reflexivity|]);
    (split; [vm_compute; split; discriminate|apply uint_text_digits]).
Qed.

(** [int.__repr__] writes an optional minus sign and an integer part. *)
Lemma repr_parts n :
  exists sg ip,
    PyInt.repr n = sg ++ ip /\ (sg = [] \/ sg = [ch "-"]) /\ int_part ip.
Proof.
  unfold PyInt.repr. destruct n as [|p|p]; cbn [Z.to_int].
  - exists [], [ch "0"]. split; [reflexivity|]. split; [auto|left; reflexivity].
  - exists [], (PyInt.uint_text (Pos.to_uint p)).
    split; [reflexivity|]. split; [auto|apply to_uint_int_part].
  - exists [ch "-"], (PyInt.uint_text (Pos.to_uint p)).
    split; [reflexivity|]. split; [auto|apply to_uint_int_part].
Qed.

(** [int(repr(n)) == n] *)
Lemma of_lit_repr n : PyInt.of_lit (PyInt.repr n) = n.
Proof.
  unfold PyInt.repr.
  destruct (Z.to_int n) as [d|d] eqn:Hn.
  - assert (Hd : exists c t, PyInt.uint_text d = c :: t
                             /\ JsonDecoder.is_digit c = true).
    { destruct n as [|p|p]; cbn [Z.to_int] in Hn; [| |discriminate];
        injection Hn as <-.
      - exists (ch "0"), []. auto.
      - apply int_part_head, to_uint_int_part. }
    destruct Hd as (c & t & Ht & Hc).
    unfold PyInt.of_lit. rewrite Ht, (digit_not_minus c Hc), <- Ht.
    rewrite text_uint_uint_text, <- Hn. apply DecimalZ.of_to.
  - unfold PyInt.of_lit. change (ch "-" =? ch "-") with true. cbn iota.
    rewrite text_uint_uint_text, <- Hn. apply DecimalZ.of_to.
Qed.

Lemma match_number_int n rest :
  ends_value rest = true ->
  match_number (PyInt.repr n ++ rest) = Ok (PInt n, rest).
Proof.
  intros Hr. destruct (repr_parts n) as (sg & ip & Hn & Hsg & Hip).
  pose proof (match_number_parts sg ip [] [] rest Hsg Hip
                (or_introl eq_refl) (or_introl eq_refl) Hr) as H.
  cbn [app] in H. rewrite Hn, <- app_assoc, H, <- Hn, of_lit_repr.
  reflexivity.
Qed.

Lemma match_number_float t rest :
  float_literal t -> ends_value rest = true ->
  match_number (t ++ rest) = Ok (PFloat (float_of_lit t), rest).
Proof.
  intros (sg & ip & fp & ep & -> & Hsg & Hip & Hfp & Hep & Hne) Hr.
  pose proof (match_number_parts sg ip fp ep rest Hsg Hip Hfp Hep Hr) as H.
  rewrite <- !app_assoc, H.
  destruct fp; [destruct ep; [destruct Hne; congruence|]|]; reflexivity.
Qed.

End NumberFacts.

(** ** Strings: [scanstring] reads what [encode_basestring] writes *)

Section StringFacts.
Context {rt : Runtime}.

Lemma small_nat_cases (c : Z) :
  0 <= c < 32 -> exists n, (n < 32)%nat /\ c = Z.of_nat n.
Proof. intros H. exists (Z.to_nat c). split; lia. Qed.

(** One character, escaped or not. *)
Lemma scanstring_escape_char c tail begin acc :
  0 <= c -> tail <> [] ->
  scanstring begin acc (escape_char c ++ tail) = scanstring begin (c :: acc) tail.
Proof.
  intros Hc Htail. destruct tail as [|x tail]; [congruence|]. clear Htail.
  destruct (Z.ltb_spec c 32) as [Hlt|Hge].
  - destruct (small_nat_cases c (conj Hc Hlt)) as (n & Hn & ->).
    do 32 (destruct n as [|n]; [reflexivity|]). lia.
  - destruct (Z.eqb_spec c dquote) as [->|Hq]; [reflexivity|].
    destruct (Z.eqb_spec c (ch "\")) as [->|Hb]; [reflexivity|].
    assert (Hesc : escape_char c = [c]).
    { unfold escape_char.
      rewrite (proj2 (Z.eqb_neq c dquote) Hq), (proj2 (Z.eqb_neq c (ch "\")) Hb).
      unfold dquote in *. chars.
      repeat match goal with
      | |- context [c =? ?k] =>
        rewrite (proj2 (Z.eqb_neq c k)) by lia
      end.
      rewrite (proj2 (Z.ltb_ge c 32)) by lia. rewrite andb_false_r. reflexivity. }
    rewrite Hesc. cbn [app scanstring].
    rewrite (proj2 (Z.eqb_neq c dquote) Hq), (proj2 (Z.eqb_neq c (ch "\")) Hb).
    rewrite (proj2 (Z.leb_gt c 31)) by lia. reflexivity.
Qed.

Lemma scanstring_escaped s begin acc rest :
  forallb is_scalar s = true ->
  scanstring begin acc (flat_map escape_char s ++ dquote :: rest)
  = Ok (rev acc ++ s, rest).
Proof.
  revert acc; induction s as [|c s IH]; intros acc Hs.
  - cbn [flat_map app scanstring].
    change (dquote =? dquote) with true. cbn iota. rewrite app_nil_r. reflexivity.
  - cbn [forallb] in Hs. apply andb_true_iff in Hs. destruct Hs as [Hc Hs].
    cbn [flat_map]. rewrite <- app_assoc.
    rewrite scanstring_escape_char.
    + rewrite IH by assumption. cbn [rev]. rewrite <- app_assoc. reflexivity.
    + unfold is_scalar in Hc. rewrite !andb_true_iff, !Z.leb_le in Hc. lia.
    + destruct (flat_map escape_char s); discriminate.
Qed.

Lemma scanstring_encode_basestring s rest :
  forallb is_scalar s = true ->
  exists r,
    encode_basestring s ++ rest = dquote :: r
    /\ forall begin, scanstring begin [] r = Ok (s, rest).
Proof.
  intros Hs. unfold encode_basestring. cbn [app]. eexists. split; [reflexivity|].
  intros begin. rewrite <- app_assoc. cbn [app].
  apply (scanstring_escaped s begin [] rest Hs).
Qed.

End StringFacts.

(** ** Values: the decoder reads what the encoder writes *)

Section ValueFacts.
Context {rt : Runtime}.

(** Induction on values, with the hypothesis for every element of a list
    and every value of a dictionary. *)
Lemma pyval_ind' (P : pyval -> Prop) :
  P PNone ->
  (forall b, P (PBool b)) ->
  (forall n, P (PInt n)) ->
  (forall f, P (PFloat f)) ->
  (forall s, P (PStr s)) ->
  (forall l, Forall P l -> P (PList l)) ->
  (forall d, Forall (fun kv => P (snd kv)) d -> P (PDict d)) ->
  forall v, P v.
Proof.
  intros HNone HBool HInt HFloat HStr HList HDict.
  fix go 1. intros [| b | n | f | s | l | d].
  - exact HNone.
  - apply HBool.
  - apply HInt.
  - apply HFloat.
  - apply HStr.
  - apply HList. induction l as [|x l IH]; constructor; [apply go|exact IH].
  - apply HDict. induction d as [|[k x] d IH]; constructor; [apply go|exact IH].
Qed.

Lemma scan_once_eq fuel c r :
  scan_once (S fuel) (c :: r) =
  if c =? dquote then
    match scanstring (length (c :: r)) [] r with
    | Ok (str, r') => Ok (PStr str, r')
    | Err m p => Err m p
    end
  else if c =? ch "{" then
    match skip_ws r with
    | ((c' :: r') as r0) =>
      if c' =? ch "}" then Ok (PDict [], r') else parse_object fuel [] r0
    | [] => parse_object fuel [] []
    end
  else if c =? ch "[" then
    match skip_ws r with
    | ((c' :: r') as r0) =>
      if c' =? ch "]" then Ok (PList [], r') else parse_array fuel [] r0
    | [] => parse_array fuel [] []
    end
  else
    match strip_prefix (lit "null") (c :: r) with
    | Some r' => Ok (PNone, r')
    | None =>
    match strip_prefix (lit "true") (c :: r) with
    | Some r' => Ok (PBool true, r')
    | None =>
    match strip_prefix (lit "false") (c :: r) with
    | Some r' => Ok (PBool false, r')
    | None =>
    match strip_prefix (lit "NaN") (c :: r) with
    | Some r' => Ok (PFloat (float_of_lit (lit "nan")), r')
    | None =>
    match strip_prefix (lit "Infinity") (c :: r) with
    | Some r' => Ok (PFloat (float_of_lit (lit "inf")), r')
    | None =>
    match strip_prefix (lit "-Infinity") (c :: r) with
    | Some r' => Ok (PFloat (float_of_lit (lit "-inf")), r')
    | None => match_number (c :: r)
    end end end end end end.
Proof. reflexivity. Qed.

Lemma parse_array_eq fuel acc s :
  parse_array (S fuel) acc s =
  match scan_once fuel s with
  | Err m p => Err m p
  | Ok (v, r) =>
    match skip_ws r with
    | ((c :: r') as r0) =>
      if c =? ch "]" then Ok (PList (rev (v :: acc)), r')
      else if c =? ch "," then parse_array fuel (v :: acc) (skip_ws r')
      else Err "Expecting ',' delimiter" (length r0)
    | [] => Err "Expecting ',' delimiter" 0
    end
  end.
Proof. reflexivity. Qed.

Lemma parse_object_eq fuel acc q r :
  parse_object (S fuel) acc (q :: r) =
  if q =? dquote then
    match scanstring (length (q :: r)) [] r with
    | Err m p => Err m p
    | Ok (key, r1) =>
      match skip_ws r1 with
      | ((c :: r2) as r1') =>
        if c =? ch ":" then
          match scan_once fuel (skip_ws r2) with
          | Err m p => Err m p
          | Ok (v, r3) =>
            match skip_ws r3 with
            | ((c' :: r4) as r3') =>
              if c' =? ch "}" then Ok (PDict (dict_set acc key v), r4)
              else if c' =? ch ","
              then parse_object fuel (dict_set acc key v) (skip_ws r4)
              else Err "Expecting ',' delimiter" (length r3')
            | [] => Err "Expecting ',' delimiter" 0
            end
          end
        else Err "Expecting ':' delimiter" (length r1')
      | [] => Err "Expecting ':' delimiter" 0
      end
    end
  else Err "Expecting property name enclosed in double quotes" (length (q :: r)).
Proof. reflexivity. Qed.

Lemma skip_ws_spaces n t : skip_ws (repeat 32 n ++ t) = skip_ws t.
Proof. induction n; [reflexivity|exact IHn]. Qed.

Lemma skip_ws_newline_indent lvl t :
  skip_ws (newline_indent lvl ++ t) = skip_ws t.
Proof. unfold newline_indent. cbn [app skip_ws is_ws]. apply skip_ws_spaces. Qed.

Lemma value_head_app t r : value_head t -> value_head (t ++ r).
Proof. destruct t; [contradiction|trivial]. Qed.

Lemma skip_ws_not_ws c t : is_ws c = false -> skip_ws (c :: t) = c :: t.
Proof. intros Hc. cbn [skip_ws]. rewrite Hc. reflexivity. Qed.

Lemma skip_ws_value_head t : value_head t -> skip_ws t = t.
Proof.
  destruct t as [|c t]; [contradiction|]. intros (Hc & _).
  cbn [skip_ws]. rewrite Hc. reflexivity.
Qed.

Lemma digit_value_head d t : JsonDecoder.is_digit d = true -> value_head (d :: t).
Proof.
  unfold JsonDecoder.is_digit, value_head, is_ws.
  rewrite andb_true_iff, !Z.leb_le. chars. intros Hd.
  repeat split; lia.
Qed.

Lemma number_value_head sg ip t :
  (sg = [] \/ sg = [ch "-"]) -> int_part ip -> value_head (sg ++ ip ++ t).
Proof.
  intros [-> | ->] Hip.
  - destruct (int_part_head ip Hip) as (d & ds & -> & Hd).
    apply digit_value_head. exact Hd.
  - cbn. repeat split; discriminate.
Qed.

Lemma int_value_head n : value_head (PyInt.repr n).
Proof.
  destruct (repr_parts n) as (sg & ip & -> & Hsg & Hip).
  rewrite <- (app_nil_r ip). apply number_value_head; assumption.
Qed.

Lemma float_literal_value_head t : float_literal t -> value_head t.
Proof.
  intros (sg & ip & fp & ep & -> & Hsg & Hip & _).
  apply number_value_head; assumption.
Qed.

End ValueFacts.

Section RoundTripFacts.
Context {rt : Runtime} {laws : FloatLaws rt}.

Lemma valid_float f :
  valid_json (PFloat f) = true ->
  floatstr f = float_repr f /\ float_literal (float_repr f)
  /\ float_of_lit (float_repr f) = f.
Proof.
  cbn [valid_json]. unfold floatstr.
  destruct (float_classify f) eqn:Hc; try discriminate. intros _.
  auto using float_repr_literal, float_repr_round_trip.
Qed.

Lemma iterencode_head lvl v :
  valid_json v = true -> value_head (iterencode lvl v).
Proof.
  destruct v as [| [|] | n | f | s | [|x l] | [|kv d]]; intros Hv;
    try (cbn; repeat split; discriminate).
  - apply int_value_head.
  - destruct (valid_float f Hv) as (Hs & Hl & _). cbn [iterencode].
    rewrite Hs. apply float_literal_value_head. exact Hl.
Qed.

(** At a digit, or at a minus sign followed by a digit, [scan_once]
    reads a number. *)
Lemma scan_once_number fuel sg ip t :
  (sg = [] \/ sg = [ch "-"]) -> int_part ip ->
  scan_once (S fuel) (sg ++ ip ++ t) = match_number (sg ++ ip ++ t).
Proof.
  intros Hsg Hip. destruct (int_part_head ip Hip) as (d & ds & -> & Hd).
  unfold JsonDecoder.is_digit in Hd. rewrite andb_true_iff, !Z.leb_le in Hd.
  chars.
  destruct Hsg as [-> | ->]; cbn [app]; rewrite scan_once_eq;
    unfold dquote; cbn [strip_prefix lit]; chars;
    repeat match goal with
    | |- context [?a =? ?b] =>
      first [ rewrite (proj2 (Z.eqb_neq a b)) by lia
            | rewrite (proj2 (Z.eqb_eq a b)) by lia ]
    end; reflexivity.
Qed.

Lemma join_cons2 sep (x y : text) l :
  join sep (x :: y :: l) = x ++ sep ++ join sep (y :: l).
Proof. reflexivity. Qed.

Lemma ends_value_newline lvl t : ends_value (newline_indent lvl ++ t) = true.
Proof. reflexivity. Qed.

Lemma value_head_nonempty t : value_head t -> (1 <= length t)%nat.
Proof. destruct t; [contradiction|simpl; lia]. Qed.

Lemma join_head sep (x : text) l : value_head x -> value_head (join sep (x :: l)).
Proof.
  destruct l; [trivial|]. rewrite join_cons2. apply value_head_app.
Qed.

(** The loop of [_parse_array] on the elements the encoder wrote. *)
Lemma parse_array_join lvl rest l :
  Forall reads_back l -> forallb valid_json l = true ->
  ends_value rest = true -> l <> [] ->
  forall acc fuel,
    (length (join (ch "," :: newline_indent (S lvl))
                  (map (iterencode (S lvl)) l)) < fuel)%nat ->
    parse_array fuel acc
      (join (ch "," :: newline_indent (S lvl)) (map (iterencode (S lvl)) l)
       ++ newline_indent lvl ++ ch "]" :: rest)
    = Ok (PList (rev acc ++ l), rest).
Proof.
  intros Hall Hvalid Hrest Hne.
  induction Hall as [|x l Hx Hall IH]; [congruence|]. clear Hne.
  cbn [forallb] in Hvalid. apply andb_true_iff in Hvalid.
  destruct Hvalid as [Hvx Hvl].
  intros acc fuel Hfuel. destruct fuel as [|fuel]; [lia|].
  pose proof (value_head_nonempty _ (iterencode_head (S lvl) x Hvx)) as Hlen.
  destruct l as [|y l].
  - cbn [map join] in *. rewrite parse_array_eq.
    rewrite (Hx (S lvl) fuel _ Hvx (ends_value_newline lvl _)) by lia.
    rewrite skip_ws_newline_indent, skip_ws_not_ws by reflexivity.
    change (ch "]" =? ch "]") with true. cbn iota.
    reflexivity.
  - cbn [map] in *. rewrite join_cons2 in *.
    rewrite !length_app in Hfuel. cbn [length] in Hfuel.
    rewrite <- !app_assoc. cbn [app]. rewrite parse_array_eq.
    rewrite Hx; [|exact Hvx|reflexivity|lia].
    rewrite skip_ws_not_ws by reflexivity.
    change (ch "," =? ch "]") with false. change (ch "," =? ch ",") with true.
    cbn iota. rewrite skip_ws_newline_indent.
    cbn [forallb] in Hvl.
    assert (Hhead : value_head (iterencode (S lvl) y)).
    { apply iterencode_head. apply andb_true_iff in Hvl. tauto. }
    rewrite skip_ws_value_head
      by (apply value_head_app, join_head; exact Hhead).
    rewrite IH; [|exact Hvl|discriminate|lia].
    cbn [rev]. rewrite <- app_assoc. reflexivity.
Qed.

Lemma existsb_text_eqb_in k ks :
  existsb (text_eqb k) ks = false -> forall k', In k' ks -> text_eqb k k' = false.
Proof.
  induction ks as [|x ks IH]; cbn [existsb]; [contradiction|].
  rewrite orb_false_iff. intros [Hx Hks] k' [<- | Hin]; auto.
Qed.

Lemma dict_set_fresh acc k v (d : list (text * pyval)) :
  keys_distinct (map fst (acc ++ (k, v) :: d)) = true ->
  dict_set acc k v = acc ++ [(k, v)].
Proof.
  induction acc as [|[k' v'] acc IH]; [reflexivity|].
  cbn [app map fst keys_distinct dict_set].
  rewrite andb_true_iff, negb_true_iff. intros [Hk' Hrest].
  rewrite (existsb_text_eqb_in k' _ Hk' k).
  - rewrite IH by exact Hrest. reflexivity.
  - rewrite map_app. apply in_or_app. right. left. reflexivity.
Qed.

Lemma encode_item_head lvl kv t : value_head (encode_item lvl kv ++ t).
Proof. destruct kv as [k v]. cbn. repeat split; discriminate. Qed.

(** The loop of [_parse_object] on the items the encoder wrote. *)
Lemma parse_object_join lvl rest d :
  Forall (fun kv => reads_back (snd kv)) d ->
  forallb valid_item d = true ->
  ends_value rest = true -> d <> [] ->
  forall acc fuel,
    keys_distinct (map fst (acc ++ d)) = true ->
    (length (join (ch "," :: newline_indent (S lvl))
                  (map (encode_item (S lvl)) d)) < fuel)%nat ->
    parse_object fuel acc
      (join (ch "," :: newline_indent (S lvl)) (map (encode_item (S lvl)) d)
       ++ newline_indent lvl ++ ch "}" :: rest)
    = Ok (PDict (acc ++ d), rest).
Proof.
  intros Hall Hvalid Hrest Hne.
  induction Hall as [|[k v] d Hv Hall IH]; [congruence|]. clear Hne.
  cbn [forallb valid_item] in Hvalid. rewrite !andb_true_iff in Hvalid.
  destruct Hvalid as [[Hk Hvv] Hvd]. cbn [snd] in Hv.
  intros acc fuel Hkeys Hfuel. destruct fuel as [|fuel]; [lia|].
  pose proof (iterencode_head (S lvl) v Hvv) as Hhead.
  assert (Hstep : forall tail,
    ends_value tail = true ->
    (length (iterencode (S lvl) v) <= fuel)%nat ->
    parse_object (S fuel) acc (encode_item (S lvl) (k, v) ++ tail) =
    match skip_ws tail with
    | c' :: r4 =>
      if c' =? ch "}" then Ok (PDict (acc ++ [(k, v)]), r4)
      else if c' =? ch ","
      then parse_object fuel (acc ++ [(k, v)]) (skip_ws r4)
      else Err "Expecting ',' delimiter" (length (c' :: r4))
    | [] => Err "Expecting ',' delimiter" 0
    end).
  { intros tail Htail Hlen. cbn [encode_item]. rewrite <- !app_assoc.
    destruct (scanstring_encode_basestring k
                (lit ": " ++ iterencode (S lvl) v ++ tail) Hk)
      as (r & -> & Hscan).
    rewrite parse_object_eq. change (dquote =? dquote) with true. cbn iota.
    rewrite Hscan. cbn [lit app].
    rewrite skip_ws_not_ws by reflexivity.
    change (ch ":" =? ch ":") with true. cbn iota.
    replace (skip_ws (ch " " :: iterencode (S lvl) v ++ tail))
      with (iterencode (S lvl) v ++ tail)
      by (symmetry; apply (skip_ws_value_head _ (value_head_app _ tail Hhead))).
    rewrite Hv by assumption.
    rewrite (dict_set_fresh acc k v d Hkeys). reflexivity. }
  destruct d as [|kv d].
  - cbn [map join] in *. rewrite Hstep; [|reflexivity|].
    + rewrite skip_ws_newline_indent, skip_ws_not_ws by reflexivity.
      change (ch "}" =? ch "}") with true. reflexivity.
    + cbn [encode_item] in Hfuel. rewrite !length_app in Hfuel. lia.
  - cbn [map] in *. rewrite join_cons2 in *.
    rewrite <- !app_assoc. cbn [app].
    rewrite Hstep; [|reflexivity|].
    + rewrite skip_ws_not_ws by reflexivity.
      change (ch "," =? ch "}") with false. change (ch "," =? ch ",") with true.
      cbn iota. rewrite skip_ws_newline_indent.
      rewrite skip_ws_value_head.
      * rewrite IH; [|exact Hvd|discriminate| |].
        -- rewrite <- app_assoc. reflexivity.
        -- rewrite <- app_assoc. exact Hkeys.
        -- rewrite !length_app in Hfuel. cbn [length] in Hfuel. lia.
      * destruct d; cbn [map join]; rewrite <- ?app_assoc;
          apply encode_item_head.
    + cbn [encode_item] in Hfuel. rewrite !length_app in Hfuel. lia.
Qed.

Lemma value_head_not_closing t :
  value_head t ->
  exists c r, t = c :: r /\ (c =? ch "]") = false /\ (c =? ch "}") = false.
Proof.
  destruct t as [|c r]; [contradiction|]. intros (_ & Hb & Hc & _).
  exists c, r. rewrite !Z.eqb_neq. auto.
Qed.

(** [scan_once] reads an encoded value back, whatever the nesting depth
    it was written at, whenever the fuel covers the length of the text. *)
Lemma iterencode_reads_back v : reads_back v.
Proof.
  induction v as [| b | n | f | s | l IH | d IH] using pyval_ind';
    intros lvl fuel rest Hv Hrest Hfuel.
  - destruct fuel as [|fuel]; [cbn in Hfuel; lia|]. reflexivity.
  - destruct fuel as [|fuel]; [destruct b; cbn in Hfuel; lia|].
    destruct b; reflexivity.
  - pose proof (value_head_nonempty _ (int_value_head n)) as Hlen.
    cbn [iterencode] in *. destruct fuel as [|fuel]; [lia|].
    rewrite <- (match_number_int n rest Hrest).
    destruct (repr_parts n) as (sg & ip & -> & Hsg & Hip).
    rewrite <- app_assoc. apply scan_once_number; assumption.
  - destruct (valid_float f Hv) as (Hs & Hl & Hrt).
    pose proof (value_head_nonempty _ (float_literal_value_head _ Hl)) as Hlen.
    cbn [iterencode] in *. rewrite Hs in *.
    destruct fuel as [|fuel]; [lia|].
    rewrite <- Hrt at 2. rewrite <- (match_number_float _ rest Hl Hrest).
    destruct Hl as (sg & ip & fp & ep & -> & Hsg & Hip & _).
    rewrite <- !app_assoc. apply scan_once_number; assumption.
  - cbn [iterencode valid_json] in *.
    destruct fuel as [|fuel]; [cbn in Hfuel; lia|].
    destruct (scanstring_encode_basestring s rest Hv) as (r & -> & Hscan).
    rewrite scan_once_eq. change (dquote =? dquote) with true. cbn iota.
    rewrite Hscan. reflexivity.
  - destruct l as [|x l].
    + destruct fuel as [|fuel]; [cbn in Hfuel; lia|]. reflexivity.
    + cbn [valid_json] in Hv. cbn [iterencode] in *.
      set (items := join (ch "," :: newline_indent (S lvl))
                         (map (iterencode (S lvl)) (x :: l))) in *.
      rewrite !length_app in Hfuel. cbn [lit length] in Hfuel.
      destruct fuel as [|fuel]; [lia|].
      rewrite <- !app_assoc. cbn [lit app]. rewrite scan_once_eq.
      change (ch "[" =? dquote) with false. change (ch "[" =? ch "{") with false.
      change (ch "[" =? ch "[") with true. cbn iota.
      rewrite skip_ws_newline_indent.
      assert (Hhead : value_head (items ++ newline_indent lvl ++ ch "]" :: rest)).
      { apply value_head_app. subst items. cbn [map]. apply join_head.
        apply iterencode_head. cbn [forallb] in Hv.
        apply andb_true_iff in Hv. tauto. }
      rewrite (skip_ws_value_head _ Hhead).
      destruct (value_head_not_closing _ Hhead) as (c & r & Hcr & Hb & _).
      rewrite Hcr, Hb, <- Hcr.
      subst items. apply (parse_array_join lvl rest (x :: l) IH Hv Hrest);
        [discriminate|lia].
  - destruct d as [|kv d].
    + destruct fuel as [|fuel]; [cbn in Hfuel; lia|]. reflexivity.
    + cbn [valid_json] in Hv. apply andb_true_iff in Hv.
      destruct Hv as [Hkeys Hitems].
      change (iterencode lvl (PDict (kv :: d)))
        with (lit "{" ++ newline_indent (S lvl)
              ++ join (ch "," :: newline_indent (S lvl))
                      (map (encode_item (S lvl)) (kv :: d))
              ++ newline_indent lvl ++ lit "}") in *.
      set (items := join (ch "," :: newline_indent (S lvl))
                         (map (encode_item (S lvl)) (kv :: d))) in *.
      rewrite !length_app in Hfuel. cbn [lit length] in Hfuel.
      destruct fuel as [|fuel]; [lia|].
      rewrite <- !app_assoc. cbn [lit app]. rewrite scan_once_eq.
      change (ch "{" =? dquote) with false. change (ch "{" =? ch "{") with true.
      cbn iota. rewrite skip_ws_newline_indent.
      assert (Hhead : value_head (items ++ newline_indent lvl ++ ch "}" :: rest)).
      { subst items. cbn [map]. destruct d; cbn [map join];
          rewrite <- ?app_assoc; apply encode_item_head. }
      rewrite (skip_ws_value_head _ Hhead).
      destruct (value_head_not_closing _ Hhead) as (c & r & Hcr & _ & Hc).
      rewrite Hcr, Hc, <- Hcr.
      subst items.
      apply (parse_object_join lvl rest (kv :: d) IH Hitems Hrest);
        [discriminate|exact Hkeys|lia].
Qed.

(** [json.loads(json.dumps(v, ensure_ascii=False, indent=2)) == v] for
    valid JSON values. *)
Lemma json_loads_dumps v :
  valid_json v = true -> json_loads (json_dumps v) = inl v.
Proof.
  intros Hv. unfold json_loads, json_dumps.
  pose proof (iterencode_head 0 v Hv) as Hhead.
  destruct (iterencode 0 v) as [|c t] eqn:He; [contradiction|].
  destruct Hhead as (Hws & _ & _ & Hbom).
  cbn [starts_with_bom]. rewrite (proj2 (Z.eqb_neq _ _) Hbom).
  rewrite skip_ws_not_ws by exact Hws.
  rewrite <- (app_nil_r (c :: t)) at 2. rewrite <- He.
  rewrite iterencode_reads_back; [reflexivity|exact Hv|reflexivity|].
  rewrite He. cbn [length]. lia.
Qed.

End RoundTripFacts.

(** ** The encoder's output is text that UTF-8 encodes and that reading in
    text mode leaves as it is *)

Section PlainFacts.
Context {rt : Runtime} {laws : FloatLaws rt}.

Lemma plain_scalar t : forallb plain t = true -> forallb is_scalar t = true.
Proof.
  induction t as [|c t IH]; [reflexivity|]. cbn [forallb]. unfold plain at 1.
  rewrite !andb_true_iff. intros [[Hc _] Ht]. auto.
Qed.

Lemma universal_newlines_plain t :
  forallb plain t = true -> Fs.universal_newlines t = t.
Proof.
  induction t as [|c t IH]; [reflexivity|]. cbn [forallb]. unfold plain at 1.
  rewrite !andb_true_iff, negb_true_iff. intros [[_ Hc] Ht].
  cbn [Fs.universal_newlines]. rewrite Hc, IH by exact Ht. reflexivity.
Qed.

Lemma digit_plain d : JsonDecoder.is_digit d = true -> plain d = true.
Proof.
  unfold JsonDecoder.is_digit, plain, is_scalar, is_surrogate.
  rewrite andb_true_iff, !Z.leb_le. chars. intros Hd.
  repeat (apply andb_true_iff; split); try apply negb_true_iff; lia.
Qed.

Lemma digits_plain ds : digits ds -> forallb plain ds = true.
Proof.
  induction 1 as [|d ds Hd _ IH]; [reflexivity|].
  cbn [forallb]. rewrite (digit_plain d Hd), IH. reflexivity.
Qed.

Lemma int_part_plain ip : int_part ip -> forallb plain ip = true.
Proof.
  intros Hip. destruct (int_part_head ip Hip) as (d & ds & Heq & Hd).
  destruct Hip as [-> | (d' & ds' & -> & _ & Hds)]; [reflexivity|].
  injection Heq as <- <-. cbn [forallb].
  rewrite (digit_plain d' Hd), (digits_plain ds' Hds). reflexivity.
Qed.

Lemma sign_plain sg : sg = [] \/ sg = [ch "-"] -> forallb plain sg = true.
Proof. intros [-> | ->]; reflexivity. Qed.

Lemma int_repr_plain n : forallb plain (PyInt.repr n) = true.
Proof.
  destruct (repr_parts n) as (sg & ip & -> & Hsg & Hip).
  rewrite forallb_app, (sign_plain sg Hsg), (int_part_plain ip Hip).
  reflexivity.
Qed.

Lemma float_literal_plain t : float_literal t -> forallb plain t = true.
Proof.
  intros (sg & ip & fp & ep & -> & Hsg & Hip & Hfp & Hep & _).
  rewrite !forallb_app, (sign_plain sg Hsg), (int_part_plain ip Hip).
  assert (Hf : forallb plain fp = true).
  { destruct Hfp as [-> | (ds & -> & _ & Hds)]; [reflexivity|].
    cbn [forallb]. rewrite (digits_plain ds Hds). reflexivity. }
  assert (He : forallb plain ep = true).
  { destruct Hep as [-> | (e & sg' & ds & -> & He & Hsg' & _ & Hds)];
      [reflexivity|].
    cbn [forallb]. rewrite forallb_app, (digits_plain ds Hds).
    destruct He as [-> | ->]; destruct Hsg' as [-> | [-> | ->]]; reflexivity. }
  rewrite Hf, He. reflexivity.
Qed.

Lemma escape_char_plain c :
  is_scalar c = true -> forallb plain (escape_char c) = true.
Proof.
  intros Hc. destruct (Z.ltb_spec c 32) as [Hlt|Hge].
  - assert (H0 : 0 <= c).
    { unfold is_scalar in Hc. rewrite !andb_true_iff, !Z.leb_le in Hc. lia. }
    destruct (small_nat_cases c (conj H0 Hlt)) as (n & Hn & ->).
    do 32 (destruct n as [|n]; [reflexivity|]). lia.
  - destruct (Z.eqb_spec c dquote) as [->|Hq]; [reflexivity|].
    destruct (Z.eqb_spec c (ch "\")) as [->|Hb]; [reflexivity|].
    assert (Hesc : escape_char c = [c]).
    { unfold escape_char.
      rewrite (proj2 (Z.eqb_neq c dquote) Hq), (proj2 (Z.eqb_neq c (ch "\")) Hb).
      unfold dquote in *. chars.
      repeat match goal with
      | |- context [c =? ?k] =>
        rewrite (proj2 (Z.eqb_neq c k)) by lia
      end.
      rewrite (proj2 (Z.ltb_ge c 32)) by lia. rewrite andb_false_r. reflexivity. }
    rewrite Hesc. cbn [forallb]. unfold plain. rewrite Hc.
    rewrite (proj2 (Z.eqb_neq c 13)) by lia. reflexivity.
Qed.

Lemma encode_basestring_plain s :
  forallb is_scalar s = true -> forallb plain (encode_basestring s) = true.
Proof.
  intros Hs. unfold encode_basestring. cbn [forallb].
  rewrite forallb_app. change (plain dquote) with true. cbn [forallb andb].
  rewrite andb_true_r.
  induction s as [|c s IH]; [reflexivity|].
  cbn [forallb] in Hs. apply andb_true_iff in Hs. destruct Hs as [Hc Hs].
  cbn [flat_map]. rewrite forallb_app, (escape_char_plain c Hc), IH by exact Hs.
  reflexivity.
Qed.

Lemma newline_indent_plain lvl : forallb plain (newline_indent lvl) = true.
Proof.
  unfold newline_indent. cbn [forallb]. change (plain 10) with true.
  cbn [andb]. induction (2 * lvl)%nat as [|n IH]; [reflexivity|exact IH].
Qed.

Lemma join_plain sep chunks :
  forallb plain sep = true ->
  Forall (fun x => forallb plain x = true) chunks ->
  forallb plain (join sep chunks) = true.
Proof.
  intros Hsep Hall. induction Hall as [|x chunks Hx Hall IH]; [reflexivity|].
  destruct chunks as [|y chunks]; [exact Hx|].
  rewrite join_cons2, !forallb_app, Hx, Hsep, IH. reflexivity.
Qed.

Lemma iterencode_plain v :
  forall lvl, valid_json v = true -> forallb plain (iterencode lvl v) = true.
Proof.
  induction v as [| b | n | f | s | l IH | d IH] using pyval_ind';
    intros lvl Hv.
  - reflexivity.
  - destruct b; reflexivity.
  - apply int_repr_plain.
  - destruct (valid_float f Hv) as (Hs & Hl & _). cbn [iterencode].
    rewrite Hs. apply float_literal_plain. exact Hl.
  - apply encode_basestring_plain. exact Hv.
  - destruct l as [|x l]; [reflexivity|].
    cbn [valid_json] in Hv. cbn [iterencode].
    rewrite !forallb_app, !newline_indent_plain.
    rewrite join_plain; [reflexivity| |].
    + cbn [forallb]. rewrite newline_indent_plain. reflexivity.
    + apply Forall_map. rewrite forallb_forall in Hv.
      rewrite List.Forall_forall in IH |- *.
      intros y Hy. apply IH; auto.
  - destruct d as [|kv d]; [reflexivity|].
    cbn [valid_json] in Hv. apply andb_true_iff in Hv. destruct Hv as [_ Hv].
    change (iterencode lvl (PDict (kv :: d)))
      with (lit "{" ++ newline_indent (S lvl)
            ++ join (ch "," :: newline_indent (S lvl))
                    (map (encode_item (S lvl)) (kv :: d))
            ++ newline_indent lvl ++ lit "}").
    rewrite !forallb_app, !newline_indent_plain.
    rewrite join_plain; [reflexivity| |].
    + cbn [forallb]. rewrite newline_indent_plain. reflexivity.
    + apply Forall_map. rewrite forallb_forall in Hv.
      rewrite List.Forall_forall in IH |- *.
      intros [k y] Hy. specialize (Hv _ Hy). specialize (IH _ Hy).
      cbn [snd] in IH. apply andb_true_iff in Hv. destruct Hv as [Hk Hvy].
      cbn [encode_item]. rewrite !forallb_app.
      rewrite (encode_basestring_plain k Hk), (IH (S lvl) Hvy). reflexivity.
Qed.

End PlainFacts.

(** ** What UTF-8 can encode of the encoder's text *)

Section ScalarFacts.
Context {rt : Runtime} {laws : FloatLaws rt}.

Lemma encode_none_iff t :
  Utf8.encode t = None <-> forallb is_scalar t = false.
Proof.
  induction t as [|c t IH]; cbn [Utf8.encode forallb]; [split; discriminate|].
  destruct (is_scalar c) eqn:Hc; cbn [andb].
  - assert (exists b, Utf8.encode_cp c = Some b) as [b ->].
    { unfold Utf8.encode_cp. rewrite Hc. cbn [negb].
      repeat match goal with
      | |- context [if ?b then _ else _] => destruct b
      end; eauto. }
    destruct (Utf8.encode t) as [bs|].
    + split; [discriminate|]. intros H. apply IH in H. discriminate H.
    + split; [|reflexivity]. intros _. apply IH. reflexivity.
  - unfold Utf8.encode_cp. rewrite Hc. cbn [negb]. split; reflexivity.
Qed.

(** A character that is not Unicode text is copied by the encoder. *)
Lemma escape_char_scalar c : forallb is_scalar (escape_char c) = is_scalar c.
Proof.
  destruct (is_scalar c) eqn:Hc.
  - apply plain_scalar, escape_char_plain. exact Hc.
  - assert (escape_char c = [c]) as ->.
    { unfold escape_char, dquote. chars.
      repeat match goal with
      | |- context [c =? ?k] =>
        destruct (Z.eqb_spec c k) as [->|_]; [vm_compute in Hc; discriminate|]
      end.
      destruct (Z.leb_spec 0 c), (Z.ltb_spec c 32); cbn [andb];
        try reflexivity.
      assert (is_scalar c = true); [|congruence].
      unfold is_scalar, is_surrogate.
      rewrite !andb_true_iff, negb_true_iff, andb_false_iff, !Z.leb_le,
        Z.leb_gt. lia. }
    cbn [forallb]. rewrite Hc. reflexivity.
Qed.

Lemma encode_basestring_scalar s :
  forallb is_scalar (encode_basestring s) = forallb is_scalar s.
Proof.
  unfold encode_basestring. cbn [forallb]. rewrite forallb_app.
  change (is_scalar dquote) with true. cbn [forallb andb].
  rewrite andb_true_r.
  induction s as [|c s IH]; [reflexivity|].
  cbn [flat_map forallb]. rewrite forallb_app, escape_char_scalar, IH.
  reflexivity.
Qed.

Lemma floatstr_scalar f : forallb is_scalar (floatstr f) = true.
Proof.
  unfold floatstr. destruct (float_classify f) eqn:Hf; try reflexivity.
  apply plain_scalar, float_literal_plain, float_repr_literal. exact Hf.
Qed.

Lemma newline_indent_scalar lvl : forallb is_scalar (newline_indent lvl) = true.
Proof. apply plain_scalar, newline_indent_plain. Qed.

Lemma join_scalar sep chunks :
  forallb is_scalar sep = true ->
  forallb is_scalar (join sep chunks) = forallb (forallb is_scalar) chunks.
Proof.
  intros Hsep. induction chunks as [|x chunks IH]; [reflexivity|].
  destruct chunks as [|y chunks].
  - cbn [join forallb]. rewrite andb_true_r. reflexivity.
  - rewrite join_cons2, !forallb_app, Hsep, IH. reflexivity.
Qed.

Lemma forallb_map_eq {A B : Type} (f : B -> bool) (g : A -> B)
    (h : A -> bool) l :
  Forall (fun a => f (g a) = h a) l -> forallb f (map g l) = forallb h l.
Proof.
  induction 1 as [|a l Ha _ IH]; [reflexivity|].
  cbn [map forallb]. rewrite Ha, IH. reflexivity.
Qed.

(** The encoded text is Unicode text exactly when every string of the
    value is. *)
Lemma iterencode_scalar v :
  forall lvl, forallb is_scalar (iterencode lvl v) = strings_scalar v.
Proof.
  induction v as [| b | n | f | s | l IH | d IH] using pyval_ind'; intros lvl.
  - reflexivity.
  - destruct b; reflexivity.
  - apply plain_scalar, int_repr_plain.
  - apply floatstr_scalar.
  - apply encode_basestring_scalar.
  - destruct l as [|x l]; [reflexivity|].
    cbn [iterencode strings_scalar].
    rewrite !forallb_app, !newline_indent_scalar.
    rewrite join_scalar
      by (cbn [forallb]; rewrite newline_indent_scalar; reflexivity).
    rewrite (forallb_map_eq _ _ strings_scalar).
    + change (forallb is_scalar (lit "[")) with true.
      change (forallb is_scalar (lit "]")) with true.
      rewrite !andb_true_r. reflexivity.
    + eapply Forall_impl; [exact IH|]. intros y Hy. apply Hy.
  - destruct d as [|kv d]; [reflexivity|].
    change (iterencode lvl (PDict (kv :: d)))
      with (lit "{" ++ newline_indent (S lvl)
            ++ join (ch "," :: newline_indent (S lvl))
                    (map (encode_item (S lvl)) (kv :: d))
            ++ newline_indent lvl ++ lit "}").
    cbn [strings_scalar].
    rewrite !forallb_app, !newline_indent_scalar.
    rewrite join_scalar
      by (cbn [forallb]; rewrite newline_indent_scalar; reflexivity).
    rewrite (forallb_map_eq _ _
               (fun kv : list Z * pyval =>
                  forallb is_scalar (fst kv) && strings_scalar (snd kv))).
    + change (forallb is_scalar (lit "{")) with true.
      change (forallb is_scalar (lit "}")) with true.
      rewrite !andb_true_r. reflexivity.
    + eapply Forall_impl; [exact IH|]. intros [k y] Hy. cbn [snd fst] in *.
      cbn [encode_item]. rewrite !forallb_app, encode_basestring_scalar, Hy.
      change (forallb is_scalar (lit ": ")) with true. reflexivity.
Qed.

Lemma json_dumps_encodable v :
  strings_scalar v = true -> exists b, Utf8.encode (json_dumps v) = Some b.
Proof.
  intros Hv. apply encode_scalar. unfold json_dumps.
  rewrite iterencode_scalar. exact Hv.
Qed.

Lemma json_dumps_unencodable v :
  strings_scalar v = false -> Utf8.encode (json_dumps v) = None.
Proof.
  intros Hv. apply encode_none_iff. unfold json_dumps.
  rewrite iterencode_scalar. exact Hv.
Qed.

(** The write of a text that UTF-8 cannot encode. *)
Lemma write_result_file_unencodable data w :
  faults w = [] ->
  Utf8.encode (json_dumps data) = None ->
  exists w',
    _write_result_file data w =
      (Raise (ExUnicodeError (unicode_encode_error_str (json_dumps data))), w')
    /\ files w' !! tmp_path_of (module_file w) = Some []
    /\ files w' !! result_path_of (module_file w)
       = files w !! result_path_of (module_file w).
Proof.
  intros Hf Hb.
  unfold _write_result_file, _write_sync, Fs.get_module_file, bind,
    Fs.write_text, bind, Fs.enter, Fs.set_files.
  rewrite Hf, Hb. simpl. eexists. split; [reflexivity|]. simpl.
  rewrite lookup_insert_eq, lookup_insert_ne by apply tmp_ne_result. auto.
Qed.

End ScalarFacts.

(** ** The small runtime satisfies what is assumed of the floats *)

Lemma digits_no_dot ds : digits ds -> Forall (fun c => (c =? ch ".") = false) ds.
Proof.
  induction 1 as [|d ds Hd _ IH]; constructor; [|exact IH].
  unfold JsonDecoder.is_digit in Hd. rewrite andb_true_iff, !Z.leb_le in Hd.
  chars. lia.
Qed.

Lemma repr_no_dot n : Forall (fun c => (c =? ch ".") = false) (PyInt.repr n).
Proof.
  destruct (repr_parts n) as (sg & ip & -> & Hsg & Hip).
  apply Forall_app. split.
  - destruct Hsg as [-> | ->]; repeat constructor.
  - destruct Hip as [-> | (d & ds & -> & Hd & Hds)]; [repeat constructor|].
    constructor; [chars; lia|apply digits_no_dot; exact Hds].
Qed.

Lemma integral_part_app t r :
  Forall (fun c => (c =? ch ".") = false) t ->
  integral_part (t ++ ch "." :: r) = t.
Proof.
  unfold integral_part. induction 1 as [|c t Hc _ IH]; cbn [app].
  - reflexivity.
  - rewrite Hc, IH. reflexivity.
Qed.

Lemma integral_runtime_laws : FloatLaws integral_runtime.
Proof.
  split; intros z _; cbn [float_repr float_of_lit integral_runtime].
  - destruct (repr_parts z) as (sg & ip & Hn & Hsg & Hip).
    exists sg, ip, (lit ".0"), []. rewrite Hn, app_nil_r, <- app_assoc.
    split; [reflexivity|]. split; [exact Hsg|]. split; [exact Hip|].
    split; [|split; [left; reflexivity|left; discriminate]].
    right. exists [ch "0"]. split; [reflexivity|].
    split; [discriminate|repeat constructor].
  - cbn [lit app]. rewrite integral_part_app by apply repr_no_dot.
    apply of_lit_repr.
Qed.

(** The runtime with [nan] and the infinities satisfies it too. *)
Lemma dot_zero_is_no_name (t : text) (name : string) :
  (name = "nan" \/ name = "inf" \/ name = "-inf")%string ->
  text_eqb (t ++ lit ".0") (lit name) = false.
Proof.
  intros Hname. destruct (text_eqb _ _) eqn:E; [|reflexivity].
  apply text_eqb_spec in E. apply (f_equal (@rev Z)) in E.
  rewrite rev_app_distr in E.
  destruct Hname as [-> | [-> | ->]]; discriminate E.
Qed.

Lemma extended_runtime_laws : FloatLaws extended_runtime.
Proof.
  split; intros [z| | |] Hc; try discriminate Hc;
    cbn [float_repr float_of_lit extended_runtime].
  - destruct (repr_parts z) as (sg & ip & Hn & Hsg & Hip).
    exists sg, ip, (lit ".0"), []. rewrite Hn, app_nil_r, <- app_assoc.
    split; [reflexivity|]. split; [exact Hsg|]. split; [exact Hip|].
    split; [|split; [left; reflexivity|left; discriminate]].
    right. exists [ch "0"]. split; [reflexivity|].
    split; [discriminate|repeat constructor].
  - rewrite !dot_zero_is_no_name by auto.
    cbn [lit app]. rewrite integral_part_app by apply repr_no_dot.
    f_equal. apply of_lit_repr.
Qed.

(** ** The fuel of the decoder always suffices

    Every function of the decoder consumes input: a result leaves less
    text than the function was given.  So [scan_once] never runs out of
    the fuel that [json_loads] gives it. *)

Section FuelFacts.
Context {rt : Runtime}.

Lemma consumes_weaken {A : Type} (r : res (A * list Z)) n m :
  consumes r n -> (n <= m)%nat -> consumes r m.
Proof. destruct r as [[a rest]|msg p]; cbn [consumes]; [lia|auto]. Qed.

Lemma consumes_err {A : Type} msg p n :
  msg <> fuel_msg -> consumes (A := A) (Err msg p) n.
Proof. trivial. Qed.

Lemma skip_ws_length s : (length (skip_ws s) <= length s)%nat.
Proof.
  induction s as [|c s IH]; cbn [skip_ws]; [lia|].
  destruct (is_ws c); cbn [length]; lia.
Qed.

Lemma scanstring_consumes n :
  forall s begin acc, (length s <= n)%nat ->
  consumes (scanstring begin acc s) (length s).
Proof.
  induction n as [|n IH]; intros s begin acc Hn.
  - destruct s; [|cbn in Hn; lia]. cbn. discriminate.
  - destruct s as [|c r]; [cbn; discriminate|].
    cbn [scanstring].
    repeat match goal with
    | |- consumes (if ?b then _ else _) _ => destruct b
    | |- consumes (match ?x with _ => _ end) _ => destruct x
    end;
    try (apply consumes_err; discriminate);
    try (cbn [consumes length]; lia);
    (eapply consumes_weaken; [apply IH|]; cbn [length] in *; lia).
Qed.

Lemma span_digits_length s :
  (length (snd (span_digits s)) <= length s)%nat.
Proof.
  induction s as [|c s IH]; cbn [span_digits]; [cbn; lia|].
  destruct (JsonDecoder.is_digit c); [|cbn; lia].
  destruct (span_digits s) as [ds r]. cbn [snd length] in *. lia.
Qed.

Lemma scan_int_length s ip r :
  scan_int s = Some (ip, r) -> (length r < length s)%nat.
Proof.
  unfold scan_int. destruct s as [|c s]; [discriminate|].
  destruct (_ && _).
  - pose proof (span_digits_length s) as H.
    destruct (span_digits s) as [ds r']. intros [= <- <-]. cbn [snd length] in *. lia.
  - destruct (c =? ch "0"); [|discriminate]. intros [= <- <-]. cbn. lia.
Qed.

Lemma scan_frac_length s fp r :
  scan_frac s = Some (fp, r) -> (length r <= length s)%nat.
Proof.
  unfold scan_frac. destruct s as [|c [|d s]]; try discriminate.
  destruct (_ && _); [|discriminate].
  pose proof (span_digits_length (d :: s)) as H.
  destruct (span_digits (d :: s)) as [ds r']. intros [= <- <-].
  cbn [snd length] in *. lia.
Qed.

Lemma scan_exp_length s ep r :
  scan_exp s = Some (ep, r) -> (length r <= length s)%nat.
Proof.
  unfold scan_exp. destruct s as [|c s]; [discriminate|].
  destruct (_ || _); [|discriminate].
  destruct s as [|sg s]; [discriminate|].
  destruct (_ || _).
  - pose proof (span_digits_length s) as H.
    destruct (span_digits s) as [[|d ds] r']; [discriminate|].
    intros [= <- <-]. cbn [snd length] in *. lia.
  - pose proof (span_digits_length (sg :: s)) as H.
    destruct (span_digits (sg :: s)) as [[|d ds] r']; [discriminate|].
    intros [= <- <-]. cbn [snd length] in *. lia.
Qed.

Lemma match_number_consumes s : consumes (match_number s) (length s).
Proof.
  unfold match_number.
  assert (Hsign : (length (snd (scan_sign s)) <= length s)%nat).
  { unfold scan_sign. destruct s as [|c s]; [cbn; lia|].
    destruct (c =? ch "-"); cbn; lia. }
  destruct (scan_sign s) as [sign s1]. cbn [snd] in Hsign.
  destruct (scan_int s1) as [[ip s2]|] eqn:Hint; [|cbn; discriminate].
  apply scan_int_length in Hint.
  assert (Hfrac : (length (snd (match scan_frac s2 with
                                 | Some (f, r) => (f, r)
                                 | None => ([], s2)
                                 end)) <= length s2)%nat).
  { destruct (scan_frac s2) as [[f r]|] eqn:Hf; [|cbn; lia].
    apply scan_frac_length in Hf. exact Hf. }
  destruct (match scan_frac s2 with Some (f, r) => (f, r) | None => ([], s2) end)
    as [fp s3]. cbn [snd] in Hfrac.
  assert (Hexp : (length (snd (match scan_exp s3 with
                                | Some (e, r) => (e, r)
                                | None => ([], s3)
                                end)) <= length s3)%nat).
  { destruct (scan_exp s3) as [[e r]|] eqn:He; [|cbn; lia].
    apply scan_exp_length in He. exact He. }
  destruct (match scan_exp s3 with Some (e, r) => (e, r) | None => ([], s3) end)
    as [ep s4]. cbn [snd] in Hexp.
  destruct fp; [destruct ep|]; cbn [consumes]; lia.
Qed.

Lemma strip_prefix_length p s r :
  strip_prefix p s = Some r -> (length r + length p = length s)%nat.
Proof.
  revert s; induction p as [|a p IH]; intros s; cbn [strip_prefix].
  - intros [= ->]. cbn. lia.
  - destruct s as [|b s]; [discriminate|].
    destruct (a =? b); [|discriminate]. intros H. apply IH in H. cbn. lia.
Qed.

(** The three functions of the scanner, by induction on the fuel. *)
Lemma scanner_consumes fuel :
  (forall s, (2 * length s + 1 <= fuel)%nat ->
             consumes (scan_once fuel s) (length s))
  /\ (forall acc s, (2 * length s + 2 <= fuel)%nat ->
                    consumes (parse_array fuel acc s) (length s))
  /\ (forall acc s, (2 * length s + 2 <= fuel)%nat ->
                    consumes (parse_object fuel acc s) (S (length s))).
Proof.
  induction fuel as [|fuel (IHscan & IHarr & IHobj)].
  - repeat split; intros; lia.
  - split; [|split].
    + intros [|c r] Hfuel; [cbn; discriminate|].
      rewrite scan_once_eq. cbn [length] in *.
      destruct (c =? dquote).
      { pose proof (scanstring_consumes (length r) r (S (length r)) []
                      (le_n _)) as Hs.
        cbn [length]. destruct (scanstring _ _ r) as [[str r']|m p];
          cbn [consumes] in *; [lia|exact Hs]. }
      destruct (c =? ch "{").
      { pose proof (skip_ws_length r) as Hws.
        destruct (skip_ws r) as [|c' r'] eqn:Hr.
        - eapply consumes_weaken; [apply IHobj|]; cbn [length]; lia.
        - cbn [length] in Hws. destruct (c' =? ch "}"); [cbn; lia|].
          eapply consumes_weaken; [apply IHobj|]; cbn [length]; lia. }
      destruct (c =? ch "[").
      { pose proof (skip_ws_length r) as Hws.
        destruct (skip_ws r) as [|c' r'] eqn:Hr.
        - eapply consumes_weaken; [apply IHarr|]; cbn [length]; lia.
        - cbn [length] in Hws. destruct (c' =? ch "]"); [cbn; lia|].
          eapply consumes_weaken; [apply IHarr|]; cbn [length]; lia. }
      repeat match goal with
      | |- consumes (match strip_prefix ?p ?s with _ => _ end) _ =>
        let H := fresh "Hp" in
        destruct (strip_prefix p s) eqn:H;
          [apply strip_prefix_length in H; cbn [consumes length lit] in *; lia|]
      end.
      apply (match_number_consumes (c :: r)).
    + intros acc s Hfuel. rewrite parse_array_eq.
      pose proof (IHscan s ltac:(lia)) as Hs.
      destruct (scan_once fuel s) as [[v r]|m p]; cbn [consumes] in Hs;
        [|exact Hs].
      pose proof (skip_ws_length r) as Hws.
      destruct (skip_ws r) as [|c r'] eqn:Hr; [cbn; discriminate|].
      cbn [length] in Hws.
      destruct (c =? ch "]"); [cbn; lia|].
      destruct (c =? ch ","); [|cbn; discriminate].
      pose proof (skip_ws_length r') as Hws'.
      eapply consumes_weaken; [apply IHarr|]; lia.
    + intros acc [|q r] Hfuel; [cbn; discriminate|].
      rewrite parse_object_eq. cbn [length] in *.
      destruct (q =? dquote); [|cbn; discriminate].
      pose proof (scanstring_consumes (length r) r (S (length r)) []
                    (le_n _)) as Hs.
      destruct (scanstring _ _ r) as [[key r1]|m p]; cbn [consumes] in Hs;
        [|exact Hs].
      pose proof (skip_ws_length r1) as Hws1.
      destruct (skip_ws r1) as [|c r2] eqn:Hr1; [cbn; discriminate|].
      cbn [length] in Hws1.
      destruct (c =? ch ":"); [|cbn; discriminate].
      pose proof (skip_ws_length r2) as Hws2.
      pose proof (IHscan (skip_ws r2) ltac:(lia)) as Hv.
      destruct (scan_once fuel (skip_ws r2)) as [[v r3]|m p];
        cbn [consumes] in Hv; [|exact Hv].
      pose proof (skip_ws_length r3) as Hws3.
      destruct (skip_ws r3) as [|c' r4] eqn:Hr3; [cbn; discriminate|].
      cbn [length] in Hws3.
      destruct (c' =? ch "}"); [cbn; lia|].
      destruct (c' =? ch ","); [|cbn; discriminate].
      pose proof (skip_ws_length r4) as Hws4.
      eapply consumes_weaken; [apply IHobj|]; lia.
Qed.

(** [json_loads] never fails for lack of fuel. *)
Lemma json_loads_total s e :
  json_loads s = inr e -> err_msg e <> fuel_msg.
Proof.
  unfold json_loads. destruct (starts_with_bom s).
  - intros [= <-]. discriminate.
  - pose proof (skip_ws_length s) as Hws.
    pose proof (proj1 (scanner_consumes (2 * length s + 1)) (skip_ws s)
                  ltac:(lia)) as Hc.
    destruct (scan_once _ (skip_ws s)) as [[v r]|m p]; cbn [consumes] in Hc.
    + destruct (skip_ws r); [discriminate|]. intros [= <-]. discriminate.
    + intros [= <-]. exact Hc.
Qed.

End FuelFacts.

(** ** What the substitutions and the scanner keep *)

Section SubstitutionKeeps.
Context {rt : Runtime}.
Variable P : Z -> bool.

Lemma forallb_firstn n (s : text) :
  forallb P s = true -> forallb P (firstn n s) = true.
Proof.
  revert n. induction s as [|c s IH]; intros [|n]; cbn [firstn forallb]; auto.
  rewrite !andb_true_iff. intros [Hc Hs]. auto.
Qed.

(** A match continues on a rest of the text, with groups cut out of the
    text. *)
Lemma rmatch_keeps r :
  forall (A : Type) prev s caps
         (k : option Z -> text -> captures -> option A) (a : A),
    forallb P s = true -> caps_ok P caps = true ->
    rmatch r prev s caps k = Some a ->
    exists prev' s' caps',
      k prev' s' caps' = Some a
      /\ forallb P s' = true /\ caps_ok P caps' = true.
Proof.
  induction r as [c | p | r1 IH1 r2 IH2 | r1 IH1 | r1 IH1 | n r1 IH1
                  | i r1 IH1 | ]; intros A prev s caps k a Hs Hc.
  - cbn [rmatch]. destruct s as [|x s']; [discriminate|].
    cbn [forallb] in Hs. apply andb_true_iff in Hs. destruct Hs as [_ Hs].
    destruct (x =? c); [|discriminate]. eauto 10.
  - cbn [rmatch]. destruct s as [|x s']; [discriminate|].
    cbn [forallb] in Hs. apply andb_true_iff in Hs. destruct Hs as [_ Hs].
    destruct (p x); [|discriminate]. eauto 10.
  - cbn [rmatch]. intros H.
    apply IH1 in H; [|assumption|assumption].
    destruct H as (prev1 & s1 & caps1 & H & Hs1 & Hc1).
    apply IH2 in H; assumption.
  - cbn [rmatch]. remember (length s) as n eqn:Hn. clear Hn.
    revert prev s caps Hs Hc.
    induction n as [|n IHn]; intros prev s caps Hs Hc H; [eauto 10|].
    match type of H with
    | match ?m with _ => _ end = _ => destruct m as [a0|] eqn:Hm
    end; [|eauto 10].
    injection H as ->.
    apply IH1 in Hm; [|assumption|assumption].
    destruct Hm as (prev1 & s1 & caps1 & H & Hs1 & Hc1).
    destruct (length s1 <? length s)%nat; [|discriminate].
    apply IHn in H; assumption.
  - cbn [rmatch]. intros H.
    destruct (rmatch r1 prev s caps k) as [a0|] eqn:Hm; [|eauto 10].
    injection H as ->. apply IH1 in Hm; assumption.
  - cbn [rmatch]. revert prev s caps Hs Hc.
    induction n as [|n IHn]; intros prev s caps Hs Hc H; [eauto 10|].
    apply IH1 in H; [|assumption|assumption].
    destruct H as (prev1 & s1 & caps1 & H & Hs1 & Hc1).
    apply IHn in H; assumption.
  - cbn [rmatch]. intros H.
    apply IH1 in H; [|assumption|assumption].
    destruct H as (prev1 & s1 & caps1 & H & Hs1 & Hc1).
    eexists _, _, _. split; [exact H|]. split; [exact Hs1|].
    cbn [caps_ok forallb snd]. rewrite forallb_firstn by exact Hs.
    exact Hc1.
  - cbn [rmatch]. destruct (xorb _ _); [|discriminate]. eauto 10.
Qed.

Lemma group_keeps caps i :
  caps_ok P caps = true -> forallb P (group caps i) = true.
Proof.
  induction caps as [|[j t] caps IH]; [reflexivity|].
  cbn [caps_ok forallb snd group]. rewrite andb_true_iff. intros [Ht Hc].
  destruct (i =? j)%nat; auto.
Qed.

Lemma expand_keeps tm caps :
  tmpl_ok P tm = true -> caps_ok P caps = true ->
  forallb P (expand tm caps) = true.
Proof.
  intros Htm Hc. induction tm as [|[t|i] tm IH]; [reflexivity| |];
    cbn [tmpl_ok forallb] in Htm; apply andb_true_iff in Htm;
    destruct Htm as [Ht Htm]; cbn [expand]; rewrite forallb_app, IH by exact Htm.
  - rewrite Ht. reflexivity.
  - rewrite group_keeps by exact Hc. reflexivity.
Qed.

(** [re.sub] builds its result from the text and the literals of the
    replacement. *)
Lemma sub_loop_keeps r tm :
  tmpl_ok P tm = true ->
  forall fuel prev s,
    forallb P s = true -> forallb P (sub_loop fuel r tm prev s) = true.
Proof.
  intros Htm. induction fuel as [|fuel IH]; intros prev s Hs; [exact Hs|].
  cbn [sub_loop].
  assert (Hcopy : forallb P match s with
                            | [] => []
                            | c :: s' => c :: sub_loop fuel r tm (Some c) s'
                            end = true).
  { destruct s as [|c s']; [reflexivity|]. cbn [forallb] in *.
    apply andb_true_iff in Hs. destruct Hs as [Hc Hs].
    rewrite Hc, IH by exact Hs. reflexivity. }
  destruct (match_here r prev s) as [[[prev' s'] caps]|] eqn:Hm;
    [|exact Hcopy].
  unfold match_here in Hm.
  apply rmatch_keeps in Hm; [|exact Hs|reflexivity].
  destruct Hm as (prev1 & s1 & caps1 & [= -> -> ->] & Hs1 & Hc1).
  destruct (length s' <? length s)%nat; rewrite forallb_app,
    expand_keeps by assumption; [apply IH; exact Hs1|exact Hcopy].
Qed.

Lemma re_sub_keeps r tm s :
  tmpl_ok P tm = true -> forallb P s = true ->
  forallb P (re_sub r tm s) = true.
Proof. intros Htm Hs. apply sub_loop_keeps; assumption. Qed.

(** What a scanner leaves is a rest of its input. *)
Lemma skip_ws_keeps s : forallb P s = true -> forallb P (skip_ws s) = true.
Proof.
  induction s as [|c s IH]; [auto|]. cbn [skip_ws].
  destruct (is_ws c); [|auto]. cbn [forallb]. rewrite andb_true_iff.
  intros [_ H]. auto.
Qed.

Lemma span_digits_keeps s :
  forallb P s = true -> forallb P (snd (span_digits s)) = true.
Proof.
  induction s as [|c s IH]; [auto|]. cbn [span_digits].
  destruct (JsonDecoder.is_digit c); [|auto].
  cbn [forallb]. rewrite andb_true_iff. intros [_ H]. apply IH in H.
  destruct (span_digits s). exact H.
Qed.

Lemma scan_int_keeps s ip r :
  forallb P s = true -> scan_int s = Some (ip, r) -> forallb P r = true.
Proof.
  destruct s as [|c s]; [discriminate|]. cbn [scan_int forallb].
  rewrite andb_true_iff. intros [_ H].
  destruct ((ch "1" <=? c) && (c <=? ch "9")).
  - apply span_digits_keeps in H. destruct (span_digits s).
    intros [= <- <-]. exact H.
  - destruct (c =? ch "0"); intros [= <- <-]. exact H.
Qed.

Lemma scan_frac_keeps s fp r :
  forallb P s = true -> scan_frac s = Some (fp, r) -> forallb P r = true.
Proof.
  destruct s as [|c [|d s]]; try discriminate. cbn [scan_frac].
  intros H. cbn [forallb] in H. apply andb_true_iff in H.
  destruct H as [_ H]. change (forallb P (d :: s) = true) in H.
  destruct ((c =? ch ".") && JsonDecoder.is_digit d); [|discriminate].
  apply span_digits_keeps in H. destruct (span_digits (d :: s)).
  intros [= <- <-]. exact H.
Qed.

Lemma scan_exp_keeps s ep r :
  forallb P s = true -> scan_exp s = Some (ep, r) -> forallb P r = true.
Proof.
  destruct s as [|c s]; [discriminate|]. cbn [scan_exp].
  intros H. cbn [forallb] in H. apply andb_true_iff in H.
  destruct H as [_ H].
  destruct ((c =? ch "e") || (c =? ch "E")); [|discriminate].
  destruct s as [|sg s1]; [discriminate|].
  destruct ((sg =? ch "-") || (sg =? ch "+")).
  - cbn [forallb] in H. apply andb_true_iff in H. destruct H as [_ H].
    apply span_digits_keeps in H. destruct (span_digits s1) as [[|d ds] r'];
      [discriminate|]. intros [= <- <-]. exact H.
  - apply span_digits_keeps in H.
    destruct (span_digits (sg :: s1)) as [[|d ds] r']; [discriminate|].
    intros [= <- <-]. exact H.
Qed.

Lemma scan_sign_keeps s :
  forallb P s = true -> forallb P (snd (scan_sign s)) = true.
Proof.
  destruct s as [|c s]; [auto|]. cbn [scan_sign].
  destruct (c =? ch "-"); [|auto]. cbn [forallb snd].
  rewrite andb_true_iff. tauto.
Qed.

Lemma match_number_keeps s v r :
  forallb P s = true -> match_number s = Ok (v, r) ->
  strings_scalar v = true /\ forallb P r = true.
Proof.
  intros H. unfold match_number. apply scan_sign_keeps in H.
  destruct (scan_sign s) as [sign s1]. cbn [snd] in H.
  destruct (scan_int s1) as [[ip s2]|] eqn:Hi; [|discriminate].
  apply (scan_int_keeps _ _ _ H) in Hi.
  assert (H3 : forallb P (snd (match scan_frac s2 with
                               | Some (f, r) => (f, r)
                               | None => ([], s2)
                               end)) = true).
  { destruct (scan_frac s2) as [[f r0]|] eqn:Hf; [|exact Hi].
    exact (scan_frac_keeps _ _ _ Hi Hf). }
  destruct (match scan_frac s2 with Some (f, r) => (f, r) | None => ([], s2) end)
    as [fp s3]. cbn [snd] in H3.
  assert (H4 : forallb P (snd (match scan_exp s3 with
                               | Some (e, r) => (e, r)
                               | None => ([], s3)
                               end)) = true).
  { destruct (scan_exp s3) as [[e r0]|] eqn:He; [|exact H3].
    exact (scan_exp_keeps _ _ _ H3 He). }
  destruct (match scan_exp s3 with Some (e, r) => (e, r) | None => ([], s3) end)
    as [ep s4]. cbn [snd] in H4.
  destruct fp; [destruct ep|]; intros [= <- <-]; auto.
Qed.

Lemma strip_prefix_keeps p s r :
  forallb P s = true -> strip_prefix p s = Some r -> forallb P r = true.
Proof.
  revert s. induction p as [|a p IH]; intros s Hs.
  - cbn [strip_prefix]. intros [= <-]. exact Hs.
  - destruct s as [|b s]; [discriminate|]. cbn [strip_prefix].
    cbn [forallb] in Hs. apply andb_true_iff in Hs. destruct Hs as [_ Hs].
    destruct (a =? b); [|discriminate]. apply IH. exact Hs.
Qed.

End SubstitutionKeeps.


(** ** The console and the rendering of a response *)

Lemma forallb_forall_true {A : Type} (l : list A) :
  forallb (fun _ => true) l = true.
Proof. induction l as [|a l IH]; [reflexivity|exact IH]. Qed.

Lemma forallb_false_exists {A : Type} (f : A -> bool) l :
  forallb f l = false -> exists a, In a l /\ f a = false.
Proof.
  induction l as [|a l IH]; [discriminate|]. cbn [forallb].
  destruct (f a) eqn:Ha.
  - intros H. destruct (IH H) as (b & Hb & Hfb). exists b. split; [right|]; auto.
  - intros _. exists a. split; [left; reflexivity|exact Ha].
Qed.

Lemma forallb_false_intro {A : Type} (f : A -> bool) a l :
  In a l -> f a = false -> forallb f l = false.
Proof.
  intros Hin Ha. destruct (forallb f l) eqn:H; [|reflexivity].
  rewrite forallb_forall in H. rewrite (H a Hin) in Ha. discriminate.
Qed.

Lemma existsb_false_forall {A : Type} (f : A -> bool) l :
  (forall a, In a l -> f a = false) -> existsb f l = false.
Proof.
  intros H. induction l as [|a l IH]; [reflexivity|]. cbn [existsb].
  rewrite (H a (or_introl eq_refl)), IH; [reflexivity|].
  intros b Hb. apply H. right. exact Hb.
Qed.

Section TextFacts.
Context {rt : Runtime}.

Lemma ch_scalar a : is_scalar (ch a) = true.
Proof. destruct a as [[] [] [] [] [] [] [] []]; reflexivity. Qed.

Lemma lit_scalar s : forallb is_scalar (lit s) = true.
Proof.
  induction s as [|a s IH]; [reflexivity|].
  cbn [lit forallb]. rewrite ch_scalar, IH. reflexivity.
Qed.

Lemma nat_repr_scalar n : forallb is_scalar (nat_repr n) = true.
Proof. apply plain_scalar, int_repr_plain. Qed.

(** The text of a parse error is ASCII. *)
Lemma str_JSONDecodeError_scalar e :
  forallb is_scalar (str_JSONDecodeError e) = true.
Proof.
  unfold str_JSONDecodeError.
  rewrite !forallb_app, !lit_scalar, !nat_repr_scalar. reflexivity.
Qed.

Lemma decode_ignore_scalar bs :
  forallb is_scalar (Utf8.decode_ignore bs) = true.
Proof. apply (decode_ignore_scalar_bounded (length bs)). lia. Qed.

Lemma repair_scalar s :
  forallb is_scalar s = true -> forallb is_scalar (repair s) = true.
Proof.
  intros Hs. unfold repair.
  repeat (apply re_sub_keeps; [reflexivity|]). exact Hs.
Qed.

(** The texts the parser returns for a text that is Unicode text. *)
Lemma try_parse_texts_scalar raw_text :
  forallb is_scalar raw_text = true ->
  forallb is_scalar (str_optional (snd (_try_parse_mt5_json raw_text))) = true
  /\ match snd (fst (_try_parse_mt5_json raw_text)) with
     | Some r => forallb is_scalar r = true
     | None => True
     end.
Proof.
  intros Hs. unfold _try_parse_mt5_json.
  destruct (json_loads raw_text) as [v|e1]; [split; [reflexivity|exact I]|].
  destruct (json_loads (repair raw_text)) as [v|e2]; cbn [fst snd str_optional].
  - split; [reflexivity|apply repair_scalar; exact Hs].
  - split; [|apply repair_scalar; exact Hs].
    rewrite !forallb_app, !str_JSONDecodeError_scalar, lit_scalar. reflexivity.
Qed.

(** [print] of Unicode text returns. *)
Lemma print_str_ok t w :
  forallb is_scalar t = true -> print_str t w = (Return tt, w).
Proof.
  intros Ht. unfold print_str. destruct (encode_scalar t Ht) as [b ->].
  reflexivity.
Qed.

Lemma print_str_surrogate t w :
  forallb is_scalar t = false ->
  print_str t w = (Raise (ExUnicodeError (unicode_encode_error_str t)), w).
Proof.
  intros Ht. unfold print_str. rewrite (proj2 (encode_none_iff t) Ht).
  reflexivity.
Qed.

(** The compact text of a value is Unicode text when its strings and the
    texts of its floats are. *)
Lemma iterencode_compact_scalar v :
  strings_scalar v = true -> floats_scalar v = true ->
  forallb is_scalar (iterencode_compact v) = true.
Proof.
  induction v as [| b | n | f | s | l IH | d IH] using pyval_ind';
    intros Hs Hf.
  - reflexivity.
  - destruct b; reflexivity.
  - apply plain_scalar, int_repr_plain.
  - exact Hf.
  - cbn [iterencode_compact]. rewrite encode_basestring_scalar. exact Hs.
  - cbn [iterencode_compact strings_scalar floats_scalar] in *.
    rewrite !forallb_app, join_scalar by reflexivity.
    rewrite (forallb_map_eq _ _ (fun _ => true)).
    + rewrite forallb_forall_true. reflexivity.
    + rewrite forallb_forall in Hs, Hf. rewrite List.Forall_forall in IH |- *.
      intros y Hy. apply IH; auto.
  - change (iterencode_compact (PDict d))
      with (lit "{"
            ++ join (lit ",")
                 (map (fun kv : list Z * pyval =>
                         let (key, value) := kv in
                         encode_basestring key ++ lit ":"
                         ++ iterencode_compact value) d)
            ++ lit "}").
    cbn [strings_scalar floats_scalar] in *.
    rewrite !forallb_app, join_scalar by reflexivity.
    rewrite (forallb_map_eq _ _ (fun _ => true)).
    + rewrite forallb_forall_true. reflexivity.
    + rewrite forallb_forall in Hs, Hf. rewrite List.Forall_forall in IH |- *.
      intros [k y] Hy. specialize (Hs _ Hy). specialize (Hf _ Hy).
      specialize (IH _ Hy). cbn [fst snd] in *.
      apply andb_true_iff in Hs. destruct Hs as [Hk Hy'].
      rewrite !forallb_app, encode_basestring_scalar, Hk, (IH Hy' Hf).
      reflexivity.
Qed.

(** A value with a lone surrogate has one in its compact text. *)
Lemma iterencode_compact_surrogate v :
  strings_scalar v = false ->
  forallb is_scalar (iterencode_compact v) = false.
Proof.
  induction v as [| b | n | f | s | l IH | d IH] using pyval_ind';
    intros Hs; try discriminate Hs.
  - cbn [iterencode_compact]. rewrite encode_basestring_scalar. exact Hs.
  - cbn [iterencode_compact strings_scalar] in *.
    rewrite !forallb_app, join_scalar by reflexivity.
    apply forallb_false_exists in Hs. destruct Hs as (y & Hy & Hys).
    rewrite List.Forall_forall in IH.
    rewrite (forallb_false_intro _ (iterencode_compact y));
      [reflexivity|apply in_map; exact Hy|apply IH; assumption].
  - change (iterencode_compact (PDict d))
      with (lit "{"
            ++ join (lit ",")
                 (map (fun kv : list Z * pyval =>
                         let (key, value) := kv in
                         encode_basestring key ++ lit ":"
                         ++ iterencode_compact value) d)
            ++ lit "}").
    cbn [strings_scalar] in *.
    rewrite !forallb_app, join_scalar by reflexivity.
    apply forallb_false_exists in Hs. destruct Hs as ([k y] & Hy & Hys).
    rewrite List.Forall_forall in IH. specialize (IH _ Hy).
    cbn [fst snd] in *.
    rewrite (forallb_false_intro _
               (encode_basestring k ++ lit ":" ++ iterencode_compact y));
      [reflexivity| |].
    + apply (in_map (fun kv : list Z * pyval =>
                       let (key, value) := kv in
                       encode_basestring key ++ lit ":"
                       ++ iterencode_compact value) d (k, y) Hy).
    + rewrite !forallb_app, encode_basestring_scalar.
      apply andb_false_iff in Hys. destruct Hys as [Hk | Hy'].
      * rewrite Hk. reflexivity.
      * rewrite (IH Hy'). rewrite !andb_false_r. reflexivity.
Qed.

(** The three ways the constructor of the response ends. *)
Lemma JSONResponse_ok status content :
  has_nonfinite content = false ->
  strings_scalar content = true -> floats_scalar content = true ->
  JSONResponse_outcome status content = Return (JSONResponse status content).
Proof.
  intros Hn Hs Hf. unfold JSONResponse_outcome, json_dumps_compact.
  rewrite Hn.
  destruct (encode_scalar _ (iterencode_compact_scalar content Hs Hf))
    as [b ->].
  reflexivity.
Qed.

Lemma JSONResponse_nonfinite status content :
  has_nonfinite content = true ->
  JSONResponse_outcome status content = Raise (ExValueError out_of_range_msg).
Proof.
  intros Hn. unfold JSONResponse_outcome, json_dumps_compact. rewrite Hn.
  reflexivity.
Qed.

Lemma JSONResponse_surrogate status content :
  has_nonfinite content = false -> strings_scalar content = false ->
  JSONResponse_outcome status content
  = Raise (ExUnicodeError
             (unicode_encode_error_str (iterencode_compact content))).
Proof.
  intros Hn Hs. unfold JSONResponse_outcome, json_dumps_compact. rewrite Hn.
  rewrite (proj2 (encode_none_iff _) (iterencode_compact_surrogate _ Hs)).
  reflexivity.
Qed.

End TextFacts.

Section RenderLaws.
Context {rt : Runtime} {laws : FloatLaws rt}.

(** With the floats as assumed, the text of every float is ASCII. *)
Lemma floats_scalar_all v : floats_scalar v = true.
Proof.
  induction v as [| b | n | f | s | l IH | d IH] using pyval_ind';
    try reflexivity.
  - apply floatstr_scalar.
  - cbn [floats_scalar]. apply forallb_forall.
    rewrite List.Forall_forall in IH. exact IH.
  - cbn [floats_scalar]. apply forallb_forall.
    rewrite List.Forall_forall in IH. exact IH.
Qed.

(** A value that is valid JSON has finite floats and strings that are
    Unicode text. *)
Lemma valid_json_renders v :
  valid_json v = true -> has_nonfinite v = false /\ strings_scalar v = true.
Proof.
  induction v as [| b | n | f | s | l IH | d IH] using pyval_ind';
    intros Hv; try (split; reflexivity).
  - cbn [valid_json has_nonfinite] in *.
    destruct (float_classify f); try discriminate. split; reflexivity.
  - split; [reflexivity|exact Hv].
  - cbn [valid_json has_nonfinite strings_scalar] in *.
    rewrite forallb_forall in Hv. rewrite List.Forall_forall in IH. split.
    + apply existsb_false_forall. intros y Hy. apply (IH y Hy). auto.
    + apply forallb_forall. intros y Hy. apply (IH y Hy). auto.
  - cbn [valid_json has_nonfinite strings_scalar] in *.
    apply andb_true_iff in Hv. destruct Hv as [_ Hv].
    rewrite forallb_forall in Hv. rewrite List.Forall_forall in IH. split.
    + apply existsb_false_forall. intros [k y] Hy. specialize (Hv _ Hy).
      apply andb_true_iff in Hv. apply (IH _ Hy). tauto.
    + apply forallb_forall. intros [k y] Hy. specialize (Hv _ Hy).
      apply andb_true_iff in Hv. destruct Hv as [Hk Hy'].
      cbn [fst snd]. rewrite Hk. apply (IH _ Hy). exact Hy'.
Qed.

Lemma JSONResponse_valid status v :
  has_nonfinite v = false -> strings_scalar v = true ->
  JSONResponse_outcome status v = Return (JSONResponse status v).
Proof.
  intros Hn Hs. apply JSONResponse_ok; [exact Hn|exact Hs|].
  apply floats_scalar_all.
Qed.

End RenderLaws.

(** ** The steps of the webhook handler *)

Section WebhookSteps.
Context {rt : Runtime}.

(** The body of the 400 response can always be rendered. *)
Lemma invalid_json_body_renders raw_body :
  let raw_text := Utf8.decode_ignore raw_body in
  let p := _try_parse_mt5_json raw_text in
  let body :=
    PDict [(lit "status", PStr (lit "invalid_json"));
           (lit "error", PStr (str_optional (snd p)));
           (lit "raw", PStr raw_text);
           (lit "repaired", repaired_field (snd (fst p)) raw_text)] in
  JSONResponse_outcome 400 body = Return (JSONResponse 400 body).
Proof.
  intros raw_text p body.
  pose proof (decode_ignore_scalar raw_body) as Hraw. fold raw_text in Hraw.
  destruct (try_parse_texts_scalar raw_text Hraw) as [Herr Hrep].
  fold p in Herr, Hrep.
  assert (Hfield : has_nonfinite (repaired_field (snd (fst p)) raw_text) = false
                   /\ strings_scalar (repaired_field (snd (fst p)) raw_text) = true
                   /\ floats_scalar (repaired_field (snd (fst p)) raw_text) = true).
  { unfold repaired_field. destruct (snd (fst p)) as [r|]; [|auto].
    destruct (text_eqb r raw_text); auto. }
  destruct Hfield as (Hn & Hs & Hf).
  apply JSONResponse_ok; unfold body.
  - cbn [has_nonfinite existsb snd]. rewrite Hn. reflexivity.
  - cbn [strings_scalar forallb fst snd]. rewrite !lit_scalar, Herr, Hraw, Hs.
    reflexivity.
  - cbn [floats_scalar forallb snd]. rewrite Hf. reflexivity.
Qed.

(** Without a payload: the console takes what is printed, the empty
    mapping is written and the 400 response is built. *)
Lemma webhook_without_payload raw_body w :
  let raw_text := Utf8.decode_ignore raw_body in
  let p := _try_parse_mt5_json raw_text in
  is_None (fst (fst p)) = true ->
  webhook_from_mt5 raw_body w
  = match _write_result_file (PDict []) w with
    | (Return _, w') =>
      (Return (JSONResponse 400
                 (PDict [(lit "status", PStr (lit "invalid_json"));
                         (lit "error", PStr (str_optional (snd p)));
                         (lit "raw", PStr raw_text);
                         (lit "repaired",
                          repaired_field (snd (fst p)) raw_text)])), w')
    | (Raise e, w') => (Raise e, w')
    end.
Proof.
  intros raw_text p Hnone.
  pose proof (invalid_json_body_renders raw_body) as Hrender.
  pose proof (decode_ignore_scalar raw_body) as Hraw.
  destruct (try_parse_texts_scalar _ Hraw) as [Herr Hrep].
  cbv zeta in Hrender. fold raw_text in Hrender, Herr, Hrep.
  fold p in Hrender, Herr, Hrep.
  unfold webhook_from_mt5. fold raw_text. fold p.
  destruct p as [[payload repaired_text] parse_error]. cbn [fst snd] in *.
  rewrite Hnone. unfold bind at 1. rewrite (print_str_ok _ w Herr).
  unfold bind at 1.
  assert (Hprint : match repaired_text with
                   | Some r => if text_eqb r raw_text then ret tt else print_str r
                   | None => ret tt
                   end w = (Return tt, w)).
  { destruct repaired_text as [r|]; [|reflexivity].
    destruct (text_eqb r raw_text); [reflexivity|].
    apply print_str_ok. exact Hrep. }
  rewrite Hprint. unfold bind.
  destruct (_write_result_file (PDict []) w) as [[[]|e] w']; [|reflexivity].
  unfold JSONResponse_init. rewrite Hrender. reflexivity.
Qed.

(** With a payload: the payload is printed, then written, then the 200
    response is built. *)
Lemma webhook_with_payload raw_body w :
  let payload :=
    fst (fst (_try_parse_mt5_json (Utf8.decode_ignore raw_body))) in
  is_None payload = false ->
  webhook_from_mt5 raw_body w
  = match print_payload payload w with
    | (Return _, w0) =>
      match _write_result_file payload w0 with
      | (Return _, w') =>
        (JSONResponse_outcome 200
           (PDict [(lit "status", PStr (lit "ok"));
                   (lit "received", payload)]), w')
      | (Raise e, w') => (Raise e, w')
      end
    | (Raise e, w0) => (Raise e, w0)
    end.
Proof.
  intros payload Hnone. unfold webhook_from_mt5. subst payload.
  destruct (_try_parse_mt5_json (Utf8.decode_ignore raw_body))
    as [[payload repaired_text] parse_error]. cbn [fst] in *.
  rewrite Hnone. unfold bind.
  destruct (print_payload payload w) as [[[]|e] w0]; [|reflexivity].
  destruct (_write_result_file payload w0) as [[[]|e] w']; reflexivity.
Qed.

(** Printing the payload leaves the world as it is, and fails only for
    a string that UTF-8 cannot encode. *)
Lemma print_payload_run payload w :
  print_payload payload w
  = match payload with
    | PStr s =>
      if forallb is_scalar s then (Return tt, w)
      else (Raise (ExUnicodeError (unicode_encode_error_str s)), w)
    | _ => (Return tt, w)
    end.
Proof.
  destruct payload as [| b | n | f | s | l | d]; try reflexivity.
  cbn [print_payload]. destruct (forallb is_scalar s) eqn:Hs.
  - apply print_str_ok. exact Hs.
  - apply print_str_surrogate. exact Hs.
Qed.

Lemma print_payload_ok payload w :
  strings_scalar payload = true -> print_payload payload w = (Return tt, w).
Proof.
  intros Hs. rewrite print_payload_run.
  destruct payload; try reflexivity. cbn [strings_scalar] in Hs.
  rewrite Hs. reflexivity.
Qed.

(** The content of the 200 response renders as the payload does. *)
Lemma ok_body_nonfinite payload :
  has_nonfinite (PDict [(lit "status", PStr (lit "ok"));
                        (lit "received", payload)])
  = has_nonfinite payload.
Proof. cbn [has_nonfinite existsb snd]. rewrite orb_false_r. reflexivity. Qed.

Lemma ok_body_strings payload :
  strings_scalar (PDict [(lit "status", PStr (lit "ok"));
                         (lit "received", payload)])
  = strings_scalar payload.
Proof.
  cbn [strings_scalar forallb fst snd]. rewrite !lit_scalar. cbn [andb].
  rewrite andb_true_r. reflexivity.
Qed.

Lemma ok_body_floats payload :
  floats_scalar (PDict [(lit "status", PStr (lit "ok"));
                        (lit "received", payload)])
  = floats_scalar payload.
Proof. cbn [floats_scalar forallb snd]. rewrite andb_true_r. reflexivity. Qed.

(** What the constructor returns, when it returns. *)
Lemma JSONResponse_outcome_return status content resp :
  JSONResponse_outcome status content = Return resp ->
  resp = JSONResponse status content.
Proof.
  unfold JSONResponse_outcome. destruct (json_dumps_compact content);
    [|discriminate].
  destruct (Utf8.encode _); [|discriminate]. intros [= <-]. reflexivity.
Qed.

End WebhookSteps.

(** * The claims of the specification *)

Section Claims.
Context {rt : Runtime}.

(** Whatever parses strictly is returned as it is, with no repaired text
    and no error message. *)
Lemma strict_parse_needs_no_repair (raw_text : text) (payload : pyval) :
  json_loads raw_text = inl payload ->
  _try_parse_mt5_json raw_text = (payload, None, None).
Proof. intros H. unfold _try_parse_mt5_json. rewrite H. reflexivity. Qed.

(** C1 (evaluated on the code): the document [null] is valid JSON and
    the strict parse returns its value, Python's [None]; the handler takes
    that value for the absence of a payload and answers as for invalid
    JSON, with the error text ["None"], and stores the empty mapping. *)
Theorem C1_null_document_is_rejected (w : World) :
  faults w = [] ->
  json_loads (lit "null") = inl PNone
  /\ _try_parse_mt5_json (lit "null") = (PNone, None, None)
  /\ exists w',
      webhook_from_mt5 (lit "null") w =
        (Return (JSONResponse 400
           (PDict [(lit "status", PStr (lit "invalid_json"));
                   (lit "error", PStr (lit "None"));
                   (lit "raw", PStr (lit "null"));
                   (lit "repaired", PNone)])), w')
      /\ store_read w' = Snapshot (PDict []).
Proof.
  intros Hf. split; [reflexivity|]. split; [reflexivity|].
  destruct (write_result_file_ok (PDict []) w [123; 125] Hf eq_refl)
    as (w' & Hrun & Hfile & Hfaults & Hmod & _).
  exists w'. split.
  - rewrite webhook_without_payload by reflexivity. rewrite Hrun. reflexivity.
  - unfold store_read. rewrite Hmod, Hfile, Hfaults. reflexivity.
Qed.

(** C2: the MT5 payload with a bare datetime and a trailing comma parses,
    after repair, to [bar_time] the string ["2025.12.12 04:05:00"] and
    [price] the number [1.23]; the repaired text has no trailing comma. *)
Theorem C2_mt5_example_is_repaired :
  _try_parse_mt5_json (qlit "{'bar_time':2025.12.12 04:05:00,'price':1.23,}")
  = (PDict [(lit "bar_time", PStr (lit "2025.12.12 04:05:00"));
            (lit "price", PFloat (float_of_lit (lit "1.23")))],
     Some (qlit "{'bar_time':'2025.12.12 04:05:00','price':1.23}"),
     None).
Proof. vm_compute. reflexivity. Qed.


(** C6: when the payload parses neither as it is nor after repair, and
    the file operations succeed, the handler answers 400 with the
    [invalid_json] body (both error texts, the decoded text, the repaired
    text if it differs) and the snapshot read back afterwards is the empty
    mapping. *)
Theorem C6_invalid_payload_stores_empty_mapping
    (raw_body : bytes) (w : World) (e1 e2 : JSONDecodeError) :
  let raw_text := Utf8.decode_ignore raw_body in
  faults w = [] ->
  json_loads raw_text = inr e1 ->
  json_loads (repair raw_text) = inr e2 ->
  exists w',
    webhook_from_mt5 raw_body w =
      (Return (JSONResponse 400
         (PDict [(lit "status", PStr (lit "invalid_json"));
                 (lit "error",
                  PStr (str_JSONDecodeError e1 ++ lit " | after_repair: "
                        ++ str_JSONDecodeError e2));
                 (lit "raw", PStr raw_text);
                 (lit "repaired",
                  if text_eqb (repair raw_text) raw_text
                  then PNone else PStr (repair raw_text))])), w')
    /\ store_read w' = Snapshot (PDict [])
    /\ fst (get_last_result w') = Return (JSONResponse 200 (PDict [])).
Proof.
  intros raw_text Hf H1 H2.
  destruct (write_result_file_ok (PDict []) w [123; 125] Hf eq_refl)
    as (w' & Hrun & Hfile & Hfaults & Hmod & _).
  assert (Hread : store_read w' = Snapshot (PDict [])).
  { unfold store_read. rewrite Hmod, Hfile, Hfaults. reflexivity. }
  assert (Hp : _try_parse_mt5_json raw_text
               = (PNone, Some (repair raw_text),
                  Some (str_JSONDecodeError e1 ++ lit " | after_repair: "
                        ++ str_JSONDecodeError e2))).
  { unfold _try_parse_mt5_json. rewrite H1, H2. reflexivity. }
  exists w'. split; [|split; [exact Hread|]].
  - pose proof (webhook_without_payload raw_body w) as Hw. cbv zeta in Hw.
    fold raw_text in Hw. rewrite Hp in Hw.
    rewrite (Hw eq_refl), Hrun. reflexivity.
  - destruct (get_last_result_run w') as (w'' & -> & _).
    rewrite Hread. reflexivity.
Qed.

(** C7 (evaluated on the code): a bare [NaN] in a payload that needs
    repair becomes [null], but a bare [-Infinity] does not: the
    [Infinity] substitution runs first and leaves [-null], and the
    [-Infinity] pattern, which opens with a word boundary before the minus
    sign, does not match after a colon either.  The repaired text does not
    parse and there is no payload. *)
Theorem C7_negative_infinity_is_not_repaired :
  _try_parse_mt5_json (qlit "{'a':NaN,}")
    = (PDict [(lit "a", PNone)], Some (qlit "{'a':null}"), None)
  /\ repair (qlit "{'a':-Infinity,}") = qlit "{'a':-null}"
  /\ fst (_try_parse_mt5_json (qlit "{'a':-Infinity,}"))
     = (PNone, Some (qlit "{'a':-null}"))
  /\ re_sub neg_infinity_re [TLit (lit "null")] (qlit "{'a':-Infinity}")
     = qlit "{'a':-Infinity}".
Proof. repeat split; vm_compute; reflexivity. Qed.

(** C8 (as the code has it): the handler does not catch what the write
    raises.  If the write of the stored value fails with an I/O error, the
    handler returns no response: it raises that error, in the world the
    write left (or, for a payload that is a string with a lone surrogate,
    it has raised before, when printing it, and no file operation was
    called).  The write is not retried: [write_text] was called once, with
    the serialized text, and [replace] at most once, after it. *)
Theorem C8_write_failure_aborts_the_response
    (raw_body : bytes) (w : World) (msg : text) :
  let v := stored_value raw_body in
  let tmp_path := tmp_path_of (module_file w) in
  let r := _write_result_file v w in
  fst r = Raise (ExOSError msg) ->
  (webhook_from_mt5 raw_body w = (Raise (ExOSError msg), snd r)
   \/ exists s,
        v = PStr s /\ Utf8.encode s = None
        /\ webhook_from_mt5 raw_body w
           = (Raise (ExUnicodeError (unicode_encode_error_str s)), w))
  /\ (calls (snd r) = CallWriteText tmp_path (json_dumps v) :: calls w
      \/ calls (snd r)
         = CallReplace tmp_path (result_path_of (module_file w))
           :: CallWriteText tmp_path (json_dumps v) :: calls w).
Proof.
  intros v tmp_path r Hr. split.
  - subst r v. unfold stored_value in *.
    destruct (is_None (fst (fst (_try_parse_mt5_json
                                   (Utf8.decode_ignore raw_body))))) eqn:Hnone.
    + left. rewrite webhook_without_payload by exact Hnone.
      destruct (_write_result_file (PDict []) w) as [o w']. cbn [fst snd] in *.
      subst o. reflexivity.
    + rewrite webhook_with_payload by exact Hnone.
      rewrite print_payload_run.
      set (payload := fst (fst (_try_parse_mt5_json
                                  (Utf8.decode_ignore raw_body)))) in *.
      assert (Hwrite : match _write_result_file payload w with
                       | (Return _, w') =>
                         (JSONResponse_outcome 200
                            (PDict [(lit "status", PStr (lit "ok"));
                                    (lit "received", payload)]), w')
                       | (Raise e, w') => (Raise e, w')
                       end
                       = (Raise (ExOSError msg),
                          snd (_write_result_file payload w))).
      { destruct (_write_result_file payload w) as [o w']. cbn [fst snd] in *.
        subst o. reflexivity. }
      destruct payload as [| b | n | f | s | l | d];
        try (left; exact Hwrite).
      destruct (forallb is_scalar s) eqn:Hs; [left; exact Hwrite|].
      right. exists s. split; [reflexivity|].
      split; [apply encode_none_iff; exact Hs|reflexivity].
  - subst r. revert Hr. generalize v. clear v. intros v.
    unfold _write_result_file, _write_sync, Fs.get_module_file, bind,
      Fs.write_text, Fs.replace, bind, Fs.enter, Fs.set_files, raise.
    fold tmp_path.
    destruct (faults w) as [|[|msg' [b|]] fs]; simpl; auto;
      (destruct (Utf8.encode _) as [b|]; simpl; [|discriminate]).
    + rewrite lookup_insert_eq. simpl. discriminate.
    + destruct fs as [|[|? ?] ?]; simpl; rewrite ?lookup_insert_eq; simpl;
        auto; discriminate.
Qed.

(** C9 (as the code has it): decoding is total, and a byte at which no
    well-formed UTF-8 sequence starts is dropped, not replaced: what
    precedes it decodes to its text and decoding goes on after it. *)
Theorem C9_ill_formed_bytes_are_dropped
    (t : text) (enc : bytes) (b : Z) (rest : bytes) :
  Utf8.encode t = Some enc ->
  Utf8.decode_one (b :: rest) = None ->
  Utf8.decode_ignore enc = t
  /\ Utf8.decode_ignore (enc ++ b :: rest) = t ++ Utf8.decode_ignore rest.
Proof.
  intros He Hb. split.
  - rewrite <- (app_nil_r enc), (decode_ignore_encode_app t enc [] He).
    apply app_nil_r.
  - rewrite (decode_ignore_encode_app t enc _ He), decode_ignore_cons, Hb.
    reflexivity.
Qed.

(** C10: the repairs rewrite inside string literals.  The payload
    [{"a":"NaN",}] needs repair for its trailing comma only; the value it
    parses to holds the string ["null"] where the text had ["NaN"]. *)
Theorem C10_repair_rewrites_string_literals :
  (exists e, json_loads (qlit "{'a':'NaN',}") = inr e)
  /\ json_loads (qlit "{'a':'NaN'}") = inl (PDict [(lit "a", PStr (lit "NaN"))])
  /\ _try_parse_mt5_json (qlit "{'a':'NaN',}")
     = (PDict [(lit "a", PStr (lit "null"))], Some (qlit "{'a':'null'}"), None).
Proof.
  split; [eexists; vm_compute; reflexivity|].
  split; vm_compute; reflexivity.
Qed.

End Claims.

Section RoundTrip.
Context {rt : Runtime} {laws : FloatLaws rt}.

(** C4: for a value that is valid JSON, with file operations that
    succeed, writing the value and then reading the snapshot gives the
    value back: the write returns, the read contract yields the value and
    [GET /result] answers 200 with it. *)
Theorem C4_write_then_read_round_trip (v : pyval) (w : World) :
  valid_json v = true ->
  faults w = [] ->
  exists w1 w2,
    _write_result_file v w = (Return tt, w1)
    /\ store_read w1 = Snapshot v
    /\ get_last_result w1 = (Return (JSONResponse 200 v), w2).
Proof.
  intros Hv Hf.
  pose proof (iterencode_plain v 0 Hv) as Hplain. fold (json_dumps v) in Hplain.
  destruct (encode_scalar _ (plain_scalar _ Hplain)) as (b & Hb).
  destruct (write_result_file_ok v w b Hf Hb)
    as (w1 & Hrun & Hfile & Hfaults & Hmod & _).
  assert (Hread : store_read w1 = Snapshot v).
  { unfold store_read, file_text.
    rewrite Hmod, Hfile, Hfaults, (decode_strict_encode _ _ Hb).
    rewrite (universal_newlines_plain _ Hplain), (json_loads_dumps v Hv).
    reflexivity. }
  destruct (get_last_result_run w1) as (w2 & Hget & _).
  destruct (valid_json_renders v Hv) as [Hn Hs].
  exists w1, w2. rewrite Hget, Hread. cbn [response_of_read status_code content].
  rewrite (JSONResponse_valid 200 v Hn Hs). auto.
Qed.

(** C5 (evaluated on the code): [GET /result] answers 404 when the
    canonical file does not exist, 500 with the text of the parse error when
    its text is not JSON, and 200 with the parsed value when that value can
    be rendered.  It builds the 200 response outside its [try]: for a
    parsed value with a float that is not finite (the write stores [NaN]
    and the infinities as it gets them) the handler raises [ValueError] and
    returns no outcome; for one with a lone surrogate it raises
    [UnicodeEncodeError]. *)
Theorem C5_read_raises_on_nonfinite_snapshot (w : World) :
  let result_path := result_path_of (module_file w) in
  (files w !! result_path = None ->
   store_read w = NotFoundFailure
   /\ exists w',
        get_last_result w = (Return (response_of_read NotFoundFailure), w'))
  /\ (forall b t e,
        files w !! result_path = Some b -> faults w = [] ->
        file_text b = inl t -> json_loads t = inr e ->
        store_read w = CorruptFailure (ExJSONDecodeError e)
        /\ exists w',
             get_last_result w
             = (Return (response_of_read
                          (CorruptFailure (ExJSONDecodeError e))), w'))
  /\ (forall b t v,
        files w !! result_path = Some b -> faults w = [] ->
        file_text b = inl t -> json_loads t = inl v ->
        store_read w = Snapshot v
        /\ (has_nonfinite v = false -> strings_scalar v = true ->
            exists w', get_last_result w = (Return (JSONResponse 200 v), w'))
        /\ (has_nonfinite v = true ->
            exists w',
              get_last_result w = (Raise (ExValueError out_of_range_msg), w'))
        /\ (has_nonfinite v = false -> strings_scalar v = false ->
            exists msg w',
              get_last_result w = (Raise (ExUnicodeError msg), w'))).
Proof.
  intros result_path.
  destruct (get_last_result_run w) as (w' & Hget & _).
  split; [|split].
  - intros Hnone.
    assert (Hread : store_read w = NotFoundFailure)
      by (unfold store_read; fold result_path; rewrite Hnone; reflexivity).
    split; [exact Hread|]. exists w'. rewrite Hget, Hread. reflexivity.
  - intros b t e Hb Hf Ht He.
    assert (Hread : store_read w = CorruptFailure (ExJSONDecodeError e))
      by (unfold store_read; fold result_path; rewrite Hb, Hf, Ht, He;
          reflexivity).
    split; [exact Hread|]. exists w'. rewrite Hget, Hread.
    cbn [response_of_read status_code content str_exn].
    rewrite JSONResponse_ok; [reflexivity|reflexivity| |reflexivity].
    cbn [strings_scalar forallb fst snd].
    rewrite !lit_scalar, str_JSONDecodeError_scalar. reflexivity.
  - intros b t v Hb Hf Ht Hv.
    assert (Hread : store_read w = Snapshot v)
      by (unfold store_read; fold result_path; rewrite Hb, Hf, Ht, Hv;
          reflexivity).
    rewrite Hread in Hget. cbn [response_of_read status_code content] in Hget.
    split; [exact Hread|]. split; [|split].
    + intros Hn Hs. exists w'. rewrite Hget, (JSONResponse_valid 200 v Hn Hs).
      reflexivity.
    + intros Hn. exists w'. rewrite Hget, (JSONResponse_nonfinite 200 v Hn).
      reflexivity.
    + intros Hn Hs. eexists _, w'.
      rewrite Hget, (JSONResponse_surrogate 200 v Hn Hs). reflexivity.
Qed.

End RoundTrip.

(** * Further properties of the code *)

(** ** The snapshot store *)

Section StoreProperties.
Context {rt : Runtime}.

(** What a write that returns has done to the world. *)
Lemma write_result_file_return data w w' :
  _write_result_file data w = (Return tt, w') ->
  exists b,
    Utf8.encode (json_dumps data) = Some b
    /\ files w' = <[result_path_of (module_file w) := b]>
                    (delete (tmp_path_of (module_file w))
                       (<[tmp_path_of (module_file w) := b]> (files w)))
    /\ module_file w' = module_file w
    /\ faults w' = drop 2 (faults w).
Proof.
  unfold _write_result_file, _write_sync, Fs.get_module_file, bind,
    Fs.write_text, Fs.replace, bind, Fs.enter, Fs.set_files, raise.
  destruct (faults w) as [|[|msg [b|]] fs] eqn:Hf; simpl; try discriminate;
    (destruct (Utf8.encode (json_dumps data)) as [b|] eqn:Hb; simpl;
     [|discriminate]).
  - rewrite lookup_insert_eq. simpl. intros [= <-]. exists b. auto.
  - destruct fs as [|[|msg res] fs]; simpl; rewrite ?lookup_insert_eq; simpl;
      try discriminate; intros [= <-]; exists b; auto.
Qed.

(** X1: a write that returns leaves the encoded text in [result.json],
    leaves no temporary file behind, and leaves every other file as it
    was. *)
Theorem X1_write_leaves_no_temporary_file (data : pyval) (w w' : World) :
  _write_result_file data w = (Return tt, w') ->
  (exists b, Utf8.encode (json_dumps data) = Some b
             /\ files w' !! result_path_of (module_file w) = Some b)
  /\ files w' !! tmp_path_of (module_file w) = None
  /\ forall p, p <> result_path_of (module_file w) ->
               p <> tmp_path_of (module_file w) ->
               files w' !! p = files w !! p.
Proof.
  intros Hrun.
  destruct (write_result_file_return data w w' Hrun) as (b & Hb & Hfiles & _).
  pose proof (tmp_ne_result (module_file w)) as Hne.
  rewrite Hfiles. split; [|split].
  - exists b. rewrite lookup_insert_eq. auto.
  - rewrite lookup_insert_ne by congruence. apply lookup_delete_eq.
  - intros p Hr Ht.
    rewrite lookup_insert_ne, lookup_delete_ne, lookup_insert_ne by congruence.
    reflexivity.
Qed.

(** X2: the store keeps no history.  With file operations that succeed,
    writing one value and then another leaves the files exactly as writing
    the second alone does. *)
Theorem X2_second_write_absorbs_first (v1 v2 : pyval) (w : World) (b1 b2 : bytes) :
  faults w = [] ->
  Utf8.encode (json_dumps v1) = Some b1 ->
  Utf8.encode (json_dumps v2) = Some b2 ->
  exists w1 w2 w2',
    _write_result_file v1 w = (Return tt, w1)
    /\ _write_result_file v2 w1 = (Return tt, w2)
    /\ _write_result_file v2 w = (Return tt, w2')
    /\ files w2 = files w2'.
Proof.
  intros Hf H1 H2.
  destruct (write_result_file_ok v1 w b1 Hf H1) as (w1 & Hr1 & _ & Hf1 & Hm1 & _).
  destruct (write_result_file_ok v2 w1 b2 Hf1 H2) as (w2 & Hr2 & _).
  destruct (write_result_file_ok v2 w b2 Hf H2) as (w2' & Hr2' & _).
  exists w1, w2, w2'. repeat (split; [assumption|]).
  destruct (write_result_file_return _ _ _ Hr1) as (c1 & Hc1 & Hfiles1 & _).
  destruct (write_result_file_return _ _ _ Hr2) as (c2 & Hc2 & Hfiles2 & _).
  destruct (write_result_file_return _ _ _ Hr2') as (c2' & Hc2' & Hfiles2' & _).
  rewrite Hm1 in Hfiles2. rewrite Hfiles2, Hfiles2', Hfiles1.
  assert (c2 = b2) by congruence. assert (c2' = b2) by congruence. subst c2 c2'.
  pose proof (tmp_ne_result (module_file w)) as Hne.
  apply map_eq. intros p.
  destruct (decide (p = result_path_of (module_file w))) as [->|Hr].
  - rewrite !lookup_insert_eq. reflexivity.
  - rewrite !(lookup_insert_ne _ (result_path_of (module_file w))) by congruence.
    destruct (decide (p = tmp_path_of (module_file w))) as [->|Ht].
    + rewrite !lookup_delete_eq. reflexivity.
    + repeat first [ rewrite lookup_insert_ne by congruence
                   | rewrite lookup_delete_ne by congruence ].
      reflexivity.
Qed.

(** X3: a value whose text UTF-8 cannot encode (a string with a lone
    surrogate) makes the write raise [UnicodeEncodeError] after the
    temporary file was opened: the temporary file is left empty, the
    replace is not called and [result.json] is as before. *)
Theorem X3_unencodable_value_raises (data : pyval) (w : World) :
  faults w = [] ->
  Utf8.encode (json_dumps data) = None ->
  exists w',
    _write_result_file data w =
      (Raise (ExUnicodeError (unicode_encode_error_str (json_dumps data))), w')
    /\ files w' !! tmp_path_of (module_file w) = Some []
    /\ files w' !! result_path_of (module_file w)
       = files w !! result_path_of (module_file w)
    /\ calls w' = CallWriteText (tmp_path_of (module_file w)) (json_dumps data)
                  :: calls w.
Proof.
  intros Hf Hb.
  unfold _write_result_file, _write_sync, Fs.get_module_file, bind,
    Fs.write_text, bind, Fs.enter, Fs.set_files.
  rewrite Hf, Hb. simpl. eexists. split; [reflexivity|]. simpl.
  rewrite lookup_insert_eq, lookup_insert_ne by apply tmp_ne_result. auto.
Qed.


End StoreProperties.

(** ** The webhook handler *)

Section WebhookProperties.
Context {rt : Runtime}.

(** The handler is the write of the stored value followed by the
    response. *)
Lemma webhook_from_mt5_returns raw_body w resp w' :
  webhook_from_mt5 raw_body w = (Return resp, w') ->
  _write_result_file (stored_value raw_body) w = (Return tt, w')
  /\ let payload :=
       fst (fst (_try_parse_mt5_json (Utf8.decode_ignore raw_body))) in
     status_code resp = (if is_None payload then 400 else 200)
     /\ (is_None payload = false ->
         content resp = PDict [(lit "status", PStr (lit "ok"));
                               (lit "received", payload)]).
Proof.
  intros Hrun. unfold stored_value.
  destruct (is_None (fst (fst (_try_parse_mt5_json
                                 (Utf8.decode_ignore raw_body))))) eqn:Hnone.
  - rewrite webhook_without_payload in Hrun by exact Hnone.
    destruct (_write_result_file (PDict []) w) as [[[]|e] w1];
      [|discriminate].
    injection Hrun as <- <-. cbn [status_code content].
    split; [reflexivity|]. split; [reflexivity|discriminate].
  - rewrite webhook_with_payload, print_payload_run in Hrun by exact Hnone.
    set (payload := fst (fst (_try_parse_mt5_json
                                (Utf8.decode_ignore raw_body)))) in *.
    assert (Hw : match _write_result_file payload w with
                 | (Return _, w1) =>
                   (JSONResponse_outcome 200
                      (PDict [(lit "status", PStr (lit "ok"));
                              (lit "received", payload)]), w1)
                 | (Raise e, w1) => (Raise e, w1)
                 end = (Return resp, w')).
    { destruct payload as [| b | n | f | s | l | d]; try exact Hrun.
      destruct (forallb is_scalar s); [exact Hrun|discriminate]. }
    clear Hrun.
    destruct (_write_result_file payload w) as [[[]|e] w1]; [|discriminate].
    injection Hw as Hresp <-.
    apply JSONResponse_outcome_return in Hresp. subst resp.
    cbn [status_code content]. auto.
Qed.

(** X5: a response means the snapshot was replaced.  In every world,
    faults included, if the handler returns a response then [result.json]
    holds the encoded text of the stored value (the payload, or the empty
    mapping when there is none), no temporary file is left, and the status
    is 400 exactly when there is no payload; a 200 response echoes the
    payload. *)
Theorem X5_response_implies_snapshot_replaced
    (raw_body : bytes) (w w' : World) (resp : Response) :
  webhook_from_mt5 raw_body w = (Return resp, w') ->
  let payload := fst (fst (_try_parse_mt5_json (Utf8.decode_ignore raw_body))) in
  (exists b, Utf8.encode (json_dumps (stored_value raw_body)) = Some b
             /\ files w' !! result_path_of (module_file w) = Some b)
  /\ files w' !! tmp_path_of (module_file w) = None
  /\ status_code resp = (if is_None payload then 400 else 200)
  /\ (is_None payload = false ->
      content resp = PDict [(lit "status", PStr (lit "ok"));
                            (lit "received", payload)]).
Proof.
  intros Hrun payload.
  destruct (webhook_from_mt5_returns raw_body w resp w' Hrun)
    as (Hwrite & Hstatus & Hcontent).
  destruct (write_result_file_return _ w w' Hwrite) as (b & Hb & Hfiles & _).
  pose proof (tmp_ne_result (module_file w)) as Hne.
  split; [|split; [|split; assumption]].
  - exists b. rewrite Hfiles, lookup_insert_eq. auto.
  - rewrite Hfiles, lookup_insert_ne by congruence. apply lookup_delete_eq.
Qed.

End WebhookProperties.

Section WebhookRoundTrip.
Context {rt : Runtime} {laws : FloatLaws rt}.

(** Writing a valid value and then looking at the store. *)
Lemma write_then_store_read v w :
  valid_json v = true -> faults w = [] ->
  exists w1,
    _write_result_file v w = (Return tt, w1)
    /\ store_read w1 = Snapshot v
    /\ faults w1 = [].
Proof.
  intros Hv Hf.
  pose proof (iterencode_plain v 0 Hv) as Hplain. fold (json_dumps v) in Hplain.
  destruct (encode_scalar _ (plain_scalar _ Hplain)) as (b & Hb).
  destruct (write_result_file_ok v w b Hf Hb)
    as (w1 & Hrun & Hfile & Hfaults & Hmod & _).
  exists w1. split; [exact Hrun|]. split; [|exact Hfaults].
  unfold store_read, file_text.
  rewrite Hmod, Hfile, Hfaults, (decode_strict_encode _ _ Hb).
  rewrite (universal_newlines_plain _ Hplain), (json_loads_dumps v Hv).
  reflexivity.
Qed.

(** X6: what is posted is what is served.  When the body yields a
    payload (as it is or after repair) that is valid JSON and not [None],
    and the file operations succeed, [POST /webhook] answers 200 with the
    payload and a following [GET /result] answers 200 with the same payload,
    whatever the store held before. *)
Theorem X6_post_then_get_serves_payload
    (raw_body : bytes) (w : World) (payload : pyval) :
  faults w = [] ->
  fst (fst (_try_parse_mt5_json (Utf8.decode_ignore raw_body))) = payload ->
  is_None payload = false ->
  valid_json payload = true ->
  exists w1 w2,
    webhook_from_mt5 raw_body w =
      (Return (JSONResponse 200
                 (PDict [(lit "status", PStr (lit "ok"));
                         (lit "received", payload)])), w1)
    /\ get_last_result w1 = (Return (JSONResponse 200 payload), w2).
Proof.
  intros Hf Hp Hnone Hv.
  destruct (write_then_store_read payload w Hv Hf) as (w1 & Hrun & Hread & _).
  destruct (get_last_result_run w1) as (w2 & Hget & _).
  destruct (valid_json_renders payload Hv) as [Hn Hs].
  exists w1, w2. split.
  - subst payload. rewrite webhook_with_payload by exact Hnone.
    rewrite print_payload_ok by exact Hs. rewrite Hrun.
    rewrite JSONResponse_valid;
      [reflexivity|rewrite ok_body_nonfinite|rewrite ok_body_strings];
      assumption.
  - rewrite Hget, Hread. cbn [response_of_read status_code content].
    rewrite (JSONResponse_valid 200 _ Hn Hs). reflexivity.
Qed.

End WebhookRoundTrip.

(** ** The repair rules *)

Section RepairProperties.
Context {rt : Runtime}.

(** A pattern that matches nowhere leaves the text as it is. *)
Lemma sub_loop_no_match r tm (P : Z -> bool) :
  (forall prev, match_here r prev [] = None) ->
  (forall prev c s, P c = true -> match_here r prev (c :: s) = None) ->
  forall fuel prev s, forallb P s = true -> sub_loop fuel r tm prev s = s.
Proof.
  intros Hnil Hcons. induction fuel as [|fuel IH]; intros prev s Hs;
    [reflexivity|].
  destruct s as [|c s]; cbn [sub_loop].
  - rewrite Hnil. reflexivity.
  - cbn [forallb] in Hs. apply andb_true_iff in Hs. destruct Hs as [Hc Hs].
    rewrite (Hcons prev c s Hc), IH by exact Hs. reflexivity.
Qed.

Lemma trigger_false c :
  negb (trigger c) = true ->
  (c =? ch ":") = false /\ (c =? ch ",") = false /\ (c =? ch "N") = false
  /\ (c =? ch "I") = false /\ (c =? ch "-") = false.
Proof.
  rewrite negb_true_iff. unfold trigger. rewrite !orb_false_iff. tauto.
Qed.

Lemma datetime_re_needs_colon prev c s :
  negb (trigger c) = true -> match_here datetime_re prev (c :: s) = None.
Proof.
  intros H. apply trigger_false in H. destruct H as (H & _).
  unfold match_here, datetime_re. cbn [Seq rmatch]. rewrite H. reflexivity.
Qed.

Lemma trailing_comma_re_needs_comma prev c s :
  negb (trigger c) = true -> match_here trailing_comma_re prev (c :: s) = None.
Proof.
  intros H. apply trigger_false in H. destruct H as (_ & H & _).
  unfold match_here, trailing_comma_re. cbn [Seq rmatch]. rewrite H. reflexivity.
Qed.

Lemma nan_re_needs_N prev c s :
  negb (trigger c) = true -> match_here nan_re prev (c :: s) = None.
Proof.
  intros H. apply trigger_false in H. destruct H as (_ & _ & H & _).
  unfold match_here, nan_re, Lit. cbn [lit map Seq rmatch]. rewrite H.
  destruct (xorb _ _); reflexivity.
Qed.

Lemma infinity_re_needs_I prev c s :
  negb (trigger c) = true -> match_here infinity_re prev (c :: s) = None.
Proof.
  intros H. apply trigger_false in H. destruct H as (_ & _ & _ & H & _).
  unfold match_here, infinity_re, Lit. cbn [lit map Seq rmatch]. rewrite H.
  destruct (xorb _ _); reflexivity.
Qed.

Lemma neg_infinity_re_needs_minus prev c s :
  negb (trigger c) = true -> match_here neg_infinity_re prev (c :: s) = None.
Proof.
  intros H. apply trigger_false in H. destruct H as (_ & _ & _ & _ & H).
  unfold match_here, neg_infinity_re, Lit. cbn [lit map Seq rmatch]. rewrite H.
  destruct (xorb _ _); reflexivity.
Qed.

Lemma word_patterns_need_text prev :
  match_here nan_re prev [] = None
  /\ match_here infinity_re prev [] = None
  /\ match_here neg_infinity_re prev [] = None.
Proof.
  unfold match_here, nan_re, infinity_re, neg_infinity_re, Lit.
  cbn [lit map Seq rmatch]. destruct (xorb _ _); auto.
Qed.

Lemma repair_no_trigger s : no_trigger s = true -> repair s = s.
Proof.
  intros Hs. unfold repair, re_sub.
  rewrite (sub_loop_no_match datetime_re _ (fun c => negb (trigger c)));
    [|reflexivity|apply datetime_re_needs_colon|exact Hs].
  rewrite (sub_loop_no_match trailing_comma_re _ (fun c => negb (trigger c)));
    [|reflexivity|apply trailing_comma_re_needs_comma|exact Hs].
  rewrite (sub_loop_no_match nan_re _ (fun c => negb (trigger c)));
    [|intros; apply word_patterns_need_text|apply nan_re_needs_N|exact Hs].
  rewrite (sub_loop_no_match infinity_re _ (fun c => negb (trigger c)));
    [|intros; apply word_patterns_need_text|apply infinity_re_needs_I|exact Hs].
  rewrite (sub_loop_no_match neg_infinity_re _ (fun c => negb (trigger c)));
    [|intros; apply word_patterns_need_text|apply neg_infinity_re_needs_minus|exact Hs].
  reflexivity.
Qed.

(** X7: the repairs change nothing in a text without a colon, a comma, an
    [N], an [I] or a minus sign.  When such a text does not parse, the result
    is a failure whose repaired text is the text itself and whose message
    gives the same error twice; the [repaired] field of the 400 body is then
    [null]. *)
Theorem X7_repair_needs_a_trigger (raw_text : text) (e : JSONDecodeError) :
  no_trigger raw_text = true ->
  json_loads raw_text = inr e ->
  repair raw_text = raw_text
  /\ _try_parse_mt5_json raw_text
     = (PNone, Some raw_text,
        Some (str_JSONDecodeError e ++ lit " | after_repair: "
              ++ str_JSONDecodeError e))
  /\ repaired_field (Some (repair raw_text)) raw_text = PNone.
Proof.
  intros Hs He. pose proof (repair_no_trigger raw_text Hs) as Hr.
  split; [exact Hr|]. split.
  - unfold _try_parse_mt5_json. rewrite He, Hr, He. reflexivity.
  - rewrite Hr. unfold repaired_field. rewrite text_eqb_refl. reflexivity.
Qed.

End RepairProperties.

(** ** Decoding the request body *)

Section DecodeProperties.
Import Utf8.

(** X8: whatever the bytes of the body, the decoded text holds Unicode
    scalar values only (no surrogate, nothing out of range): it can always
    be encoded again, so the [raw] field of a 400 response is always text
    that UTF-8 can carry. *)
Theorem X8_decoded_body_is_unicode_text (raw_body : bytes) :
  forallb is_scalar (decode_ignore raw_body) = true
  /\ exists enc, encode (decode_ignore raw_body) = Some enc.
Proof.
  assert (H : forallb is_scalar (decode_ignore raw_body) = true)
    by (apply (decode_ignore_scalar_bounded (length raw_body)); lia).
  split; [exact H|]. apply encode_scalar. exact H.
Qed.

(** X9: on a body that is well-formed UTF-8 the lenient decoding of the
    handler drops nothing: it gives the text the strict decoding gives, and
    encoding that text gives the bytes of the body back. *)
Theorem X9_well_formed_body_is_decoded_exactly (raw_body : bytes) (t : text) :
  decode_strict raw_body = Some t ->
  decode_ignore raw_body = t /\ encode t = Some raw_body.
Proof. apply (decode_strict_inv_bounded (length raw_body)). lia. Qed.

End DecodeProperties.

(** ** The payload the decoder builds *)

Section DecoderProperties.
Context {rt : Runtime}.

Lemma existsb_dict_set x d k (v : pyval) :
  existsb (text_eqb x) (map fst (dict_set d k v))
  = existsb (text_eqb x) (map fst d) || text_eqb x k.
Proof.
  induction d as [|[k' v'] d IH]; cbn [dict_set map fst existsb].
  - apply orb_comm.
  - destruct (text_eqb k' k) eqn:Hk; cbn [map fst existsb].
    + apply text_eqb_spec in Hk. subst k'.
      destruct (text_eqb x k), (existsb (text_eqb x) (map fst d)); reflexivity.
    + rewrite IH. apply orb_assoc.
Qed.

(** [d[k] = v] keeps the keys distinct. *)
Lemma dict_set_keys_distinct d k (v : pyval) :
  keys_distinct (map fst d) = true ->
  keys_distinct (map fst (dict_set d k v)) = true.
Proof.
  induction d as [|[k' v'] d IH]; [reflexivity|].
  cbn [dict_set map fst keys_distinct].
  rewrite andb_true_iff, negb_true_iff. intros [Hk' Hd].
  destruct (text_eqb k' k) eqn:Hk; cbn [map fst keys_distinct].
  - apply text_eqb_spec in Hk. subst k'. rewrite Hk', Hd. reflexivity.
  - rewrite existsb_dict_set, Hk', Hk, IH by exact Hd. reflexivity.
Qed.

Lemma dict_set_values d k (v : pyval) :
  forallb (fun kv : list Z * pyval => keys_unique (snd kv)) d = true ->
  keys_unique v = true ->
  forallb (fun kv : list Z * pyval => keys_unique (snd kv)) (dict_set d k v)
  = true.
Proof.
  intros Hd Hv. induction d as [|[k' v'] d IH]; cbn [dict_set forallb snd].
  - rewrite Hv. reflexivity.
  - cbn [forallb snd] in Hd. apply andb_true_iff in Hd. destruct Hd as [Hv' Hd].
    destruct (text_eqb k' k); cbn [forallb snd].
    + rewrite Hv, Hd. reflexivity.
    + rewrite Hv', IH by exact Hd. reflexivity.
Qed.

Lemma dict_set_keys_unique d k (v : pyval) :
  keys_unique (PDict d) = true -> keys_unique v = true ->
  keys_unique (PDict (dict_set d k v)) = true.
Proof.
  cbn [keys_unique]. rewrite !andb_true_iff. intros [Hk Hd] Hv.
  split; [apply dict_set_keys_distinct; exact Hk|apply dict_set_values; assumption].
Qed.

Lemma match_number_keys_unique s v r :
  match_number s = Ok (v, r) -> keys_unique v = true.
Proof.
  unfold match_number. destruct (scan_sign s) as [sign s1].
  destruct (scan_int s1) as [[ip s2]|]; [|discriminate].
  destruct (match scan_frac s2 with Some (f, r) => (f, r) | None => ([], s2) end)
    as [fp s3].
  destruct (match scan_exp s3 with Some (e, r) => (e, r) | None => ([], s3) end)
    as [ep s4].
  destruct fp; [destruct ep|]; intros [= <- <-]; reflexivity.
Qed.

Lemma forallb_rev_cons (v : pyval) acc :
  keys_unique v = true -> forallb keys_unique acc = true ->
  forallb keys_unique (rev (v :: acc)) = true.
Proof.
  intros Hv Hacc. apply forallb_forall. intros x Hx.
  apply in_rev in Hx. destruct Hx as [<- | Hx]; [exact Hv|].
  rewrite forallb_forall in Hacc. auto.
Qed.

(** The three functions of the scanner build values with distinct keys. *)
Lemma scanner_keys_unique fuel :
  (forall s v r, scan_once fuel s = Ok (v, r) -> keys_unique v = true)
  /\ (forall acc s v r,
        forallb keys_unique acc = true ->
        parse_array fuel acc s = Ok (v, r) -> keys_unique v = true)
  /\ (forall acc s v r,
        keys_unique (PDict acc) = true ->
        parse_object fuel acc s = Ok (v, r) -> keys_unique v = true).
Proof.
  induction fuel as [|fuel (IHscan & IHarr & IHobj)].
  - repeat split; intros; discriminate.
  - split; [|split].
    + intros [|c r0] v r; [discriminate|]. rewrite scan_once_eq.
      destruct (c =? dquote).
      { destruct (scanstring _ _ r0) as [[str r']|m p]; [|discriminate].
        intros [= <- <-]. reflexivity. }
      destruct (c =? ch "{").
      { destruct (skip_ws r0) as [|c' r'].
        - apply IHobj. reflexivity.
        - destruct (c' =? ch "}"); [intros [= <- <-]; reflexivity|].
          apply IHobj. reflexivity. }
      destruct (c =? ch "[").
      { destruct (skip_ws r0) as [|c' r'].
        - apply IHarr. reflexivity.
        - destruct (c' =? ch "]"); [intros [= <- <-]; reflexivity|].
          apply IHarr. reflexivity. }
      repeat match goal with
      | |- match strip_prefix ?p ?s with _ => _ end = _ -> _ =>
        destruct (strip_prefix p s); [intros [= <- <-]; reflexivity|]
      end.
      apply match_number_keys_unique.
    + intros acc s v r Hacc. rewrite parse_array_eq.
      destruct (scan_once fuel s) as [[x r1]|m p] eqn:Hx; [|discriminate].
      apply IHscan in Hx.
      destruct (skip_ws r1) as [|c r']; [discriminate|].
      destruct (c =? ch "]").
      { intros [= <- <-]. cbn [keys_unique]. apply forallb_rev_cons; assumption. }
      destruct (c =? ch ","); [|discriminate].
      apply IHarr. cbn [forallb]. rewrite Hx, Hacc. reflexivity.
    + intros acc [|q r0] v r Hacc; [discriminate|]. rewrite parse_object_eq.
      destruct (q =? dquote); [|discriminate].
      destruct (scanstring _ _ r0) as [[key r1]|m p]; [|discriminate].
      destruct (skip_ws r1) as [|c r2]; [discriminate|].
      destruct (c =? ch ":"); [|discriminate].
      destruct (scan_once fuel (skip_ws r2)) as [[x r3]|m p] eqn:Hx; [|discriminate].
      apply IHscan in Hx.
      destruct (skip_ws r3) as [|c' r4]; [discriminate|].
      destruct (c' =? ch "}").
      { intros [= <- <-]. apply dict_set_keys_unique; assumption. }
      destruct (c' =? ch ","); [|discriminate].
      apply IHobj. apply dict_set_keys_unique; assumption.
Qed.

Lemma json_loads_keys_unique s v :
  json_loads s = inl v -> keys_unique v = true.
Proof.
  unfold json_loads. destruct (starts_with_bom s); [discriminate|].
  destruct (scan_once _ (skip_ws s)) as [[x r]|m p] eqn:Hx; [|discriminate].
  apply (proj1 (scanner_keys_unique _)) in Hx.
  destruct (skip_ws r); [|discriminate]. intros [= <-]. exact Hx.
Qed.

(** X10: whatever the text, the payload has no duplicate key at any
    level: a key that the text repeats in an object is kept once, so neither
    the 200 response nor the stored snapshot holds a key twice. *)
Theorem X10_payload_keys_are_distinct (raw_text : text) :
  keys_unique (fst (fst (_try_parse_mt5_json raw_text))) = true.
Proof.
  unfold _try_parse_mt5_json.
  destruct (json_loads raw_text) as [v|e1] eqn:H1.
  - exact (json_loads_keys_unique _ _ H1).
  - destruct (json_loads (repair raw_text)) as [v|e2] eqn:H2;
      [exact (json_loads_keys_unique _ _ H2)|reflexivity].
Qed.

End DecoderProperties.

(** ** The order of the last two repairs *)

Section DeadRule.
Context {rt : Runtime}.

(** Replace every string constant by its code points. *)
Local Ltac lits :=
  repeat match goal with
  | |- context [lit ?a] =>
    let v := eval vm_compute in (lit a) in change (lit a) with v
  | H : context [lit ?a] |- _ =>
    let v := eval vm_compute in (lit a) in change (lit a) with v in H
  end.

(** A literal pattern matches exactly the texts that start with it. *)
Lemma rmatch_literal {A : Type} p c prev s caps
    (k : option Z -> text -> captures -> option A) :
  rmatch (Seq (map Chr (c :: p))) prev s caps k
  = match strip_prefix (c :: p) s with
    | Some s' => k (Some (List.last (c :: p) 0)) s' caps
    | None => None
    end.
Proof.
  revert c prev s. induction p as [|d p IH]; intros c prev s.
  - cbn [map Seq rmatch strip_prefix List.last]. destruct s as [|x s]; [reflexivity|].
    rewrite (Z.eqb_sym c x). destruct (x =? c) eqn:Hx; [|reflexivity].
    apply Z.eqb_eq in Hx. subst x. reflexivity.
  - change (Seq (map Chr (c :: d :: p)))
      with (Cat (Chr c) (Seq (map Chr (d :: p)))).
    cbn [rmatch strip_prefix]. destruct s as [|x s]; [reflexivity|].
    rewrite (Z.eqb_sym c x). destruct (x =? c) eqn:Hx; [|reflexivity].
    rewrite IH. reflexivity.
Qed.

(** A pattern [\b w \b] for a literal [w] that ends in a word
    character. *)
Lemma word_literal_match c p prev s :
  cat_word (List.last (c :: p) 0) = true ->
  match_here (Seq [WordB; Lit (c :: p); WordB]) prev s
  = if xorb (is_word_before prev) (is_word_at s)
    then match strip_prefix (c :: p) s with
         | Some r =>
           if negb (is_word_at r)
           then Some (Some (List.last (c :: p) 0), r, []) else None
         | None => None
         end
    else None.
Proof.
  intros Hlast. unfold match_here, Lit.
  change (Seq [WordB; Seq (map Chr (c :: p)); WordB])
    with (Cat WordB (Cat (Seq (map Chr (c :: p))) WordB)).
  cbn [rmatch]. destruct (xorb _ _); [|reflexivity].
  rewrite rmatch_literal. destruct (strip_prefix (c :: p) s) as [r|];
    [|reflexivity].
  cbn [rmatch is_word_before]. rewrite Hlast.
  destruct (is_word_at r); reflexivity.
Qed.

Lemma cat_word_ascii_letters :
  forallb cat_word (lit "Infinity") = true /\ cat_word (ch "-") = false.
Proof. split; reflexivity. Qed.

Lemma infinity_match prev s :
  match_here infinity_re prev s
  = if xorb (is_word_before prev) (is_word_at s)
    then match strip_prefix (lit "Infinity") s with
         | Some r =>
           if negb (is_word_at r) then Some (Some (ch "y"), r, []) else None
         | None => None
         end
    else None.
Proof. apply (word_literal_match (ch "I") (lit "nfinity")). reflexivity. Qed.

Lemma neg_infinity_match prev s :
  match_here neg_infinity_re prev s
  = if xorb (is_word_before prev) (is_word_at s)
    then match strip_prefix (lit "-Infinity") s with
         | Some r =>
           if negb (is_word_at r) then Some (Some (ch "y"), r, []) else None
         | None => None
         end
    else None.
Proof. apply (word_literal_match (ch "-") (lit "Infinity")). reflexivity. Qed.

Lemma strip_prefix_shorter c p s r :
  strip_prefix (c :: p) s = Some r -> (length r < length s)%nat.
Proof.
  revert c s. induction p as [|d p IH]; intros c [|x s]; cbn [strip_prefix];
    try discriminate; destruct (c =? x); try discriminate.
  - intros [= <-]. cbn [length]. lia.
  - intros H. apply IH in H. cbn [length] in *. lia.
Qed.

Lemma strip_prefix_cons a p b s :
  strip_prefix (a :: p) (b :: s)
  = if a =? b then strip_prefix p s else None.
Proof. reflexivity. Qed.

(** One step of the substitution of [\bInfinity\b]. *)
Lemma infinity_step f prev s :
  (length s < S f)%nat ->
  (exists r,
     match_here infinity_re prev s = Some (Some (ch "y"), r, [])
     /\ (length r < f)%nat
     /\ sub_loop (S f) infinity_re [TLit (lit "null")] prev s
        = lit "null"
          ++ sub_loop f infinity_re [TLit (lit "null")] (Some (ch "y")) r)
  \/ (match_here infinity_re prev s = None /\ s = []
      /\ sub_loop (S f) infinity_re [TLit (lit "null")] prev s = [])
  \/ (match_here infinity_re prev s = None
      /\ exists c s',
           s = c :: s'
           /\ sub_loop (S f) infinity_re [TLit (lit "null")] prev s
              = c :: sub_loop f infinity_re [TLit (lit "null")] (Some c) s').
Proof.
  intros Hlen. cbn [sub_loop].
  destruct (match_here infinity_re prev s) as [[[p' r] caps]|] eqn:Hm.
  - left. rewrite infinity_match in Hm.
    destruct (xorb _ _); [|discriminate].
    destruct (strip_prefix (lit "Infinity") s) as [r0|] eqn:Hp; [|discriminate].
    destruct (negb (is_word_at r0)); [|discriminate].
    injection Hm as <- <- <-.
    apply (strip_prefix_shorter (ch "I") (lit "nfinity")) in Hp.
    exists r0. split; [reflexivity|]. split; [lia|].
    rewrite (proj2 (Nat.ltb_lt _ _) Hp). cbn [expand]. rewrite app_nil_r.
    reflexivity.
  - right. destruct s as [|c s'].
    + left. auto.
    + right. split; [reflexivity|]. exists c, s'. auto.
Qed.

(** After a word character the pattern [\bInfinity\b] does not match. *)
Lemma infinity_not_after_word prev s :
  is_word_before prev = true -> match_here infinity_re prev s = None.
Proof.
  intros Hprev. rewrite infinity_match, Hprev.
  destruct s as [|c s]; [reflexivity|]. cbn [is_word_at].
  destruct (cat_word c) eqn:Hc; [reflexivity|]. cbn [xorb].
  lits. cbn [strip_prefix]. destruct (73 =? c) eqn:Hi; [|reflexivity].
  apply Z.eqb_eq in Hi. subst c. discriminate Hc.
Qed.

Lemma infinity_copy_after_word f prev s :
  is_word_before prev = true ->
  sub_loop (S f) infinity_re [TLit (lit "null")] prev s
  = match s with
    | [] => []
    | c :: s' => c :: sub_loop f infinity_re [TLit (lit "null")] (Some c) s'
    end.
Proof.
  intros Hprev. cbn [sub_loop]. rewrite infinity_not_after_word by exact Hprev.
  reflexivity.
Qed.

(** Behind a word character, a run of word characters in the output was
    copied from the input, and the character after the run is a word
    character in the output exactly when it is one in the input. *)
Lemma word_prefix_was_copied w :
  forallb cat_word w = true ->
  forall fuel prev s r,
    is_word_before prev = true ->
    (length s < fuel)%nat ->
    strip_prefix w (sub_loop fuel infinity_re [TLit (lit "null")] prev s)
    = Some r ->
    exists r0, strip_prefix w s = Some r0 /\ is_word_at r = is_word_at r0.
Proof.
  induction w as [|x w IH]; intros Hw fuel prev s r Hprev Hlen.
  - destruct fuel as [|f]; [lia|].
    rewrite infinity_copy_after_word by exact Hprev.
    cbn [strip_prefix]. intros [= <-]. exists s. split; [reflexivity|].
    destruct s; reflexivity.
  - cbn [forallb] in Hw. apply andb_true_iff in Hw. destruct Hw as [Hx Hw].
    destruct fuel as [|f]; [lia|].
    rewrite infinity_copy_after_word by exact Hprev.
    destruct s as [|c s']; cbn [strip_prefix]; [discriminate|].
    destruct (x =? c) eqn:Hc; [|discriminate].
    apply Z.eqb_eq in Hc. subst c. cbn [length] in Hlen.
    apply (IH Hw f (Some x) s' r); [exact Hx|lia].
Qed.

(** In the output, [Infinity] behind a minus sign is followed by a word
    character: otherwise the substitution would have replaced it. *)
Lemma infinity_after_minus_is_not_closed fuel s r :
  (length s < fuel)%nat ->
  strip_prefix (lit "Infinity")
    (sub_loop fuel infinity_re [TLit (lit "null")] (Some (ch "-")) s)
  = Some r ->
  is_word_at r = true.
Proof.
  intros Hlen. destruct fuel as [|f]; [lia|].
  destruct (infinity_step f (Some (ch "-")) s Hlen)
    as [(r1 & _ & _ & ->) | [(_ & _ & ->) | (Hm & c & s' & -> & ->)]].
  - lits. cbn [app strip_prefix]. discriminate.
  - lits. discriminate.
  - lits. rewrite strip_prefix_cons.
    destruct (73 =? c) eqn:Hc; [|discriminate].
    apply Z.eqb_eq in Hc. subst c. intros Hp.
    cbn [length] in Hlen.
    apply (word_prefix_was_copied [110; 102; 105; 110; 105; 116; 121])
      in Hp; [|reflexivity|reflexivity|lia].
    destruct Hp as (r0 & Hp0 & ->).
    rewrite infinity_match in Hm.
    change (strip_prefix (lit "Infinity") (73 :: s'))
      with (strip_prefix [110; 102; 105; 110; 105; 116; 121] s') in Hm.
    rewrite Hp0 in Hm.
    change (xorb (is_word_before (Some (ch "-"))) (is_word_at (73 :: s')))
      with true in Hm.
    cbv iota in Hm. destruct (is_word_at r0); [reflexivity|discriminate].
Qed.

(** The pattern [\b-Infinity\b] matches nowhere at the head of an
    output of the substitution of [\bInfinity\b]. *)
Lemma neg_infinity_not_in_output fuel prev s outprev :
  (length s < fuel)%nat ->
  match_here neg_infinity_re outprev
    (sub_loop fuel infinity_re [TLit (lit "null")] prev s) = None.
Proof.
  intros Hlen. rewrite neg_infinity_match.
  destruct (xorb _ _); [|reflexivity].
  destruct fuel as [|f]; [lia|].
  destruct (infinity_step f prev s Hlen)
    as [(r1 & _ & _ & ->) | [(_ & _ & ->) | (Hm & c & s' & -> & ->)]].
  - lits. reflexivity.
  - lits. reflexivity.
  - lits. rewrite strip_prefix_cons.
    destruct (45 =? c) eqn:Hc; [|reflexivity].
    apply Z.eqb_eq in Hc. subst c. cbn [length] in Hlen.
    match goal with
    | |- context [strip_prefix ?p ?x] =>
      destruct (strip_prefix p x) as [r|] eqn:Hp; [|reflexivity]
    end.
    assert (length s' < f)%nat as Hlen' by lia.
    rewrite (infinity_after_minus_is_not_closed f s' r Hlen' Hp).
    reflexivity.
Qed.

Lemma neg_infinity_needs_minus outprev x t :
  (x =? ch "-") = false -> match_here neg_infinity_re outprev (x :: t) = None.
Proof.
  intros Hx. rewrite neg_infinity_match. lits. cbn [strip_prefix].
  rewrite Z.eqb_sym. chars. rewrite Hx. destruct (xorb _ _); reflexivity.
Qed.

Lemma sub_loop_copy r tm fuel prev s :
  match_here r prev s = None ->
  sub_loop (S fuel) r tm prev s
  = match s with
    | [] => []
    | c :: s' => c :: sub_loop fuel r tm (Some c) s'
    end.
Proof. intros H. cbn [sub_loop]. rewrite H. reflexivity. Qed.

(** The substitution of [\b-Infinity\b] copies an output of the
    substitution of [\bInfinity\b], also behind text without a minus
    sign. *)
Lemma neg_infinity_copies_output fuel2 :
  forall w fuel prev s outprev,
    forallb (fun c => negb (c =? ch "-")) w = true ->
    (length s < fuel)%nat ->
    sub_loop fuel2 neg_infinity_re [TLit (lit "null")] outprev
      (w ++ sub_loop fuel infinity_re [TLit (lit "null")] prev s)
    = w ++ sub_loop fuel infinity_re [TLit (lit "null")] prev s.
Proof.
  induction fuel2 as [|fuel2 IH]; intros w fuel prev s outprev Hw Hlen;
    [reflexivity|].
  destruct w as [|x w].
  - cbn [app]. rewrite sub_loop_copy
      by (apply neg_infinity_not_in_output; exact Hlen).
    destruct fuel as [|f]; [lia|].
    destruct (infinity_step f prev s Hlen)
      as [(r1 & _ & Hr1 & ->) | [(_ & _ & ->) | (Hm & c & s' & -> & ->)]].
    + lits. cbn [app]. f_equal.
      apply (IH [117; 108; 108] f (Some (ch "y")) r1 (Some 110));
        [reflexivity|exact Hr1].
    + reflexivity.
    + f_equal. cbn [length] in Hlen.
      apply (IH [] f (Some c) s' (Some c)); [reflexivity|lia].
  - cbn [forallb] in Hw. apply andb_true_iff in Hw. destruct Hw as [Hx Hw].
    apply negb_true_iff in Hx. cbn [app].
    rewrite sub_loop_copy by (apply neg_infinity_needs_minus; exact Hx).
    f_equal. apply IH; assumption.
Qed.

(** X11: the last repair never changes anything.  Whatever the text, the
    substitution of [\b-Infinity\b] applied after the substitution of
    [\bInfinity\b] returns its input, so the repaired text is the result of
    the first four substitutions: every [Infinity] the fifth pattern could
    cover has been rewritten by the fourth. *)
Theorem X11_negative_infinity_rule_never_applies (raw_text : text) :
  re_sub neg_infinity_re [TLit (lit "null")]
    (re_sub infinity_re [TLit (lit "null")] raw_text)
  = re_sub infinity_re [TLit (lit "null")] raw_text
  /\ repair raw_text
     = re_sub infinity_re [TLit (lit "null")]
         (re_sub nan_re [TLit (lit "null")]
            (re_sub trailing_comma_re [TGroup 1]
               (re_sub datetime_re datetime_repl raw_text))).
Proof.
  assert (forall t, re_sub neg_infinity_re [TLit (lit "null")]
                      (re_sub infinity_re [TLit (lit "null")] t)
                    = re_sub infinity_re [TLit (lit "null")] t) as H.
  { intros t. unfold re_sub at 1.
    apply (neg_infinity_copies_output _ [] (S (length t)) None t None);
      [reflexivity|]. lia. }
  split; [apply H|]. unfold repair. apply H.
Qed.

End DeadRule.

(** ** What the write can encode *)

Section EncodingProperties.
Context {rt : Runtime} {laws : FloatLaws rt}.

(** X12: a payload with a lone surrogate in a string or a key (the text
    of the request can only give one through a [\u] escape) parses, but
    the request fails: with no file-system fault the handler raises
    [UnicodeEncodeError] instead of answering, and [result.json] keeps what
    it held.  A payload that is itself a string fails when it is printed,
    before any file operation; any other payload fails in the write, which
    leaves the temporary file empty. *)
Theorem X12_lone_surrogate_aborts_the_request (raw_body : bytes) (w : World) :
  let payload :=
    fst (fst (_try_parse_mt5_json (Utf8.decode_ignore raw_body))) in
  faults w = [] ->
  strings_scalar payload = false ->
  exists msg w',
    webhook_from_mt5 raw_body w = (Raise (ExUnicodeError msg), w')
    /\ files w' !! result_path_of (module_file w)
       = files w !! result_path_of (module_file w)
    /\ match payload with
       | PStr _ => files w' = files w /\ calls w' = calls w
       | _ => files w' !! tmp_path_of (module_file w) = Some []
       end.
Proof.
  intros payload Hf Hs.
  assert (Hnone : is_None payload = false)
    by (destruct payload; try reflexivity; discriminate Hs).
  rewrite webhook_with_payload, print_payload_run by exact Hnone.
  fold payload.
  destruct (write_result_file_unencodable payload w Hf
              (json_dumps_unencodable payload Hs)) as (w' & Hw & Htmp & Hres).
  destruct payload as [| b | n | f | s | l | d]; try discriminate Hs.
  - cbn [strings_scalar] in Hs. rewrite Hs. eexists _, w. auto.
  - rewrite Hw. eexists _, w'. auto.
  - rewrite Hw. eexists _, w'. auto.
Qed.

End EncodingProperties.

(** ** Bodies without a backslash *)

Section BackslashProperties.
Context {rt : Runtime} {laws : FloatLaws rt}.

Lemma tame_scalar t : forallb tame t = true -> forallb is_scalar t = true.
Proof.
  rewrite !forallb_forall. intros H c Hc. specialize (H c Hc).
  unfold tame in H. apply andb_true_iff in H. tauto.
Qed.

(** The text of a body without the byte 5C has no backslash. *)
Lemma decode_ignore_tame_bounded n :
  forall bs, (length bs <= n)%nat -> no_backslash bs = true ->
  forallb tame (Utf8.decode_ignore bs) = true.
Proof.
  induction n as [|n IH]; intros bs Hn Hbs.
  - destruct bs; [reflexivity|simpl in Hn; lia].
  - destruct bs as [|b r]; [reflexivity|]. rewrite decode_ignore_cons.
    destruct (Utf8.decode_one (b :: r)) as [[c rest]|] eqn:Hd.
    + pose proof (decode_one_shorter _ _ _ Hd) as Hlen.
      destruct (decode_one_inv _ _ _ Hd) as (Hs & enc & Henc & Heq).
      rewrite Heq in Hbs. unfold no_backslash in Hbs.
      rewrite forallb_app in Hbs. apply andb_true_iff in Hbs.
      destruct Hbs as [Henc_ok Hrest].
      cbn [forallb]. rewrite (IH rest) by (simpl in *; (lia || exact Hrest)).
      unfold tame. rewrite Hs. cbn [andb].
      destruct (Z.eqb_spec c (ch "\")) as [->|_]; [|reflexivity].
      vm_compute in Henc. injection Henc as <-. discriminate Henc_ok.
    + apply IH; [simpl in Hn; lia|]. unfold no_backslash in *.
      cbn [forallb] in Hbs. apply andb_true_iff in Hbs. tauto.
Qed.

(** Without a backslash a string literal is copied from the text. *)
Lemma scanstring_tame s :
  forall begin acc out rest,
    forallb tame s = true -> forallb is_scalar acc = true ->
    scanstring begin acc s = Ok (out, rest) ->
    forallb is_scalar out = true /\ forallb tame rest = true.
Proof.
  induction s as [|c r IH]; intros begin acc out rest Hs Hacc;
    [discriminate|].
  cbn [forallb] in Hs. apply andb_true_iff in Hs. destruct Hs as [Hc Hr].
  unfold tame in Hc. apply andb_true_iff in Hc. destruct Hc as [Hsc Hbs].
  apply negb_true_iff in Hbs.
  cbn [scanstring]. rewrite Hbs.
  destruct (c =? dquote).
  - intros [= <- <-]. split; [|exact Hr].
    apply forallb_forall. intros x Hx. apply in_rev in Hx.
    rewrite forallb_forall in Hacc. auto.
  - destruct (c <=? 31); [discriminate|].
    apply IH; [exact Hr|]. cbn [forallb]. rewrite Hsc, Hacc. reflexivity.
Qed.

Lemma dict_set_forallb (F : list Z * pyval -> bool) d k v :
  forallb F d = true -> F (k, v) = true -> forallb F (dict_set d k v) = true.
Proof.
  intros Hd Hv. induction d as [|[k' v'] d IH]; cbn [dict_set forallb].
  - rewrite Hv. reflexivity.
  - cbn [forallb] in Hd. apply andb_true_iff in Hd. destruct Hd as [Hv' Hd].
    destruct (text_eqb k' k); cbn [forallb].
    + rewrite Hv, Hd. reflexivity.
    + rewrite Hv', IH by exact Hd. reflexivity.
Qed.

Lemma strings_scalar_rev_cons (v : pyval) acc :
  strings_scalar v = true -> forallb strings_scalar acc = true ->
  forallb strings_scalar (rev (v :: acc)) = true.
Proof.
  intros Hv Hacc. apply forallb_forall. intros x Hx.
  apply in_rev in Hx. destruct Hx as [<- | Hx]; [exact Hv|].
  rewrite forallb_forall in Hacc. auto.
Qed.

(** From a text without a backslash the scanner builds values whose
    strings are Unicode text. *)
Lemma scanner_tame fuel :
  (forall s v r,
     forallb tame s = true -> scan_once fuel s = Ok (v, r) ->
     strings_scalar v = true /\ forallb tame r = true)
  /\ (forall acc s v r,
        forallb tame s = true -> forallb strings_scalar acc = true ->
        parse_array fuel acc s = Ok (v, r) ->
        strings_scalar v = true /\ forallb tame r = true)
  /\ (forall acc s v r,
        forallb tame s = true -> strings_scalar (PDict acc) = true ->
        parse_object fuel acc s = Ok (v, r) ->
        strings_scalar v = true /\ forallb tame r = true).
Proof.
  induction fuel as [|fuel (IHscan & IHarr & IHobj)].
  - repeat split; intros; discriminate.
  - split; [|split].
    + intros [|c r0] v r Hs; [discriminate|]. rewrite scan_once_eq.
      assert (Hr0 : forallb tame r0 = true)
        by (cbn [forallb] in Hs; apply andb_true_iff in Hs; tauto).
      destruct (c =? dquote).
      { destruct (scanstring _ _ r0) as [[str r']|m p] eqn:Hstr;
          [|discriminate].
        intros [= <- <-].
        apply scanstring_tame in Hstr; [exact Hstr|exact Hr0|reflexivity]. }
      pose proof (skip_ws_keeps tame r0 Hr0) as Hskip.
      destruct (c =? ch "{").
      { destruct (skip_ws r0) as [|c' r'].
        - apply IHobj; reflexivity.
        - destruct (c' =? ch "}").
          + intros [= <- <-]. split; [reflexivity|].
            cbn [forallb] in Hskip. apply andb_true_iff in Hskip. tauto.
          + apply IHobj; [exact Hskip|reflexivity]. }
      destruct (c =? ch "[").
      { destruct (skip_ws r0) as [|c' r'].
        - apply IHarr; reflexivity.
        - destruct (c' =? ch "]").
          + intros [= <- <-]. split; [reflexivity|].
            cbn [forallb] in Hskip. apply andb_true_iff in Hskip. tauto.
          + apply IHarr; [exact Hskip|reflexivity]. }
      repeat match goal with
      | |- match strip_prefix ?p ?s with _ => _ end = _ -> _ =>
        let Hp := fresh "Hp" in
        destruct (strip_prefix p s) eqn:Hp;
          [intros [= <- <-]; split; [reflexivity|];
           exact (strip_prefix_keeps tame _ _ _ Hs Hp)|]
      end.
      apply match_number_keeps. exact Hs.
    + intros acc s v r Hs Hacc. rewrite parse_array_eq.
      destruct (scan_once fuel s) as [[x r1]|m p] eqn:Hx; [|discriminate].
      apply IHscan in Hx; [|exact Hs]. destruct Hx as [Hx Hr1].
      apply (skip_ws_keeps tame) in Hr1.
      destruct (skip_ws r1) as [|c r']; [discriminate|].
      cbn [forallb] in Hr1. apply andb_true_iff in Hr1.
      destruct Hr1 as [_ Hr'].
      destruct (c =? ch "]").
      { intros [= <- <-]. split; [|exact Hr'].
        cbn [strings_scalar]. apply strings_scalar_rev_cons; assumption. }
      destruct (c =? ch ","); [|discriminate].
      apply IHarr; [apply skip_ws_keeps; exact Hr'|].
      cbn [forallb]. rewrite Hx, Hacc. reflexivity.
    + intros acc [|q r0] v r Hs Hacc; [discriminate|]. rewrite parse_object_eq.
      assert (Hr0 : forallb tame r0 = true)
        by (cbn [forallb] in Hs; apply andb_true_iff in Hs; tauto).
      destruct (q =? dquote); [|discriminate].
      destruct (scanstring _ _ r0) as [[key r1]|m p] eqn:Hkey; [|discriminate].
      apply scanstring_tame in Hkey; [|exact Hr0|reflexivity].
      destruct Hkey as [Hkey Hr1]. apply (skip_ws_keeps tame) in Hr1.
      destruct (skip_ws r1) as [|c r2]; [discriminate|].
      cbn [forallb] in Hr1. apply andb_true_iff in Hr1.
      destruct Hr1 as [_ Hr2].
      destruct (c =? ch ":"); [|discriminate].
      destruct (scan_once fuel (skip_ws r2)) as [[x r3]|m p] eqn:Hx;
        [|discriminate].
      apply IHscan in Hx; [|apply skip_ws_keeps; exact Hr2].
      destruct Hx as [Hx Hr3]. apply (skip_ws_keeps tame) in Hr3.
      destruct (skip_ws r3) as [|c' r4]; [discriminate|].
      cbn [forallb] in Hr3. apply andb_true_iff in Hr3.
      destruct Hr3 as [_ Hr4].
      assert (Hset : strings_scalar (PDict (dict_set acc key x)) = true).
      { cbn [strings_scalar] in *. apply dict_set_forallb; [exact Hacc|].
        cbn [fst snd]. rewrite Hkey, Hx. reflexivity. }
      destruct (c' =? ch "}").
      { intros [= <- <-]. split; [exact Hset|exact Hr4]. }
      destruct (c' =? ch ","); [|discriminate].
      apply IHobj; [apply skip_ws_keeps; exact Hr4|exact Hset].
Qed.

Lemma json_loads_tame s v :
  forallb tame s = true -> json_loads s = inl v -> strings_scalar v = true.
Proof.
  intros Hs. unfold json_loads. destruct (starts_with_bom s); [discriminate|].
  destruct (scan_once _ (skip_ws s)) as [[x r]|m p] eqn:Hx; [|discriminate].
  apply (proj1 (scanner_tame _)) in Hx; [|apply skip_ws_keeps; exact Hs].
  destruct (skip_ws r); [|discriminate]. intros [= <-]. tauto.
Qed.

Lemma repair_tame s : forallb tame s = true -> forallb tame (repair s) = true.
Proof.
  intros Hs. unfold repair.
  repeat (apply re_sub_keeps; [reflexivity|]). exact Hs.
Qed.

Lemma try_parse_tame raw_text :
  forallb tame raw_text = true ->
  strings_scalar (fst (fst (_try_parse_mt5_json raw_text))) = true.
Proof.
  intros Hs. unfold _try_parse_mt5_json.
  destruct (json_loads raw_text) as [v|e1] eqn:H1.
  - exact (json_loads_tame _ _ Hs H1).
  - destruct (json_loads (repair raw_text)) as [v|e2] eqn:H2;
      [|reflexivity].
    exact (json_loads_tame _ _ (repair_tame _ Hs) H2).
Qed.

(** With no file-system fault and a payload without a lone surrogate,
    the handler answers, unless the payload holds a float that is not
    finite: then the snapshot is written and the response cannot be
    built. *)
Lemma webhook_from_mt5_answers raw_body w :
  let payload :=
    fst (fst (_try_parse_mt5_json (Utf8.decode_ignore raw_body))) in
  faults w = [] ->
  strings_scalar payload = true ->
  (has_nonfinite payload = false ->
   exists resp w',
     webhook_from_mt5 raw_body w = (Return resp, w')
     /\ status_code resp = (if is_None payload then 400 else 200)
     /\ faults w' = [])
  /\ (has_nonfinite payload = true ->
      exists b w',
        webhook_from_mt5 raw_body w
        = (Raise (ExValueError out_of_range_msg), w')
        /\ Utf8.encode (json_dumps payload) = Some b
        /\ files w' !! result_path_of (module_file w) = Some b).
Proof.
  intros payload Hf Hs.
  destruct (is_None payload) eqn:Hnone.
  - assert (Hp : payload = PNone) by (destruct payload; try discriminate; auto).
    split; [|rewrite Hp; discriminate].
    intros _. rewrite webhook_without_payload by exact Hnone.
    destruct (write_result_file_ok (PDict []) w [123; 125] Hf eq_refl)
      as (w' & -> & _ & Hf' & _).
    eexists _, w'. auto.
  - rewrite webhook_with_payload by exact Hnone. fold payload.
    rewrite print_payload_ok by exact Hs.
    destruct (json_dumps_encodable payload Hs) as [b Hb].
    destruct (write_result_file_ok payload w b Hf Hb)
      as (w' & -> & Hfile & Hf' & _).
    split; intros Hn.
    + rewrite JSONResponse_valid;
        [|rewrite ok_body_nonfinite; exact Hn
         |rewrite ok_body_strings; exact Hs].
      eexists _, w'. auto.
    + rewrite JSONResponse_nonfinite by (rewrite ok_body_nonfinite; exact Hn).
      exists b, w'. auto.
Qed.

(** X13: with no file-system fault, a request whose payload has no lone
    surrogate is answered (400 without a payload, 200 with one) exactly
    when the payload holds no float that is not finite.  For a payload with
    [NaN] or an infinity, which the parser accepts, the handler writes the
    snapshot and then raises [ValueError] where it builds the response.
    (The recursion limit of the interpreter is not part of the model.) *)
Theorem X13_finite_payload_is_answered (raw_body : bytes) (w : World) :
  let payload :=
    fst (fst (_try_parse_mt5_json (Utf8.decode_ignore raw_body))) in
  faults w = [] ->
  strings_scalar payload = true ->
  (has_nonfinite payload = false ->
   exists resp w',
     webhook_from_mt5 raw_body w = (Return resp, w')
     /\ status_code resp = (if is_None payload then 400 else 200)
     /\ faults w' = [])
  /\ (has_nonfinite payload = true ->
      exists b w',
        webhook_from_mt5 raw_body w
        = (Raise (ExValueError out_of_range_msg), w')
        /\ Utf8.encode (json_dumps payload) = Some b
        /\ files w' !! result_path_of (module_file w) = Some b).
Proof. intros payload Hf Hs. apply webhook_from_mt5_answers; assumption. Qed.

(** X14: a body without the byte of the backslash never fails on a
    surrogate.  Whatever else the bytes are (ill-formed UTF-8, text that is
    not JSON, text the repairs rewrite), the strings of the payload are cut
    out of the decoded text and are Unicode text; with no file-system fault
    the handler then returns its 200 or 400 response, unless the payload
    holds a float that is not finite, in which case it writes the snapshot
    and raises [ValueError].  (The recursion limit of the interpreter is not
    part of the model.) *)
Theorem X14_body_without_backslash_is_text (raw_body : bytes) (w : World) :
  let payload :=
    fst (fst (_try_parse_mt5_json (Utf8.decode_ignore raw_body))) in
  faults w = [] ->
  no_backslash raw_body = true ->
  strings_scalar payload = true
  /\ (has_nonfinite payload = false ->
      exists resp w',
        webhook_from_mt5 raw_body w = (Return resp, w')
        /\ status_code resp = (if is_None payload then 400 else 200)
        /\ faults w' = [])
  /\ (has_nonfinite payload = true ->
      exists b w',
        webhook_from_mt5 raw_body w
        = (Raise (ExValueError out_of_range_msg), w')
        /\ Utf8.encode (json_dumps payload) = Some b
        /\ files w' !! result_path_of (module_file w) = Some b).
Proof.
  intros payload Hf Hbs.
  assert (Hs : strings_scalar payload = true).
  { apply try_parse_tame.
    apply (decode_ignore_tame_bounded (length raw_body)); [lia|exact Hbs]. }
  split; [exact Hs|]. apply webhook_from_mt5_answers; assumption.
Qed.

End BackslashProperties.

(** ** The repair of a bare date and time *)

Section DatetimeRepair.
Context {rt : Runtime}.

Lemma digit_range d : JsonDecoder.is_digit d = true -> 48 <= d <= 57.
Proof.
  unfold JsonDecoder.is_digit. chars.
  rewrite andb_true_iff, !Z.leb_le. tauto.
Qed.

Lemma cat_digit_digit d : JsonDecoder.is_digit d = true -> cat_digit d = true.
Proof.
  intros H. pose proof (digit_range d H). unfold cat_digit.
  rewrite (proj2 (Z.ltb_lt d 128)) by lia. exact H.
Qed.

Lemma cat_space_digit d : JsonDecoder.is_digit d = true -> cat_space d = false.
Proof.
  intros H. apply digit_range in H. unfold cat_space.
  rewrite (proj2 (Z.ltb_lt d 128)) by lia.
  rewrite (proj2 (Z.leb_gt d 13)), (proj2 (Z.leb_gt d 31)),
    (proj2 (Z.eqb_neq d 32)) by lia.
  rewrite !andb_false_r. reflexivity.
Qed.

Lemma cat_word_digit d : JsonDecoder.is_digit d = true -> cat_word d = true.
Proof.
  intros H. pose proof (digit_range d H). unfold cat_word, ascii_isalnum.
  rewrite (proj2 (Z.ltb_lt d 128)) by lia. chars.
  rewrite (proj2 (Z.leb_le 48 d)), (proj2 (Z.leb_le d 57)) by lia.
  reflexivity.
Qed.

(** The first pattern at a colon followed by a date and time. *)
Lemma datetime_re_match prev y1 y2 y3 y4 m1 m2 d1 d2 h1 h2 mi1 mi2 s1 s2 :
  forallb JsonDecoder.is_digit
    [y1; y2; y3; y4; m1; m2; d1; d2; h1; h2; mi1; mi2; s1; s2] = true ->
  match_here datetime_re prev
    [58; y1; y2; y3; y4; 46; m1; m2; 46; d1; d2; 32;
     h1; h2; 58; mi1; mi2; 58; s1; s2; 125]
  = Some (Some s2, [125],
          [(2%nat, [y1; y2; y3; y4; 46; m1; m2; 46; d1; d2; 32;
                    h1; h2; 58; mi1; mi2; 58; s1; s2]);
           (1%nat, [58])]).
Proof.
  intros Hd. cbn [forallb] in Hd.
  repeat (apply andb_true_iff in Hd; destruct Hd as [? Hd]).
  repeat match goal with
  | H : JsonDecoder.is_digit ?d = true |- _ =>
    pose proof (cat_digit_digit d H); pose proof (cat_space_digit d H);
    pose proof (cat_word_digit d H); clear H
  end.
  unfold match_here, datetime_re.
  cbn [Seq Plus map app rmatch length Nat.ltb Nat.leb Nat.sub firstn].
  chars.
  repeat match goal with
  | H : ?c = _ |- context [?c] => rewrite H
  end.
  cbn [is_word_before].
  match goal with H : cat_word s2 = true |- _ => rewrite H end.
  reflexivity.
Qed.

(** One step of [re.sub]. *)
Lemma sub_loop_S fuel r tm prev s :
  sub_loop (S fuel) r tm prev s
  = match match_here r prev s with
    | Some (prev', s', caps) =>
      if (length s' <? length s)%nat
      then expand tm caps ++ sub_loop fuel r tm prev' s'
      else expand tm caps
           ++ match s with
              | [] => []
              | c :: s0 => c :: sub_loop fuel r tm (Some c) s0
              end
    | None =>
      match s with
      | [] => []
      | c :: s0 => c :: sub_loop fuel r tm (Some c) s0
      end
    end.
Proof. reflexivity. Qed.

(** Where the pattern cannot start, the text is copied. *)
Lemma sub_loop_copy_prefix r tm (P : Z -> bool) :
  (forall prev c s, P c = true -> match_here r prev (c :: s) = None) ->
  forall pre fuel prev rest,
    forallb P pre = true ->
    sub_loop (length pre + fuel) r tm prev (pre ++ rest)
    = pre ++ sub_loop fuel r tm (fold_left (fun _ c => Some c) pre prev) rest.
Proof.
  intros Hno. induction pre as [|c pre IH]; intros fuel prev rest Hpre;
    [reflexivity|].
  cbn [forallb] in Hpre. apply andb_true_iff in Hpre. destruct Hpre as [Hc Hpre].
  cbn [length Nat.add app sub_loop fold_left].
  rewrite (Hno prev c (pre ++ rest) Hc), IH by exact Hpre. reflexivity.
Qed.

Lemma datetime_re_first prev c s :
  (c =? ch ":") = false -> match_here datetime_re prev (c :: s) = None.
Proof.
  intros H. unfold match_here, datetime_re. cbn [Seq rmatch]. rewrite H.
  reflexivity.
Qed.

Lemma trailing_comma_re_first prev c s :
  (c =? ch ",") = false -> match_here trailing_comma_re prev (c :: s) = None.
Proof.
  intros H. unfold match_here, trailing_comma_re. cbn [Seq rmatch]. rewrite H.
  reflexivity.
Qed.

Lemma nan_re_first prev c s :
  (c =? ch "N") = false -> match_here nan_re prev (c :: s) = None.
Proof.
  intros H. unfold match_here, nan_re, Lit. cbn [lit map Seq rmatch].
  rewrite H. destruct (xorb _ _); reflexivity.
Qed.

Lemma infinity_re_first prev c s :
  (c =? ch "I") = false -> match_here infinity_re prev (c :: s) = None.
Proof.
  intros H. unfold match_here, infinity_re, Lit. cbn [lit map Seq rmatch].
  rewrite H. destruct (xorb _ _); reflexivity.
Qed.

Lemma forallb_imp (P Q : Z -> bool) l :
  (forall c, P c = true -> Q c = true) ->
  forallb P l = true -> forallb Q l = true.
Proof. rewrite !forallb_forall. auto. Qed.

Lemma key_char_facts c :
  key_char c = true ->
  32 <= c /\ c <> 34 /\ c <> 92 /\ c <> 58 /\ c <> 44 /\ c <> 78 /\ c <> 73
  /\ c <> 45.
Proof.
  unfold key_char, trigger, dquote. chars.
  rewrite !andb_true_iff, !negb_true_iff, !orb_false_iff, Z.leb_le,
    !Z.eqb_neq. tauto.
Qed.

(** A string literal without escapes is read as it is. *)
Lemma scanstring_plain t :
  forall begin acc rest,
    forallb (fun c => (32 <=? c) && negb (c =? 34) && negb (c =? 92)) t = true ->
    scanstring begin acc (t ++ 34 :: rest) = Ok (rev acc ++ t, rest).
Proof.
  induction t as [|c t IH]; intros begin acc rest Ht.
  - cbn [app scanstring]. change (34 =? dquote) with true. cbn iota.
    rewrite app_nil_r. reflexivity.
  - cbn [forallb] in Ht. apply andb_true_iff in Ht. destruct Ht as [Hc Ht].
    rewrite !andb_true_iff, !negb_true_iff, Z.leb_le in Hc.
    destruct Hc as [[Hlo Hq] Hb].
    cbn [app scanstring]. unfold dquote at 1. chars. rewrite Hq, Hb.
    rewrite (proj2 (Z.leb_gt c 31)) by lia.
    rewrite IH by exact Ht. cbn [rev]. rewrite <- app_assoc. reflexivity.
Qed.


Lemma datetime_re_nil prev : match_here datetime_re prev [] = None.
Proof. reflexivity. Qed.

Lemma trailing_comma_re_nil prev : match_here trailing_comma_re prev [] = None.
Proof. reflexivity. Qed.

(** The first repair on an object with one member, a bare date and
    time. *)
Lemma datetime_sub_member key y1 y2 y3 y4 m1 m2 d1 d2 h1 h2 mi1 mi2 s1 s2 :
  forallb key_char key = true ->
  forallb JsonDecoder.is_digit
    [y1; y2; y3; y4; m1; m2; d1; d2; h1; h2; mi1; mi2; s1; s2] = true ->
  re_sub datetime_re datetime_repl
    (123 :: 34 :: key
     ++ [34; 58; y1; y2; y3; y4; 46; m1; m2; 46; d1; d2; 32;
         h1; h2; 58; mi1; mi2; 58; s1; s2; 125])
  = 123 :: 34 :: key
    ++ [34; 58; 34; y1; y2; y3; y4; 46; m1; m2; 46; d1; d2; 32;
        h1; h2; 58; mi1; mi2; 58; s1; s2; 34; 125].
Proof.
  intros Hkey Hd. unfold re_sub.
  replace (123 :: 34 :: key
           ++ [34; 58; y1; y2; y3; y4; 46; m1; m2; 46; d1; d2; 32;
               h1; h2; 58; mi1; mi2; 58; s1; s2; 125])
    with ((123 :: 34 :: key ++ [34])
          ++ [58; y1; y2; y3; y4; 46; m1; m2; 46; d1; d2; 32;
              h1; h2; 58; mi1; mi2; 58; s1; s2; 125])
    by (cbn [app]; rewrite <- app_assoc; reflexivity).
  match goal with
  | |- sub_loop (S (length (?pre ++ ?rest))) _ _ _ _ = _ =>
    replace (S (length (pre ++ rest))) with (length pre + S (length rest))%nat
      by (rewrite length_app; lia)
  end.
  rewrite (sub_loop_copy_prefix datetime_re datetime_repl
             (fun c => negb (c =? 58))).
  - cbn [length]. rewrite sub_loop_S.
    rewrite (datetime_re_match _ _ _ _ _ _ _ _ _ _ _ _ _ _ _ Hd).
    cbn [length Nat.ltb Nat.leb datetime_repl expand group Nat.eqb app].
    rewrite sub_loop_S, datetime_re_first by reflexivity.
    rewrite sub_loop_S, datetime_re_nil.
    cbn [app]. rewrite <- app_assoc. reflexivity.
  - intros prev c s Hc. apply datetime_re_first. apply negb_true_iff. exact Hc.
  - cbn [forallb]. rewrite forallb_app. cbn [forallb andb].
    rewrite andb_true_r. apply (forallb_imp key_char); [|exact Hkey].
    intros c Hc. apply key_char_facts in Hc. apply negb_true_iff, Z.eqb_neq.
    tauto.
Qed.


(** The other four repairs find nothing in the quoted text. *)
Lemma later_repairs_keep key val :
  forallb key_char key = true ->
  forallb (fun c => JsonDecoder.is_digit c || (c =? 46) || (c =? 32)
                    || (c =? 58)) val = true ->
  let quoted := 123 :: 34 :: key ++ 34 :: 58 :: 34 :: val ++ [34; 125] in
  re_sub neg_infinity_re [TLit (lit "null")]
    (re_sub infinity_re [TLit (lit "null")]
       (re_sub nan_re [TLit (lit "null")]
          (re_sub trailing_comma_re [TGroup 1] quoted)))
  = quoted.
Proof.
  intros Hkey Hval quoted.
  assert (Hq : forallb (fun c => negb (c =? 44) && negb (c =? 78)
                                 && negb (c =? 73) && negb (c =? 45))
                 quoted = true).
  { assert (Hk : forallb (fun c => negb (c =? 44) && negb (c =? 78)
                                   && negb (c =? 73) && negb (c =? 45))
                   key = true).
    { apply (forallb_imp key_char); [|exact Hkey]. intros c Hc.
      apply key_char_facts in Hc.
      rewrite !andb_true_iff, !negb_true_iff, !Z.eqb_neq. tauto. }
    assert (Hv : forallb (fun c => negb (c =? 44) && negb (c =? 78)
                                   && negb (c =? 73) && negb (c =? 45))
                   val = true).
    { eapply forallb_imp; [|exact Hval]. cbv beta. intros c Hc.
      rewrite !orb_true_iff, !Z.eqb_eq in Hc.
      rewrite !andb_true_iff, !negb_true_iff, !Z.eqb_neq.
      destruct Hc as [[[Hc | Hc] | Hc] | Hc];
        [apply digit_range in Hc|..]; lia. }
    unfold quoted.
    change (123 :: 34 :: key ++ 34 :: 58 :: 34 :: val ++ [34; 125])
      with ([123; 34] ++ key ++ [34; 58; 34] ++ val ++ [34; 125]).
    rewrite !forallb_app, Hk, Hv. reflexivity. }
  unfold re_sub.
  rewrite (sub_loop_no_match trailing_comma_re _ (fun c => negb (c =? 44)));
    [|apply trailing_comma_re_nil
     |intros prev c s Hc; apply trailing_comma_re_first, negb_true_iff, Hc
     |eapply forallb_imp; [|exact Hq]; cbv beta; intros c Hc;
      rewrite !andb_true_iff in Hc; tauto].
  rewrite (sub_loop_no_match nan_re _ (fun c => negb (c =? 78)));
    [|intros; apply word_patterns_need_text
     |intros prev c s Hc; apply nan_re_first, negb_true_iff, Hc
     |eapply forallb_imp; [|exact Hq]; cbv beta; intros c Hc;
      rewrite !andb_true_iff in Hc; tauto].
  rewrite (sub_loop_no_match infinity_re _ (fun c => negb (c =? 73)));
    [|intros; apply word_patterns_need_text
     |intros prev c s Hc; apply infinity_re_first, negb_true_iff, Hc
     |eapply forallb_imp; [|exact Hq]; cbv beta; intros c Hc;
      rewrite !andb_true_iff in Hc; tauto].
  rewrite (sub_loop_no_match neg_infinity_re _ (fun c => negb (c =? 45)));
    [|intros; apply word_patterns_need_text
     |intros prev c s Hc; apply neg_infinity_needs_minus, negb_true_iff, Hc
     |eapply forallb_imp; [|exact Hq]; cbv beta; intros c Hc;
      rewrite !andb_true_iff in Hc; tauto].
  reflexivity.
Qed.

(** Evaluate the tests on character constants, and those that the ranges
    of the digits decide. *)
Local Ltac tests :=
  repeat match goal with
  | |- context [JsonDecoder.is_digit ?a] =>
    let v := eval vm_compute in (JsonDecoder.is_digit a) in
    match v with
    | true => change (JsonDecoder.is_digit a) with true
    | false => change (JsonDecoder.is_digit a) with false
    end
  | H : JsonDecoder.is_digit ?a = true |- context [JsonDecoder.is_digit ?a] =>
    rewrite H
  | |- context [?a =? ?b] =>
    let v := eval vm_compute in (a =? b) in
    match v with
    | true => change (a =? b) with true
    | false => change (a =? b) with false
    end
  | |- context [?a =? ?b] => rewrite (proj2 (Z.eqb_neq a b)) by lia
  | |- context [?a <=? ?b] =>
    let v := eval vm_compute in (a <=? b) in
    match v with
    | true => change (a <=? b) with true
    | false => change (a <=? b) with false
    end
  | |- context [?a <=? ?b] =>
    first [ rewrite (proj2 (Z.leb_le a b)) by lia
          | rewrite (proj2 (Z.leb_gt a b)) by lia ]
  end;
  cbv beta iota.

(** The object with a quoted member is JSON. *)
Lemma json_loads_member key val :
  forallb (fun c => (32 <=? c) && negb (c =? 34) && negb (c =? 92)) key = true ->
  forallb (fun c => (32 <=? c) && negb (c =? 34) && negb (c =? 92)) val = true ->
  json_loads (123 :: 34 :: key ++ 34 :: 58 :: 34 :: val ++ [34; 125])
  = inl (PDict [(key, PStr val)]).
Proof.
  intros Hkey Hval. unfold json_loads. cbn [starts_with_bom]. tests.
  match goal with
  | |- context [scan_once ?n _] => remember n as fuel eqn:Hfuel
  end.
  assert (3 <= fuel)%nat by (subst fuel; cbn [length]; lia).
  destruct fuel as [|[|[|fuel]]]; try lia. clear Hfuel.
  rewrite skip_ws_not_ws by reflexivity. rewrite scan_once_eq. tests.
  rewrite skip_ws_not_ws by reflexivity. tests.
  rewrite parse_object_eq. tests.
  rewrite scanstring_plain by exact Hkey. cbn [rev app]. tests.
  rewrite skip_ws_not_ws by reflexivity. tests.
  rewrite skip_ws_not_ws by reflexivity. rewrite scan_once_eq. tests.
  rewrite scanstring_plain by exact Hval. cbn [rev app]. tests.
  rewrite skip_ws_not_ws by reflexivity. tests.
  cbn [skip_ws dict_set]. reflexivity.
Qed.


Local Ltac lits :=
  repeat match goal with
  | |- context [lit ?a] =>
    let v := eval vm_compute in (lit a) in change (lit a) with v
  end.

(** The object with a bare date and time is not JSON. *)
Lemma json_loads_bare_member_fails
    key y1 y2 y3 y4 m1 m2 d1 d2 h1 h2 mi1 mi2 s1 s2 :
  forallb (fun c => (32 <=? c) && negb (c =? 34) && negb (c =? 92)) key = true ->
  forallb JsonDecoder.is_digit
    [y1; y2; y3; y4; m1; m2; d1; d2; h1; h2; mi1; mi2; s1; s2] = true ->
  exists e,
    json_loads (123 :: 34 :: key
                ++ [34; 58; y1; y2; y3; y4; 46; m1; m2; 46; d1; d2; 32;
                    h1; h2; 58; mi1; mi2; 58; s1; s2; 125])
    = inr e.
Proof.
  intros Hkey Hd. cbn [forallb] in Hd.
  repeat (apply andb_true_iff in Hd; destruct Hd as [? Hd]). clear Hd.
  repeat match goal with
  | H : JsonDecoder.is_digit ?d = true |- _ =>
    lazymatch goal with
    | _ : 48 <= d <= 57 |- _ => fail
    | _ => pose proof (digit_range d H)
    end
  end.
  unfold json_loads. cbn [starts_with_bom]. tests.
  match goal with
  | |- context [scan_once ?n _] => remember n as fuel eqn:Hfuel
  end.
  assert (3 <= fuel)%nat by (subst fuel; cbn [length]; lia).
  destruct fuel as [|[|[|fuel]]]; try lia. clear Hfuel.
  rewrite skip_ws_not_ws by reflexivity. rewrite scan_once_eq. tests.
  rewrite skip_ws_not_ws by reflexivity. tests.
  rewrite parse_object_eq. tests.
  rewrite scanstring_plain by exact Hkey. cbn [rev app]. tests.
  rewrite skip_ws_not_ws by reflexivity. tests.
  rewrite skip_ws_not_ws
    by (unfold is_ws; rewrite !(proj2 (Z.eqb_neq y1 _)) by lia; reflexivity).
  rewrite scan_once_eq. unfold dquote. chars.
  tests.
  lits. rewrite !strip_prefix_cons. tests.
  unfold match_number.
  destruct (Z.eq_dec y1 48) as [-> | Hy1].
  - repeat (progress (cbn [scan_sign scan_int scan_frac scan_exp span_digits
                           andb orb app]; chars; tests)).
    rewrite skip_ws_not_ws
      by (unfold is_ws; rewrite !(proj2 (Z.eqb_neq y2 _)) by lia; reflexivity).
    tests. eexists. reflexivity.
  - repeat (progress (cbn [scan_sign scan_int scan_frac scan_exp span_digits
                           andb orb app]; chars; tests)).
    rewrite skip_ws_not_ws by reflexivity.
    tests. eexists. reflexivity.
Qed.

(** X15: the repair of the case it was written for.  For every plain key
    and every date and time [YYYY.MM.DD hh:mm:ss] of ASCII digits, the
    object with that one member, the date and time bare, is not JSON; the
    repair quotes the date and time and changes nothing else, and the payload
    is the object with the date and time as a string. *)
Theorem X15_bare_datetime_member_is_quoted (key Y M D h m s : text) :
  forallb key_char key = true ->
  is_digits 4 Y = true -> is_digits 2 M = true -> is_digits 2 D = true ->
  is_digits 2 h = true -> is_digits 2 m = true -> is_digits 2 s = true ->
  let date := mt5_datetime Y M D h m s in
  _try_parse_mt5_json
    (lit "{" ++ [dquote] ++ key ++ [dquote] ++ lit ":" ++ date ++ lit "}")
  = (PDict [(key, PStr date)],
     Some (lit "{" ++ [dquote] ++ key ++ [dquote] ++ lit ":"
           ++ [dquote] ++ date ++ [dquote] ++ lit "}"),
     None).
Proof.
  intros Hkey HY HM HD Hh Hm Hs.
  destruct Y as [|y1 [|y2 [|y3 [|y4 [|]]]]]; try discriminate HY.
  destruct M as [|m1 [|m2 [|]]]; try discriminate HM.
  destruct D as [|d1 [|d2 [|]]]; try discriminate HD.
  destruct h as [|h1 [|h2 [|]]]; try discriminate Hh.
  destruct m as [|mi1 [|mi2 [|]]]; try discriminate Hm.
  destruct s as [|s1 [|s2 [|]]]; try discriminate Hs.
  unfold is_digits in *. cbn [length Nat.eqb andb forallb] in *.
  repeat match goal with
  | H : _ && _ = true |- _ => apply andb_true_iff in H; destruct H
  end.
  assert (Hd : forallb JsonDecoder.is_digit
                 [y1; y2; y3; y4; m1; m2; d1; d2; h1; h2; mi1; mi2; s1; s2]
               = true).
  { cbn [forallb].
    repeat match goal with
    | H : JsonDecoder.is_digit ?d = true |- context [JsonDecoder.is_digit ?d] =>
      rewrite H
    end.
    reflexivity. }
  assert (Hval : forallb (fun c => JsonDecoder.is_digit c || (c =? 46)
                                   || (c =? 32) || (c =? 58))
                   [y1; y2; y3; y4; 46; m1; m2; 46; d1; d2; 32;
                    h1; h2; 58; mi1; mi2; 58; s1; s2] = true).
  { cbn [forallb].
    repeat match goal with
    | H : JsonDecoder.is_digit ?d = true |- context [JsonDecoder.is_digit ?d] =>
      rewrite H
    end.
    reflexivity. }
  assert (Hsafe : forall t,
            forallb (fun c => JsonDecoder.is_digit c || (c =? 46)
                              || (c =? 32) || (c =? 58)) t = true ->
            forallb (fun c => (32 <=? c) && negb (c =? 34) && negb (c =? 92))
              t = true).
  { intros t. apply forallb_imp. intros c Hc.
    rewrite !orb_true_iff, !Z.eqb_eq in Hc.
    rewrite !andb_true_iff, !negb_true_iff, !Z.eqb_neq, Z.leb_le.
    destruct Hc as [[[Hc | Hc] | Hc] | Hc];
      [apply digit_range in Hc|..]; lia. }
  assert (Hkey' : forallb (fun c => (32 <=? c) && negb (c =? 34)
                                    && negb (c =? 92)) key = true).
  { apply (forallb_imp key_char); [|exact Hkey]. intros c Hc.
    apply key_char_facts in Hc.
    rewrite !andb_true_iff, !negb_true_iff, !Z.eqb_neq, Z.leb_le. lia. }
  change (_try_parse_mt5_json
            (123 :: 34 :: key
             ++ [34; 58; y1; y2; y3; y4; 46; m1; m2; 46; d1; d2; 32;
                 h1; h2; 58; mi1; mi2; 58; s1; s2; 125])
          = (PDict [(key, PStr [y1; y2; y3; y4; 46; m1; m2; 46; d1; d2; 32;
                                h1; h2; 58; mi1; mi2; 58; s1; s2])],
             Some (123 :: 34 :: key ++ 34 :: 58 :: 34
                   :: [y1; y2; y3; y4; 46; m1; m2; 46; d1; d2; 32;
                       h1; h2; 58; mi1; mi2; 58; s1; s2] ++ [34; 125]),
             None)).
  unfold _try_parse_mt5_json.
  destruct (json_loads_bare_member_fails key _ _ _ _ _ _ _ _ _ _ _ _ _ _
              Hkey' Hd) as [e ->].
  assert (Hrep : repair (123 :: 34 :: key
                         ++ [34; 58; y1; y2; y3; y4; 46; m1; m2; 46; d1; d2;
                             32; h1; h2; 58; mi1; mi2; 58; s1; s2; 125])
                 = 123 :: 34 :: key ++ 34 :: 58 :: 34
                   :: [y1; y2; y3; y4; 46; m1; m2; 46; d1; d2; 32;
                       h1; h2; 58; mi1; mi2; 58; s1; s2] ++ [34; 125]).
  { unfold repair. rewrite (datetime_sub_member key _ _ _ _ _ _ _ _ _ _ _ _ _ _
                              Hkey Hd).
    exact (later_repairs_keep key _ Hkey Hval). }
  rewrite Hrep, (json_loads_member key _ Hkey' (Hsafe _ Hval)). reflexivity.
Qed.

End DatetimeRepair.

(** * The theorems on concrete inputs

    The small runtime and a world without files instantiate the theorems
    that have hypotheses, and exhibit the inputs on which the code departs
    from the specification. *)

#[local] Existing Instance integral_runtime.

Lemma C1_null_document_is_rejected_witness :
  faults fresh_world = []
  /\ (json_loads (rt := integral_runtime) (lit "null") = inl PNone
      /\ _try_parse_mt5_json (rt := integral_runtime) (lit "null")
         = (PNone, None, None)
      /\ exists w',
          webhook_from_mt5 (rt := integral_runtime) (lit "null") fresh_world =
            (Return (JSONResponse 400
               (PDict [(lit "status", PStr (lit "invalid_json"));
                       (lit "error", PStr (lit "None"));
                       (lit "raw", PStr (lit "null"));
                       (lit "repaired", PNone)])), w')
          /\ store_read w' = Snapshot (PDict [])).
Proof.
  split; [reflexivity|].
  apply (C1_null_document_is_rejected (rt := integral_runtime) fresh_world).
  reflexivity.
Defined.

Lemma C4_write_then_read_round_trip_witness :
  valid_json sample_value = true
  /\ faults fresh_world = []
  /\ exists w1 w2,
      _write_result_file sample_value fresh_world = (Return tt, w1)
      /\ store_read w1 = Snapshot sample_value
      /\ get_last_result w1 = (Return (JSONResponse 200 sample_value), w2).
Proof.
  split; [reflexivity|]. split; [reflexivity|].
  apply (C4_write_then_read_round_trip (laws := integral_runtime_laws)
           sample_value fresh_world); reflexivity.
Defined.

Lemma C6_invalid_payload_stores_empty_mapping_witness :
  let raw_body := lit "{not json at all" in
  let e :=
    {| err_msg := "Expecting property name enclosed in double quotes";
       err_doc := raw_body; err_pos := 1 |} in
  faults fresh_world = []
  /\ json_loads (rt := integral_runtime) (Utf8.decode_ignore raw_body) = inr e
  /\ json_loads (rt := integral_runtime) (repair (Utf8.decode_ignore raw_body))
     = inr e
  /\ exists w',
      webhook_from_mt5 (rt := integral_runtime) raw_body fresh_world =
        (Return (JSONResponse 400
           (PDict [(lit "status", PStr (lit "invalid_json"));
                   (lit "error",
                    PStr (str_JSONDecodeError e ++ lit " | after_repair: "
                          ++ str_JSONDecodeError e));
                   (lit "raw", PStr (Utf8.decode_ignore raw_body));
                   (lit "repaired",
                    if text_eqb (repair (Utf8.decode_ignore raw_body))
                                (Utf8.decode_ignore raw_body)
                    then PNone
                    else PStr (repair (Utf8.decode_ignore raw_body)))])), w')
      /\ store_read w' = Snapshot (PDict [])
      /\ fst (get_last_result w') = Return (JSONResponse 200 (PDict [])).
Proof.
  intros raw_body e.
  split; [reflexivity|]. split; [reflexivity|]. split; [reflexivity|].
  apply (C6_invalid_payload_stores_empty_mapping (rt := integral_runtime)
           raw_body fresh_world e e); reflexivity.
Defined.


Lemma C8_write_failure_aborts_the_response_witness :
  let raw_body := lit "{}" in
  let w := full_disk_world in
  let msg := lit "No space left on device" in
  let v := stored_value (rt := integral_runtime) raw_body in
  let tmp_path := tmp_path_of (module_file w) in
  let r := _write_result_file v w in
  fst r = Raise (ExOSError msg)
  /\ ((webhook_from_mt5 raw_body w = (Raise (ExOSError msg), snd r)
       \/ exists s,
            v = PStr s /\ Utf8.encode s = None
            /\ webhook_from_mt5 raw_body w
               = (Raise (ExUnicodeError (unicode_encode_error_str s)), w))
      /\ (calls (snd r) = CallWriteText tmp_path (json_dumps v) :: calls w
          \/ calls (snd r)
             = CallReplace tmp_path (result_path_of (module_file w))
               :: CallWriteText tmp_path (json_dumps v) :: calls w)).
Proof.
  intros raw_body w msg v tmp_path r. split; [reflexivity|].
  apply (C8_write_failure_aborts_the_response (rt := integral_runtime)
           raw_body w msg).
  reflexivity.
Defined.

(** The claim C8 at a payload that parses, in a world whose disk is full:
    the parse outcome is a success, yet the handler returns no response. *)
Lemma C8_counterexample :
  _try_parse_mt5_json (rt := integral_runtime) (lit "{}") = (PDict [], None, None)
  /\ ~ exists resp w',
         webhook_from_mt5 (rt := integral_runtime) (lit "{}") full_disk_world
         = (Return resp, w').
Proof.
  split; [reflexivity|]. intros (resp & w' & H).
  assert (Hr : fst (webhook_from_mt5 (rt := integral_runtime) (lit "{}")
                      full_disk_world)
               = Raise (ExOSError (lit "No space left on device")))
    by reflexivity.
  rewrite H in Hr. discriminate.
Qed.

Lemma C9_ill_formed_bytes_are_dropped_witness :
  Utf8.encode [0x61] = Some [0x61]
  /\ Utf8.decode_one [0xFF; 0x62] = None
  /\ (Utf8.decode_ignore [0x61] = [0x61]
      /\ Utf8.decode_ignore ([0x61] ++ [0xFF; 0x62])
         = [0x61] ++ Utf8.decode_ignore [0x62]).
Proof.
  split; [reflexivity|]. split; [reflexivity|].
  apply (C9_ill_formed_bytes_are_dropped [0x61] [0x61] 0xFF [0x62]); reflexivity.
Defined.

(** The claim C9 at the bytes [61 FF 62]: the byte [FF], at which no
    well-formed sequence starts, leaves no replacement marker. *)
Lemma C9_counterexample :
  Utf8.decode_one [0xFF; 0x62] = None
  /\ Utf8.decode_ignore [0x61; 0xFF; 0x62] = [0x61; 0x62]
  /\ ~ In Utf8.replacement_marker (Utf8.decode_ignore [0x61; 0xFF; 0x62]).
Proof.
  split; [reflexivity|]. split; [reflexivity|].
  cbv. intros [H | [H | []]]; discriminate.
Qed.

(** The claim C5 at the snapshot the handler of the webhook itself stores
    for the body [[NaN]], in the runtime with floats that are not finite: the
    request is not answered, the snapshot holds [nan], and reading it raises
    instead of returning the parsed value. *)
Lemma C5_read_raises_on_nonfinite_snapshot_witness :
  let r := webhook_from_mt5 (rt := extended_runtime) (lit "[NaN]") fresh_world in
  let w := snd r in
  let v := PList (rt := extended_runtime) [PFloat (rt := extended_runtime) XNaN] in
  fst r = Raise (ExValueError out_of_range_msg)
  /\ faults w = []
  /\ store_read (rt := extended_runtime) w = Snapshot v
  /\ has_nonfinite v = true
  /\ exists w',
      get_last_result (rt := extended_runtime) w
      = (Raise (ExValueError out_of_range_msg), w').
Proof.
  intros r w v. split; [reflexivity|]. split; [reflexivity|].
  split; [reflexivity|]. split; [reflexivity|].
  destruct (C5_read_raises_on_nonfinite_snapshot
              (laws := extended_runtime_laws) w) as (_ & _ & H).
  set (b := match files w !! result_path_of (module_file w) with
            | Some b => b
            | None => []
            end).
  set (t := match file_text (rt := extended_runtime) b with
            | inl t => t
            | inr _ => []
            end).
  destruct (H b t v eq_refl eq_refl eq_refl eq_refl) as (_ & _ & Hraise & _).
  exact (Hraise eq_refl).
Defined.

(** ** The further properties on concrete inputs *)

Lemma X1_write_leaves_no_temporary_file_witness :
  let w := fresh_world in
  let r := _write_result_file (rt := integral_runtime) sample_value w in
  r = (Return tt, snd r)
  /\ ((exists b, Utf8.encode (json_dumps sample_value) = Some b
                 /\ files (snd r) !! result_path_of (module_file w) = Some b)
      /\ files (snd r) !! tmp_path_of (module_file w) = None
      /\ forall p, p <> result_path_of (module_file w) ->
                   p <> tmp_path_of (module_file w) ->
                   files (snd r) !! p = files w !! p).
Proof.
  intros w r. split; [reflexivity|].
  apply (X1_write_leaves_no_temporary_file (rt := integral_runtime)
           sample_value w (snd r)).
  reflexivity.
Defined.

Lemma X2_second_write_absorbs_first_witness :
  let v1 := PInt (rt := integral_runtime) 1 in
  let v2 := PDict (rt := integral_runtime) [] in
  faults fresh_world = []
  /\ Utf8.encode (json_dumps v1) = Some [49]
  /\ Utf8.encode (json_dumps v2) = Some [123; 125]
  /\ exists w1 w2 w2',
      _write_result_file v1 fresh_world = (Return tt, w1)
      /\ _write_result_file v2 w1 = (Return tt, w2)
      /\ _write_result_file v2 fresh_world = (Return tt, w2')
      /\ files w2 = files w2'.
Proof.
  intros v1 v2. split; [reflexivity|]. split; [reflexivity|].
  split; [reflexivity|].
  apply (X2_second_write_absorbs_first (rt := integral_runtime)
           v1 v2 fresh_world [49] [123; 125]); reflexivity.
Defined.

Lemma X3_unencodable_value_raises_witness :
  let data := PStr (rt := integral_runtime) [0xD800] in
  let w := fresh_world in
  faults w = []
  /\ Utf8.encode (json_dumps data) = None
  /\ exists w',
      _write_result_file data w =
        (Raise (ExUnicodeError (unicode_encode_error_str (json_dumps data))), w')
      /\ files w' !! tmp_path_of (module_file w) = Some []
      /\ files w' !! result_path_of (module_file w)
         = files w !! result_path_of (module_file w)
      /\ calls w' = CallWriteText (tmp_path_of (module_file w)) (json_dumps data)
                    :: calls w.
Proof.
  intros data w. split; [reflexivity|]. split; [reflexivity|].
  apply (X3_unencodable_value_raises (rt := integral_runtime) data w);
    reflexivity.
Defined.


Lemma X5_response_implies_snapshot_replaced_witness :
  let raw_body := qlit "{'a':1}" in
  let w := fresh_world in
  let r := webhook_from_mt5 (rt := integral_runtime) raw_body w in
  let resp :=
    JSONResponse 200 (PDict [(lit "status", PStr (lit "ok"));
                             (lit "received", PDict [(lit "a", PInt 1)])]) in
  r = (Return resp, snd r)
  /\ (let payload :=
        fst (fst (_try_parse_mt5_json (Utf8.decode_ignore raw_body))) in
      (exists b, Utf8.encode (json_dumps (stored_value raw_body)) = Some b
                 /\ files (snd r) !! result_path_of (module_file w) = Some b)
      /\ files (snd r) !! tmp_path_of (module_file w) = None
      /\ status_code resp = (if is_None payload then 400 else 200)
      /\ (is_None payload = false ->
          content resp = PDict [(lit "status", PStr (lit "ok"));
                                (lit "received", payload)])).
Proof.
  intros raw_body w r resp. split; [reflexivity|].
  apply (X5_response_implies_snapshot_replaced (rt := integral_runtime)
           raw_body w (snd r) resp).
  reflexivity.
Defined.

Lemma X6_post_then_get_serves_payload_witness :
  let raw_body := qlit "{'a':1}" in
  let payload := PDict (rt := integral_runtime) [(lit "a", PInt 1)] in
  faults fresh_world = []
  /\ fst (fst (_try_parse_mt5_json (Utf8.decode_ignore raw_body))) = payload
  /\ is_None payload = false
  /\ valid_json payload = true
  /\ exists w1 w2,
      webhook_from_mt5 raw_body fresh_world =
        (Return (JSONResponse 200
                   (PDict [(lit "status", PStr (lit "ok"));
                           (lit "received", payload)])), w1)
      /\ get_last_result w1 = (Return (JSONResponse 200 payload), w2).
Proof.
  intros raw_body payload.
  split; [reflexivity|]. split; [reflexivity|]. split; [reflexivity|].
  split; [reflexivity|].
  apply (X6_post_then_get_serves_payload (laws := integral_runtime_laws)
           raw_body fresh_world payload); reflexivity.
Defined.

Lemma X7_repair_needs_a_trigger_witness :
  let raw_text := lit "{not json at all" in
  let e :=
    {| err_msg := "Expecting property name enclosed in double quotes";
       err_doc := raw_text; err_pos := 1 |} in
  no_trigger raw_text = true
  /\ json_loads (rt := integral_runtime) raw_text = inr e
  /\ (repair raw_text = raw_text
      /\ _try_parse_mt5_json (rt := integral_runtime) raw_text
         = (PNone, Some raw_text,
            Some (str_JSONDecodeError e ++ lit " | after_repair: "
                  ++ str_JSONDecodeError e))
      /\ repaired_field (Some (repair raw_text)) raw_text = PNone).
Proof.
  intros raw_text e. split; [reflexivity|]. split; [reflexivity|].
  apply (X7_repair_needs_a_trigger (rt := integral_runtime) raw_text e);
    reflexivity.
Defined.

Lemma X9_well_formed_body_is_decoded_exactly_witness :
  let raw_body := [0x61; 0xC3; 0xA9; 0xF0; 0x9F; 0x98; 0x80] in
  let t := [0x61; 0xE9; 0x1F600] in
  Utf8.decode_strict raw_body = Some t
  /\ (Utf8.decode_ignore raw_body = t /\ Utf8.encode t = Some raw_body).
Proof.
  intros raw_body t. split; [reflexivity|].
  apply (X9_well_formed_body_is_decoded_exactly raw_body t). reflexivity.
Defined.

Lemma X12_lone_surrogate_aborts_the_request_witness :
  let raw_body := qlit "{'a':'\ud800'}" in
  let w := fresh_world in
  let payload :=
    fst (fst (_try_parse_mt5_json (rt := extended_runtime)
                (Utf8.decode_ignore raw_body))) in
  faults w = []
  /\ payload = PDict [(lit "a", PStr [0xD800])]
  /\ strings_scalar payload = false
  /\ exists msg w',
      webhook_from_mt5 (rt := extended_runtime) raw_body w = (Raise (ExUnicodeError msg), w')
      /\ files w' !! result_path_of (module_file w)
         = files w !! result_path_of (module_file w)
      /\ files w' !! tmp_path_of (module_file w) = Some [].
Proof.
  intros raw_body w payload. split; [reflexivity|]. split; [reflexivity|].
  split; [reflexivity|].
  destruct (X12_lone_surrogate_aborts_the_request
              (laws := extended_runtime_laws) raw_body w eq_refl eq_refl)
    as (msg & w' & Hrun & Hres & Htmp).
  exists msg, w'. split; [exact Hrun|]. split; [exact Hres|exact Htmp].
Defined.

Lemma X13_finite_payload_is_answered_witness :
  let raw_body := qlit "{'a':'b', 'b':[NaN]}" in
  let w := fresh_world in
  let payload :=
    fst (fst (_try_parse_mt5_json (rt := extended_runtime)
                (Utf8.decode_ignore raw_body))) in
  faults w = []
  /\ payload = PDict [(lit "a", PStr (lit "b"));
                      (lit "b", PList [PFloat (rt := extended_runtime) XNaN])]
  /\ strings_scalar payload = true
  /\ has_nonfinite payload = true
  /\ exists b w',
      webhook_from_mt5 (rt := extended_runtime) raw_body w = (Raise (ExValueError out_of_range_msg), w')
      /\ Utf8.encode (json_dumps payload) = Some b
      /\ files w' !! result_path_of (module_file w) = Some b.
Proof.
  intros raw_body w payload. split; [reflexivity|]. split; [reflexivity|].
  split; [reflexivity|]. split; [reflexivity|].
  destruct (X13_finite_payload_is_answered (laws := extended_runtime_laws)
              raw_body w eq_refl eq_refl) as (_ & Hnonfinite).
  apply Hnonfinite. reflexivity.
Defined.

Lemma X14_body_without_backslash_is_text_witness :
  let raw_body := [0xFF] ++ qlit "{'t': 2025.12.12 04:05:00,}" ++ [0xC3] in
  let w := fresh_world in
  let payload :=
    fst (fst (_try_parse_mt5_json (rt := extended_runtime)
                (Utf8.decode_ignore raw_body))) in
  faults w = []
  /\ no_backslash raw_body = true
  /\ has_nonfinite payload = false
  /\ strings_scalar payload = true
  /\ exists resp w',
      webhook_from_mt5 (rt := extended_runtime) raw_body w = (Return resp, w')
      /\ status_code resp = (if is_None payload then 400 else 200)
      /\ faults w' = [].
Proof.
  intros raw_body w payload. split; [reflexivity|]. split; [reflexivity|].
  split; [reflexivity|].
  destruct (X14_body_without_backslash_is_text (laws := extended_runtime_laws)
              raw_body w eq_refl eq_refl) as (Hs & Hfinite & _).
  split; [exact Hs|]. apply Hfinite. reflexivity.
Defined.

Lemma X15_bare_datetime_member_is_quoted_witness :
  let key := lit "bar_time" in
  let date := mt5_datetime (lit "2025") (lit "12") (lit "12")
                (lit "04") (lit "05") (lit "00") in
  forallb key_char key = true
  /\ is_digits 4 (lit "2025") = true /\ is_digits 2 (lit "12") = true
  /\ is_digits 2 (lit "04") = true /\ is_digits 2 (lit "05") = true
  /\ is_digits 2 (lit "00") = true
  /\ _try_parse_mt5_json (rt := integral_runtime)
       (lit "{" ++ [dquote] ++ key ++ [dquote] ++ lit ":" ++ date ++ lit "}")
     = (PDict [(key, PStr date)],
        Some (lit "{" ++ [dquote] ++ key ++ [dquote] ++ lit ":"
              ++ [dquote] ++ date ++ [dquote] ++ lit "}"),
        None).
Proof.
  intros key date. repeat (split; [reflexivity|]).
  apply (X15_bare_datetime_member_is_quoted (rt := integral_runtime)
           key (lit "2025") (lit "12") (lit "12") (lit "04") (lit "05")
           (lit "00")); reflexivity.
Defined.
